(** * RemNote flashcard generator: card model, duplicate filter,
      serializer/escaper and retry wrapper

    A shallow embedding of
    - [src/card_generator.py]   (Flashcard, CardGenerator),
    - [src/remnote_formatter.py] (RemNoteFormatter),
    - [src/llm_client.py]       (LLMClient._retry_with_backoff),
    - [src/yaml_parser.py]      (the validators of Topic, the statistics),
    - [src/main.py]             (the generation loop),
    together with the properties the specification states about them.

    Python [str] values are modelled as [string]: one 8-bit character per
    code point, so the texts covered are those over the code points below
    256.  Dictionaries that are iterated are association lists in
    insertion order, sets of fingerprints are [gset string]. *)

From Stdlib Require Import String Ascii List ZArith QArith Lia Bool.
From stdpp Require Import gmap strings.
Import ListNotations.

#[local] Set Warnings "-clear-no-such-hyp".

Local Open Scope string_scope.
Local Open Scope list_scope.

(** ** Python string primitives *)

Module PyStr.

Definition nl : string := String (ascii_of_nat 10) "".
Definition space : ascii := " "%char.

(** [s[n:]] for [0 <= n]. *)
Fixpoint drop (n : nat) (s : string) : string :=
  match n, s with
  | O, _ => s
  | S _, EmptyString => EmptyString
  | S k, String _ s' => drop k s'
  end.

(** [s[:n]] for [0 <= n]. *)
Fixpoint take (n : nat) (s : string) : string :=
  match n, s with
  | O, _ => EmptyString
  | S _, EmptyString => EmptyString
  | S k, String c s' => String c (take k s')
  end.

(** [s.startswith(p)] *)
Fixpoint startswith (p s : string) : bool :=
  match p, s with
  | EmptyString, _ => true
  | String _ _, EmptyString => false
  | String a p', String b s' => Ascii.eqb a b && startswith p' s'
  end.

(** [sub in s] *)
Fixpoint contains (sub s : string) : bool :=
  startswith sub s ||
  match s with
  | EmptyString => false
  | String _ s' => contains sub s'
  end.

(** The scan of [str.replace] for a non-empty [old]: [skip] counts the
    characters of a match that are still to be consumed. *)
Fixpoint replace_from (old new : string) (skip : nat) (s : string) : string :=
  match s with
  | EmptyString => EmptyString
  | String c s' =>
      match skip with
      | S k => replace_from old new k s'
      | O =>
          if startswith old s
          then new +:+ replace_from old new (String.length old - 1) s'
          else String c (replace_from old new 0 s')
      end
  end.

(** [s.replace("", new)] puts [new] before every character and at the end. *)
Fixpoint intersperse (new s : string) : string :=
  match s with
  | EmptyString => new
  | String c s' => new +:+ String c (intersperse new s')
  end.

(** [s.replace(old, new)]: leftmost non-overlapping occurrences. *)
Definition replace (old new s : string) : string :=
  match old with
  | EmptyString => intersperse new s
  | String _ _ => replace_from old new 0 s
  end.

(** [sep.join(l)] *)
Fixpoint join (sep : string) (l : list string) : string :=
  match l with
  | [] => EmptyString
  | [x] => x
  | x :: l' => x +:+ sep +:+ join sep l'
  end.

(** [re.search(r'\{\{([^}]+)\}\}', s)] succeeds.  After an opening
    brace pair the class [[^}]+] takes the longest run of characters
    other than a closing brace; the run must be non-empty and be followed
    by two closing braces.  Giving characters back cannot help, since the
    character after a shorter run is not a closing brace. *)
Fixpoint cloze_tail (seen : bool) (s : string) : bool :=
  match s with
  | EmptyString => false
  | String c s' =>
      if Ascii.eqb c "}"%char
      then seen && startswith "}" s'
      else cloze_tail true s'
  end.

Fixpoint has_cloze (s : string) : bool :=
  match s with
  | EmptyString => false
  | String _ s' =>
      (startswith "{{" s && cloze_tail false (drop 2 s)) || has_cloze s'
  end.

(** [c.isspace()] for a code point below 256: the ASCII white space
    9-13 and 28-32, the next-line control U+0085 and the no-break space
    U+00A0.  [str.strip] and the class [\s] of [re] use the same test. *)
Definition isspace (c : ascii) : bool :=
  let n := nat_of_ascii c in
  ((9 <=? n) && (n <=? 13) || (28 <=? n) && (n <=? 32)
   || (n =? 133) || (n =? 160))%nat.

Fixpoint lstrip (s : string) : string :=
  match s with
  | String c s' => if isspace c then lstrip s' else s
  | EmptyString => EmptyString
  end.

Fixpoint rstrip (s : string) : string :=
  match s with
  | String c s' =>
      match rstrip s' with
      | EmptyString => if isspace c then EmptyString else String c EmptyString
      | r => String c r
      end
  | EmptyString => EmptyString
  end.

(** [s.strip()] *)
Definition strip (s : string) : string := rstrip (lstrip s).

(** [s.split('\n')] *)
Fixpoint split_lines (s : string) : list string :=
  match s with
  | EmptyString => [EmptyString]
  | String c s' =>
      if Ascii.eqb c (ascii_of_nat 10) then EmptyString :: split_lines s'
      else
        match split_lines s' with
        | l :: ls => String c l :: ls
        | [] => [String c EmptyString]
        end
  end.

Fixpoint find_split (sep s : string) : option (string * string) :=
  if startswith sep s then Some (EmptyString, drop (String.length sep) s)
  else
    match s with
    | EmptyString => None
    | String c s' =>
        match find_split sep s' with
        | Some (a, b) => Some (String c a, b)
        | None => None
        end
    end.

(** [a, b = s.split(sep, 1)]; [None] stands for the [ValueError] raised
    for an empty separator or when [sep] does not occur. *)
Definition split_once (sep s : string) : option (string * string) :=
  match sep with
  | EmptyString => None
  | String _ _ => find_split sep s
  end.

(** [l[:n]] for any integer [n]. *)
Definition slice_to {A} (n : Z) (l : list A) : list A :=
  if (0 <=? n)%Z then firstn (Z.to_nat n) l
  else firstn (List.length l - Z.to_nat (- n)) l.

End PyStr.

(** ** Data model ([card_generator.py]) *)

Inductive CardType :=
| CONCEPT | BASIC | CLOZE | DESCRIPTOR
| MULTILINE_BASIC | MULTILINE_CONCEPT | MULTILINE_DESCRIPTOR
| LIST_ANSWER | MULTIPLE_CHOICE.

Inductive CardDirection := FORWARD | BACKWARD | BIDIRECTIONAL | DISABLED.

Definition CardType_value (t : CardType) : string :=
  match t with
  | CONCEPT => "concept"
  | BASIC => "basic"
  | CLOZE => "cloze"
  | DESCRIPTOR => "descriptor"
  | MULTILINE_BASIC => "multiline_basic"
  | MULTILINE_CONCEPT => "multiline_concept"
  | MULTILINE_DESCRIPTOR => "multiline_descriptor"
  | LIST_ANSWER => "list_answer"
  | MULTIPLE_CHOICE => "multiple_choice"
  end.

Definition CardDirection_value (d : CardDirection) : string :=
  match d with
  | FORWARD => "forward"
  | BACKWARD => "backward"
  | BIDIRECTIONAL => "bidirectional"
  | DISABLED => "disabled"
  end.

Definition all_card_types : list CardType :=
  [CONCEPT; BASIC; CLOZE; DESCRIPTOR; MULTILINE_BASIC; MULTILINE_CONCEPT;
   MULTILINE_DESCRIPTOR; LIST_ANSWER; MULTIPLE_CHOICE].

#[global] Instance CardType_eq_dec : EqDecision CardType.
Proof. solve_decision. Defined.

#[global] Instance CardDirection_eq_dec : EqDecision CardDirection.
Proof. solve_decision. Defined.

(** The dataclass [Flashcard].  [use_triple_delimiter] is not a declared
    field: the formatter reads it with [hasattr], and it is [false] when the
    attribute is absent. *)
Record Flashcard := mkFlashcard {
  card_type : CardType;
  front : string;
  back : string;
  parent : option string;
  tags : list string;
  difficulty : string;
  source_hash : string;
  direction : CardDirection;
  list_items : list string;
  correct_choice_index : Z;
  extra_detail : option string;
  is_multiline : bool;
  use_triple_delimiter : bool
}.

(** Truth value of an [Optional[str]]: [None] and the empty string are false. *)
Definition truthy (p : option string) : option string :=
  match p with
  | Some EmptyString => None
  | Some s => Some s
  | None => None
  end.

Section Fingerprint.

(** [hashlib.md5(b).hexdigest()] on the UTF-8 bytes of a string. *)
Variable md5_hexdigest : string -> string.

(** The string that [__post_init__] hashes. *)
Definition hash_content (c : Flashcard) : string :=
  let content :=
    front c +:+ "||" +:+ back c +:+ "||" +:+ CardType_value (card_type c)
    +:+ "||" +:+ CardDirection_value (direction c) in
  match list_items c with
  | [] => content
  | _ :: _ => content +:+ "||" +:+ PyStr.join "," (list_items c)
  end.

Definition with_source_hash (h : string) (c : Flashcard) : Flashcard :=
  mkFlashcard (card_type c) (front c) (back c) (parent c) (tags c)
    (difficulty c) h (direction c) (list_items c) (correct_choice_index c)
    (extra_detail c) (is_multiline c) (use_triple_delimiter c).

(** [Flashcard.__post_init__] *)
Definition __post_init__ (c : Flashcard) : Flashcard :=
  match source_hash c with
  | EmptyString =>
      with_source_hash (PyStr.take 8 (md5_hexdigest (hash_content c))) c
  | String _ _ => c
  end.

(** The constructor call [Flashcard(card_type=..., front=..., ...)] with
    the dataclass defaults for the fields the generator never passes. *)
Definition new_flashcard (ty : CardType) (f b : string) (p : option string)
    (tg : list string) (diff : string) (d : CardDirection)
    (items : list string) (idx : Z) (multi : bool) : Flashcard :=
  __post_init__ (mkFlashcard ty f b p tg diff "" d items idx None multi false).

End Fingerprint.

(** ** The serializer ([remnote_formatter.py]) *)

Record FormattingStats := mkStats {
  total_cards : nat;
  cards_by_type : gmap string nat;
  cards_by_direction : gmap string nat;
  hierarchical_levels : nat;
  special_chars_escaped : nat
}.

(** [FormattingStats()] *)
Definition fresh_stats : FormattingStats := mkStats 0 ∅ ∅ 0 0.

(** Methods read and write the fields of [self]: a state monad. *)
Definition StateM (S A : Type) : Type := S -> A * S.

Definition ret {S A} (a : A) : StateM S A := fun st => (a, st).

Definition bind {S A B} (m : StateM S A) (k : A -> StateM S B) : StateM S B :=
  fun st => let '(a, st') := m st in k a st'.

Declare Scope fmt_scope.
Delimit Scope fmt_scope with fmt.
Notation "'let*' x ':=' m 'in' k" := (bind m (fun x => k))
  (at level 10, x name, m at level 100, k at level 200) : fmt_scope.

(** The formatter's state is [self.stats]. *)
Definition Fmt : Type -> Type := StateM FormattingStats.

(** A [for] loop that appends what its body yields for each element. *)
Fixpoint for_each {S A B} (body : A -> StateM S (list B)) (l : list A)
    : StateM S (list B) :=
  match l with
  | [] => ret []
  | x :: l' =>
      (let* ys := body x in let* zs := for_each body l' in ret (ys ++ zs))%fmt
  end.

(** The [replacements] dictionary, in its insertion order. *)
Definition replacements : list (string * string) :=
  [ ("::", ": :"); (">>", "> >"); ("<<", "< <"); (";;", "; ;");
    ("<>", "< >"); ("#[[", "# [["); ("]]", "] ]") ].

(** The value of [escaped_text] at the end of [_escape_special_chars]. *)
Definition escape_text (text : string) : string :=
  let escaped_text :=
    fold_left (fun acc '(original, replacement) =>
                 PyStr.replace original replacement acc)
              replacements text in
  if PyStr.contains "{{" escaped_text && PyStr.contains "}}" escaped_text
  then
    if negb (PyStr.has_cloze escaped_text)
    then PyStr.replace "}}" "} }" (PyStr.replace "{{" "{ {" escaped_text)
    else escaped_text
  else escaped_text.

Definition _escape_special_chars (text : string) : Fmt string :=
  fun st =>
    match text with
    | EmptyString => (text, st)
    | String _ _ =>
        let escaped_text := escape_text text in
        if Nat.eqb (String.length escaped_text) (String.length text)
        then (escaped_text, st)
        else (escaped_text,
              mkStats (total_cards st) (cards_by_type st)
                (cards_by_direction st) (hierarchical_levels st)
                (S (special_chars_escaped st)))
    end.

(** Both branches of [_format_cloze] return the front as it is. *)
Definition _format_cloze (card : Flashcard) : string :=
  let text := front card in
  if negb (PyStr.has_cloze text) then text else text.

Definition _format_multiline_concept (card : Flashcard) : Fmt string :=
  (let* front' := _escape_special_chars (front card) in
   if use_triple_delimiter card
   then ret (front' +:+ " :::")
   else
     let* back' := _escape_special_chars (back card) in
     let back_formatted := PyStr.replace "\n" (PyStr.nl +:+ "    ") back' in
     ret (front' +:+ " ::" +:+ PyStr.nl +:+ "    " +:+ back_formatted))%fmt.

(** [f"{value}"] for a value that is a [str] or [None]. *)
Definition fstr (value : option string) : string :=
  match value with
  | Some s => s
  | None => "None"
  end.

(** In the source the [else:] of this method is the tail of a comment
    line, so the second [return] stands unreachable behind the first one,
    inside the [if]: for a card without list items the method ends without
    a [return] and its value is [None]. *)
Definition _format_list_answer (card : Flashcard) : Fmt (option string) :=
  (let* front' := _escape_special_chars (front card) in
   match list_items card with
   | _ :: _ => ret (Some (front' +:+ " >>1."))
   | [] => ret None
   end)%fmt.

Definition _format_multiple_choice (card : Flashcard) : Fmt string :=
  (let* front' := _escape_special_chars (front card) in
   match list_items card with
   | _ :: _ :: _ => ret (front' +:+ " >>A)")
   | _ =>
       let* back' := _escape_special_chars (back card) in
       ret (front' +:+ " >> " +:+ back')
   end)%fmt.

(** The value of [formatted] that [_format_card] returns: a [str], or the
    [None] of [_format_list_answer]. *)
Definition _format_card (card : Flashcard) : Fmt (option string) :=
  (let* front' := _escape_special_chars (front card) in
   let* back' := _escape_special_chars (back card) in
   match direction card with
   | DISABLED => ret (Some (front' +:+ " =- " +:+ back'))
   | dir =>
       match card_type card with
       | CONCEPT =>
           match dir with
           | FORWARD => ret (Some (front' +:+ " :> " +:+ back'))
           | BACKWARD => ret (Some (front' +:+ " :< " +:+ back'))
           | _ => ret (Some (front' +:+ " :: " +:+ back'))
           end
       | BASIC =>
           match dir with
           | BACKWARD => ret (Some (front' +:+ " << " +:+ back'))
           | BIDIRECTIONAL => ret (Some (front' +:+ " <> " +:+ back'))
           | _ => ret (Some (front' +:+ " >> " +:+ back'))
           end
       | CLOZE => ret (Some (_format_cloze card))
       | DESCRIPTOR =>
           match dir with
           | BACKWARD => ret (Some (front' +:+ " ;< " +:+ back'))
           | FORWARD => ret (Some (front' +:+ " ;> " +:+ back'))
           | _ => ret (Some (front' +:+ " ;; " +:+ back'))
           end
       | MULTILINE_CONCEPT =>
           let* formatted := _format_multiline_concept card in
           ret (Some formatted)
       | LIST_ANSWER => _format_list_answer card
       | MULTIPLE_CHOICE =>
           let* formatted := _format_multiple_choice card in
           ret (Some formatted)
       | MULTILINE_BASIC | MULTILINE_DESCRIPTOR =>
           ret (Some (front' +:+ " >> " +:+ back'))
       end
   end)%fmt.

(** [hierarchy = defaultdict(list)]: keys in order of first insertion. *)
Definition Hierarchy : Type := list (string * list Flashcard).

Fixpoint hierarchy_append (k : string) (c : Flashcard) (h : Hierarchy) : Hierarchy :=
  match h with
  | [] => [(k, [c])]
  | (k', cs) :: h' =>
      if String.eqb k' k then (k', cs ++ [c]) :: h'
      else (k', cs) :: hierarchy_append k c h'
  end.

Fixpoint hierarchy_lookup (k : string) (h : Hierarchy) : option (list Flashcard) :=
  match h with
  | [] => None
  | (k', cs) :: h' => if String.eqb k' k then Some cs else hierarchy_lookup k h'
  end.

(** [hierarchy.get(k, [])] *)
Definition hierarchy_get (k : string) (h : Hierarchy) : list Flashcard :=
  match hierarchy_lookup k h with Some cs => cs | None => [] end.

(** [k in hierarchy] *)
Definition hierarchy_mem (k : string) (h : Hierarchy) : bool :=
  match hierarchy_lookup k h with Some _ => true | None => false end.

(** The first loop of [_format_hierarchical]: the pair [(hierarchy, root_cards)]. *)
Fixpoint group_by_parent (cards : list Flashcard) (h : Hierarchy)
    (roots : list Flashcard) : Hierarchy * list Flashcard :=
  match cards with
  | [] => (h, roots)
  | card :: cards' =>
      match truthy (parent card) with
      | Some p => group_by_parent cards' (hierarchy_append p card h) roots
      | None => group_by_parent cards' h (roots ++ [card])
      end
  end.

Definition child_line (child : Flashcard) : Fmt (list string) :=
  (let* child_formatted := _format_card child in
   ret ["    # " +:+ fstr child_formatted])%fmt.

(** Body of the loop over [root_cards]. *)
Definition root_block (h : Hierarchy) (card : Flashcard) : Fmt (list string) :=
  (let* formatted_card := _format_card card in
   if hierarchy_mem (front card) h || hierarchy_mem (back card) h
   then
     let children := hierarchy_get (front card) h ++ hierarchy_get (back card) h in
     let* ls := for_each child_line children in
     ret (("# " +:+ fstr formatted_card) :: ls)
   else ret ["# " +:+ fstr formatted_card])%fmt.

(** The loop over [hierarchy.items()], threading [processed_parents]. *)
Fixpoint remaining_blocks (items : Hierarchy) (processed_parents : gset string)
    : Fmt (list string) :=
  match items with
  | [] => ret []
  | (p, children) :: items' =>
      if decide (p ∈ processed_parents)
      then remaining_blocks items' processed_parents
      else
        (let* ls := for_each child_line children in
         let* rest := remaining_blocks items' ({[p]} ∪ processed_parents) in
         ret ((("# " +:+ p) :: ls) ++ rest))%fmt
  end.

(** [output_lines] at the end of [_format_hierarchical]. *)
Definition hierarchical_lines (cards : list Flashcard) : Fmt (list string) :=
  let '(hierarchy, root_cards) := group_by_parent cards [] [] in
  (let* top := for_each (root_block hierarchy) root_cards in
   let* rest := remaining_blocks hierarchy ∅ in
   ret (top ++ rest))%fmt.

Definition _format_hierarchical (cards : list Flashcard) : Fmt string :=
  (let* ls := hierarchical_lines cards in ret (PyStr.join PyStr.nl ls))%fmt.

Definition flat_line (card : Flashcard) : Fmt (list string) :=
  (let* formatted_card := _format_card card in
   match tags card with
   | [] => ret ["# " +:+ fstr formatted_card]
   | _ :: _ =>
       let tags_str := PyStr.join " " (map (fun tag => "#" +:+ tag) (tags card)) in
       ret ["# " +:+ (fstr formatted_card +:+ " " +:+ tags_str)]
   end)%fmt.

Definition _format_flat (cards : list Flashcard) : Fmt string :=
  (let* ls := for_each flat_line cards in ret (PyStr.join PyStr.nl ls))%fmt.

(** [dict(Counter(keys))] *)
Definition counter (keys : list string) : gmap string nat :=
  fold_left (fun m k => <[k := S (default 0 (m !! k))]> m) keys ∅.

Definition unique_parents (cards : list Flashcard) : gset string :=
  list_to_set (omap (fun c => truthy (parent c)) cards).

Definition _calculate_final_stats (cards : list Flashcard) : Fmt unit :=
  fun st =>
    (tt, mkStats (List.length cards)
           (counter (map (fun c => CardType_value (card_type c)) cards))
           (counter (map (fun c => CardDirection_value (direction c)) cards))
           (size (unique_parents cards))
           (special_chars_escaped st)).

Definition _reset_stats : Fmt unit := fun _ => (tt, fresh_stats).

Definition format_cards (cards : list Flashcard) (hierarchy : bool) : Fmt string :=
  (let* u := _reset_stats in
   match cards with
   | [] => ret ""
   | _ :: _ =>
       let* formatted := (if hierarchy then _format_hierarchical cards
                     else _format_flat cards) in
       let* u' := _calculate_final_stats cards in
       ret formatted
   end)%fmt.

(** ** Predicates used in the statements *)

(** [spaced s t]: [t] is [s] with blanks inserted. *)
Inductive spaced : string -> string -> Prop :=
| spaced_nil : spaced "" ""
| spaced_keep c s t : spaced s t -> spaced (String c s) (String c t)
| spaced_ins s t : spaced s t -> spaced s (String " " t).

Fixpoint no_space (s : string) : bool :=
  match s with
  | EmptyString => true
  | String c s' => negb (Ascii.eqb c " ") && no_space s'
  end.

Fixpoint occurs (a : ascii) (s : string) : bool :=
  match s with
  | EmptyString => false
  | String c s' => Ascii.eqb a c || occurs a s'
  end.

(** The tokens the escaper looks for, and the runs in which two occurrences
    of a token overlap. *)
Definition tokens : list string := map fst replacements.

Definition overlapping_runs : list string :=
  [":::"; ">>>"; "<<<"; ";;;"; "]]]"].

Definition free_of (toks : list string) (s : string) : bool :=
  forallb (fun t => negb (PyStr.contains t s)) toks.

(** The text after the first [n] replacements of the escaper's loop. *)
Definition stage (n : nat) (text : string) : string :=
  fold_left (fun acc '(original, replacement) =>
               PyStr.replace original replacement acc)
            (firstn n replacements) text.

(** ** Concrete cards

    [Flashcard(card_type=ty, front=f, back=b, parent=p, direction=d,
    list_items=items)] with every other field at its default; [h] is the
    fingerprint that [__post_init__] stores for it. *)
Definition card (ty : CardType) (f b : string) (p : option string)
    (d : CardDirection) (items : list string) (h : string) : Flashcard :=
  mkFlashcard ty f b p [] "intermediate" h d items 0 None false false.

(** The list-answer card of [tests/test_formatter_features.py]. *)
Definition layers_card : Flashcard :=
  card LIST_ANSWER "What are the layers?"
    ("Batch" +:+ PyStr.nl +:+ "Speed" +:+ PyStr.nl +:+ "Serving")
    None FORWARD ["Batch Layer"; "Speed Layer"; "Serving Layer"] "f9353c9a".

(** A list-answer card without list items. *)
Definition bare_list_card : Flashcard :=
  card LIST_ANSWER "Layers::all" "Batch;;Speed" None FORWARD [] "39edebab".

(** The two cards of [test_hierarchical_formatting] in the same file. *)
Definition ml_parent_card : Flashcard :=
  card CONCEPT "Machine Learning"
    "AI field focused on algorithms that improve through experience"
    None BIDIRECTIONAL [] "6e338638".

Definition ml_child_card : Flashcard :=
  card DESCRIPTOR "Main Types"
    "Supervised, Unsupervised, Reinforcement Learning"
    (Some "Machine Learning") FORWARD [] "45a37c32".

(** A chain root, child, grandchild. *)
Definition chain_root : Flashcard :=
  card CONCEPT "Lambda Architecture" "Data processing architecture"
    None FORWARD [] "10e82d42".

Definition chain_child : Flashcard :=
  card DESCRIPTOR "purpose" "Handle both batch and streaming data"
    (Some "Lambda Architecture") FORWARD [] "a8eab3b2".

Definition chain_grandchild : Flashcard :=
  card BASIC "Why both layers?" "Accuracy and low latency"
    (Some "purpose") FORWARD [] "8163dde1".

(** Cloze cards. *)
Definition cloze_disabled_card : Flashcard :=
  card CLOZE "X causes {{Y}}" "" None DISABLED [] "c24019c9".

Definition cloze_unbalanced_card : Flashcard :=
  card CLOZE "A::B {{Y" "" None FORWARD [] "b2705925".

Definition cloze_card : Flashcard :=
  card CLOZE "X causes {{Y}}" "" None FORWARD [] "1821550f".

(** Number of leading blanks of a line. *)
Fixpoint indentation (s : string) : nat :=
  match s with
  | String c s' => if Ascii.eqb c " " then S (indentation s') else 0
  | EmptyString => 0
  end.

(** The result of a formatter method run on a fresh formatter. *)
Definition run {A} (m : Fmt A) : A := fst (m fresh_stats).

(** How many lines of the document are exactly [line]. *)
Definition count_line (line : string) (lines : list string) : nat :=
  count_occ string_dec lines line.

(** The line [_format_hierarchical] writes for a card placed as a child. *)
Definition child_line_of (c : Flashcard) : string :=
  "    # " +:+ fstr (run (_format_card c)).

(** ** The generator ([card_generator.py]) *)

Module CardGenerator.

(** [yaml_parser.Topic] *)
#[warnings="-register-all"]
Inductive Topic := mkTopic {
  name : string;
  content : string;
  subtopics : list Topic;
  examples : list string;
  key_concepts : list string;
  topic_difficulty : string
}.

(** [self.config['card_types']], each flag at its truth value; a missing
    key reads as [True]. *)
Record CardTypesConfig := mkCardTypes {
  concept : bool;
  basic : bool;
  cloze : bool;
  descriptor : bool;
  multiline : bool;
  list_answer : bool;
  multiple_choice : bool
}.

(** A value that [yaml.safe_load] reads from a prompt file: [null], a
    boolean, an integer, a float (given by a rational), a string, or
    anything else (a sequence, a mapping, a float that is no number). *)
Inductive Value :=
| VNone
| VBool (b : bool)
| VInt (n : Z)
| VFloat (q : Q)
| VStr (s : string)
| VOther.

(** The [config] mapping of a prompt file with the three keys the
    generator reads; [None] is a missing key. *)
Record PromptConfig := mkPromptConfig {
  temperature : option Value;
  separator : option Value;
  max_cards : option Value
}.

(** The left operand of [separator in text]; [None] stands for the
    [TypeError] raised for an operand that is no string. *)
Definition as_str (v : Value) : option string :=
  match v with
  | VStr s => Some s
  | _ => None
  end.

(** [l[:v]]: [null] keeps the whole list, a boolean counts as 0 or 1;
    [None] stands for the [TypeError] raised for an index that is neither
    an integer nor [None]. *)
Definition slice_to_value {A} (v : Value) (l : list A) : option (list A) :=
  match v with
  | VNone => Some l
  | VInt n => Some (PyStr.slice_to n l)
  | VBool b => Some (PyStr.slice_to (if b then 1 else 0) l)
  | VFloat _ | VStr _ | VOther => None
  end.

(** What the generator is constructed with, and the digest it imports.
    [llm_generate n prompt temperature] is the outcome of the call
    [self.llm.generate(prompt, temperature=...)] made after [n] earlier
    calls; [get_config] and [format_prompt] are the methods of the prompt
    loader.  [None] stands for a raised exception; for [get_config] also
    for a [config] that is no mapping, whose [get] raises at its first
    use, before the external capability is called. *)
Record Env := mkEnv {
  md5_hexdigest : string -> string;
  llm_generate : nat -> string -> Value -> option string;
  get_config : string -> option PromptConfig;
  format_prompt : string -> list (string * string) -> option string;
  card_types : CardTypesConfig
}.

(** The mutable fields of a [CardGenerator]; [llm_requests] counts the
    calls made to the external capability, successful or not. *)
Record State := mkState {
  generated_cards : gset string;
  total_cards : nat;
  by_type : gmap string nat;
  duplicates_avoided : nat;
  topics_processed : nat;
  llm_calls : nat;
  llm_requests : nat
}.

Definition Gen : Type -> Type := StateM State.

Definition zero_by_type : gmap string nat :=
  list_to_map (map (fun t => (CardType_value t, 0)) all_card_types).

(** [CardGenerator.__init__] *)
Definition initial_state : State := mkState ∅ 0 zero_by_type 0 0 0 0.

(** [self.generation_stats["by_type"][k] += 1] *)
Definition count_type (k : string) : Gen unit :=
  fun st =>
    (tt, mkState (generated_cards st) (total_cards st)
           (<[k := S (default 0 (by_type st !! k))]> (by_type st))
           (duplicates_avoided st) (topics_processed st) (llm_calls st)
           (llm_requests st)).

(** [self.llm.generate(prompt, temperature)], then
    [self.generation_stats["llm_calls"] += 1] when the call returned. *)
Definition call_llm (env : Env) (prompt : string) (temp : Value)
    : Gen (option string) :=
  fun st =>
    match llm_generate env (llm_requests st) prompt temp with
    | Some response =>
        (Some response,
         mkState (generated_cards st) (total_cards st) (by_type st)
           (duplicates_avoided st) (topics_processed st)
           (S (llm_calls st)) (S (llm_requests st)))
    | None =>
        (None,
         mkState (generated_cards st) (total_cards st) (by_type st)
           (duplicates_avoided st) (topics_processed st)
           (llm_calls st) (S (llm_requests st)))
    end.

Definition _is_unique_card (card : Flashcard) : Gen bool :=
  fun st =>
    if decide (source_hash card ∈ generated_cards st)
    then (false,
          mkState (generated_cards st) (total_cards st) (by_type st)
            (S (duplicates_avoided st)) (topics_processed st) (llm_calls st)
            (llm_requests st))
    else (true, st).

Definition _register_card (card : Flashcard) : Gen unit :=
  fun st =>
    (tt, mkState ({[source_hash card]} ∪ generated_cards st)
           (S (total_cards st)) (by_type st) (duplicates_avoided st)
           (topics_processed st) (llm_calls st) (llm_requests st)).

(** The statement repeated in [generate_cards] for every candidate:
    [if self._is_unique_card(card): cards.append(card);
     self._register_card(card)]; the result tells whether the card was
    appended. *)
Definition submit (card : Flashcard) : Gen bool :=
  (let* unique := _is_unique_card card in
   if unique then let* u := _register_card card in ret true
   else ret false)%fmt.

(** [for card in candidates: ...] with the statement above; yields the
    cards appended. *)
Definition submit_all (candidates : list Flashcard) : Gen (list Flashcard) :=
  for_each (fun card => (let* ok := submit card in
                         ret (if ok then [card] else []))%fmt) candidates.

Definition context_info (parent_context : option string) : string :=
  match truthy parent_context with
  | Some p => " (part of " +:+ p +:+ ")"
  | None => ""
  end.

(** [s[:n] + "..." if len(s) > n else s] *)
Definition shorten (n : nat) (s : string) : string :=
  if (n <? String.length s)%nat then PyStr.take n s +:+ "..." else s.

Definition examples_text (topic : Topic) : string :=
  match examples topic with
  | [] => ""
  | _ :: _ =>
      "Examples: " +:+ PyStr.join ", " (firstn 3 (examples topic)) +:+ PyStr.nl
  end.

Definition concepts_text (topic : Topic) : string :=
  match key_concepts topic with
  | [] => ""
  | _ :: _ =>
      "Key concepts: " +:+ PyStr.join ", " (firstn 5 (key_concepts topic))
      +:+ PyStr.nl
  end.

Definition _generate_concept_card (env : Env) (topic : Topic)
    (parent_context : option string) : Gen (option Flashcard) :=
  if negb (concept (card_types env)) then ret None
  else
    match get_config env "concept" with
    | None => ret None
    | Some prompt_config =>
        match format_prompt env "concept"
                [ ("context_info", context_info parent_context);
                  ("topic_name", name topic);
                  ("content", shorten 500 (content topic)) ] with
        | None => ret None
        | Some formatted_prompt =>
            (let* r := call_llm env formatted_prompt
                         (default (VFloat (3 # 10))
                                  (temperature prompt_config)) in
             match r with
             | None => ret None
             | Some response =>
                 match as_str (default (VStr "::")
                                       (separator prompt_config)) with
                 | None => ret None
                 | Some sep =>
                     if PyStr.contains sep response
                     then
                       match PyStr.split_once sep response with
                       | None => ret None
                       | Some (f, b) =>
                           let* u := count_type "concept" in
                           ret (Some (new_flashcard (md5_hexdigest env)
                                        CONCEPT (PyStr.strip f)
                                        (PyStr.strip b) parent_context
                                        [name topic] (topic_difficulty topic)
                                        FORWARD [] 0 false))
                       end
                     else ret None
                 end
             end)%fmt
        end
    end.

(** The loop of [_generate_basic_cards] over [lines[:max_cards]]; a
    [ValueError] of [split] ends it with the cards built so far. *)
Fixpoint basic_loop (env : Env) (topic : Topic) (parent_context : option string)
    (sep : string) (lines : list string) (cards : list Flashcard)
    : Gen (list Flashcard) :=
  match lines with
  | [] => ret cards
  | line :: lines' =>
      if PyStr.contains sep line
      then
        match PyStr.split_once sep line with
        | None => ret cards
        | Some (f, b) =>
            (let* u := count_type "basic" in
             basic_loop env topic parent_context sep lines'
               (cards ++ [new_flashcard (md5_hexdigest env) BASIC
                            (PyStr.strip f) (PyStr.strip b) parent_context
                            [name topic] (topic_difficulty topic) FORWARD []
                            0 false]))%fmt
        end
      else basic_loop env topic parent_context sep lines' cards
  end.

Definition _generate_basic_cards (env : Env) (topic : Topic)
    (parent_context : option string) : Gen (list Flashcard) :=
  if negb (basic (card_types env)) then ret []
  else
    match get_config env "basic" with
    | None => ret []
    | Some prompt_config =>
        match format_prompt env "basic"
                [ ("context_info", context_info parent_context);
                  ("topic_name", name topic);
                  ("content", content topic);
                  ("examples_text", examples_text topic);
                  ("concepts_text", concepts_text topic) ] with
        | None => ret []
        | Some formatted_prompt =>
            (let* r := call_llm env formatted_prompt
                         (default (VFloat (4 # 10))
                                  (temperature prompt_config)) in
             match r with
             | None => ret []
             | Some response =>
                 match as_str (default (VStr ">>")
                                       (separator prompt_config)) with
                 | None => ret []
                 | Some sep =>
                     let lines :=
                       map PyStr.strip
                         (filter (fun line => PyStr.contains sep line)
                                 (PyStr.split_lines response)) in
                     let max_cards :=
                       default (VInt 3) (max_cards prompt_config) in
                     match slice_to_value max_cards lines with
                     | None => ret []
                     | Some first_lines =>
                         basic_loop env topic parent_context sep
                           first_lines []
                     end
                 end
             end)%fmt
        end
    end.

Definition _generate_cloze_cards (env : Env) (topic : Topic)
    (parent_context : option string) : Gen (list Flashcard) :=
  if negb (cloze (card_types env)) then ret []
  else
    match get_config env "cloze" with
    | None => ret []
    | Some prompt_config =>
        match format_prompt env "cloze"
                [ ("context_info", context_info parent_context);
                  ("topic_name", name topic);
                  ("content", shorten 300 (content topic));
                  ("examples_text", examples_text topic);
                  ("concepts_text", concepts_text topic) ] with
        | None => ret []
        | Some formatted_prompt =>
            (let* r := call_llm env formatted_prompt
                         (default (VFloat (3 # 10))
                                  (temperature prompt_config)) in
             match r with
             | None => ret []
             | Some response =>
                 let lines :=
                   map PyStr.strip
                     (filter (fun line => PyStr.contains "{{" line
                                          && PyStr.contains "}}" line)
                             (PyStr.split_lines response)) in
                 let max_cards :=
                   default (VInt 2) (max_cards prompt_config) in
                 match slice_to_value max_cards lines with
                 | None => ret []
                 | Some first_lines =>
                     for_each
                       (fun line =>
                          let* u := count_type "cloze" in
                          ret [new_flashcard (md5_hexdigest env) CLOZE line ""
                                 parent_context [name topic]
                                 (topic_difficulty topic) FORWARD [] 0 false])
                       first_lines
                 end
             end)%fmt
        end
    end.

Definition _generate_descriptor_cards (env : Env) (topic : Topic)
    (parent_context : option string) : Gen (list Flashcard) :=
  if negb (descriptor (card_types env)) then ret []
  else
    match get_config env "descriptor" with
    | None => ret []
    | Some prompt_config =>
        let max_descriptors := default (VInt 3) (max_cards prompt_config) in
        match slice_to_value max_descriptors (key_concepts topic) with
        | None => ret []
        | Some concepts =>
            for_each
              (fun concept =>
                 (let* u := count_type "descriptor" in
                  ret [new_flashcard (md5_hexdigest env) DESCRIPTOR concept
                         ("Key concept of " +:+ name topic)
                         (Some (name topic)) [name topic; "key_concept"]
                         (topic_difficulty topic) BIDIRECTIONAL [] 0 false])%fmt)
              concepts
        end
    end.

Definition _generate_multiline_cards (env : Env) (topic : Topic)
    (parent_context : option string) : Gen (list Flashcard) :=
  if (200 <? String.length (content topic))%nat
  then
    (let* u := count_type "multiline_concept" in
     ret [new_flashcard (md5_hexdigest env) MULTILINE_CONCEPT (name topic)
            (content topic) parent_context [name topic; "multiline"]
            "intermediate" FORWARD [] 0 true])%fmt
  else ret [].

Definition _generate_list_answer_cards (env : Env) (topic : Topic)
    (parent_context : option string) : Gen (list Flashcard) :=
  if (1 <? List.length (key_concepts topic))%nat
  then
    (let* u := count_type "list_answer" in
     ret [new_flashcard (md5_hexdigest env) LIST_ANSWER
            ("What are the key concepts of " +:+ name topic +:+ "?") ""
            parent_context [name topic; "list"] "intermediate" FORWARD
            (key_concepts topic) 0 false])%fmt
  else ret [].

Definition _generate_multiple_choice_cards (env : Env) (topic : Topic)
    (parent_context : option string) : Gen (list Flashcard) :=
  if (3 <=? List.length (examples topic))%nat
  then
    (let* u := count_type "multiple_choice" in
     ret [new_flashcard (md5_hexdigest env) MULTIPLE_CHOICE
            ("Which is an example of " +:+ name topic +:+ "?") ""
            parent_context [name topic; "multiple_choice"] "intermediate"
            FORWARD (firstn 4 (examples topic)) 0 false])%fmt
  else ret [].

(** [if flag: for card in generate(...): <submit>] *)
Definition when (flag : bool) (m : Gen (list Flashcard)) : Gen (list Flashcard) :=
  if flag then (let* candidates := m in submit_all candidates)%fmt else ret [].

Definition topic_processed : Gen unit :=
  fun st =>
    (tt, mkState (generated_cards st) (total_cards st) (by_type st)
           (duplicates_avoided st) (S (topics_processed st)) (llm_calls st)
           (llm_requests st)).

(** The cards of the topic itself, before the subtopics. *)
Definition own_cards (env : Env) (topic : Topic)
    (parent_context : option string) : Gen (list Flashcard) :=
  (let* concept_card := _generate_concept_card env topic parent_context in
   let* c1 := submit_all (match concept_card with
                          | Some card => [card]
                          | None => []
                          end) in
   let* c2 := when true (_generate_basic_cards env topic parent_context) in
   let* c3 := when (match key_concepts topic, examples topic with
                    | [], [] => false
                    | _, _ => true
                    end)
                   (_generate_cloze_cards env topic parent_context) in
   let* c4 := when (descriptor (card_types env))
                   (_generate_descriptor_cards env topic parent_context) in
   let* c5 := when (multiline (card_types env))
                   (_generate_multiline_cards env topic parent_context) in
   let* c6 := when (list_answer (card_types env))
                   (_generate_list_answer_cards env topic parent_context) in
   let* c7 := when (multiple_choice (card_types env))
                   (_generate_multiple_choice_cards env topic parent_context) in
   ret (c1 ++ c2 ++ c3 ++ c4 ++ c5 ++ c6 ++ c7))%fmt.

(** [generate_cards].  Every exception of the helpers is caught inside
    them, so the [except] clause of [generate_cards] is never entered and
    the method returns its list. *)
Fixpoint generate_cards (env : Env) (topic : Topic)
    (parent_context : option string) : Gen (list Flashcard) :=
  (let* cards := own_cards env topic parent_context in
   let* subtopic_cards :=
     for_each (fun subtopic =>
                 generate_cards env subtopic (Some (name topic)))
              (subtopics topic) in
   let* u := topic_processed in
   ret (cards ++ subtopic_cards))%fmt.



(** [m] raises both the counter and the number of fingerprints by
    [w result - n]. *)
Definition adds_from {A} (n : nat) (w : A -> nat) (m : Gen A) : Prop :=
  forall st,
    total_cards (snd (m st)) + n = total_cards st + w (fst (m st))
    /\ size (generated_cards (snd (m st))) + n
       = size (generated_cards st) + w (fst (m st)).

End CardGenerator.

(** ** A concrete generator, for running the model

    The digest is replaced by a stand-in (the hashed text itself), the
    external capability always answers with one concept line, and every
    prompt file has an empty [config]. *)
Definition sample_env : CardGenerator.Env :=
  CardGenerator.mkEnv
    (fun content => content)
    (fun _ _ _ => Some "Lambda Architecture :: Data processing pattern")
    (fun _ => Some (CardGenerator.mkPromptConfig None None None))
    (fun _ _ => Some "prompt")
    (CardGenerator.mkCardTypes true true true true true true true).

Definition sample_topic : CardGenerator.Topic :=
  CardGenerator.mkTopic "Lambda Architecture"
    "Combines a batch layer and a speed layer."
    [CardGenerator.mkTopic "Batch Layer" "Recomputes views from all data."
       [] [] [] "intermediate"]
    ["Twitter"; "Netflix"; "LinkedIn"] ["batch"; "speed"] "intermediate".

(** The same generator with [max_cards: null] in every prompt file, and a
    topic with five key concepts. *)
Definition null_env : CardGenerator.Env :=
  CardGenerator.mkEnv
    (fun content => content)
    (fun _ _ _ => Some "Lambda Architecture :: Data processing pattern")
    (fun _ => Some (CardGenerator.mkPromptConfig None None
                      (Some CardGenerator.VNone)))
    (fun _ _ => Some "prompt")
    (CardGenerator.mkCardTypes true true true true true true true).

Definition wide_topic : CardGenerator.Topic :=
  CardGenerator.mkTopic "Lambda Architecture"
    "Combines a batch layer and a speed layer."
    [] [] ["batch"; "speed"; "serving"; "views"; "queries"] "intermediate".

(** Two cards with the same five hashed fields and different parents. *)
Definition twin_a : Flashcard :=
  mkFlashcard CONCEPT "Lambda Architecture" "Data pattern" None
    ["a"] "intermediate" "" BIDIRECTIONAL [] 0 None false false.

Definition twin_b : Flashcard :=
  mkFlashcard CONCEPT "Lambda Architecture" "Data pattern" (Some "Patterns")
    ["b"] "advanced" "" BIDIRECTIONAL [] 0 None false false.

(** ** The retry wrapper ([llm_client.py]) *)

Module LLMClient.

(** The exception classes: [RateLimitError] and [TokenLimitError] derive
    from [LLMError]; [OtherError] is any other [Exception]. *)
Inductive Exn :=
| LLMError (msg : string)
| RateLimitError (msg : string)
| TokenLimitError (msg : string)
| OtherError (msg : string).

(** [isinstance(e, LLMError)] *)
Definition is_LLMError (e : Exn) : bool :=
  match e with
  | OtherError _ => false
  | _ => true
  end.

(** [isinstance(e, RateLimitError)] *)
Definition is_RateLimitError (e : Exn) : bool :=
  match e with
  | RateLimitError _ => true
  | _ => false
  end.

(** [str(e)] *)
Definition message (e : Exn) : string :=
  match e with
  | LLMError m | RateLimitError m | TokenLimitError m | OtherError m => m
  end.

Section Retry.

(** Results of the wrapped function, and the values that [retry_delay]
    and the delays can take.  [fmul x k] is the product [x * k] with an
    integer, which raises [OverflowError] when [x] is a float and [k] lies
    beyond the floats; [sleep d] is [time.sleep(d)], which returns or
    raises: [ValueError] for a negative delay or a NaN, [OverflowError] for
    a delay too large. *)
Variable A : Type.
Variable float : Type.
Variable fmul : float -> Z -> float + Exn.
Variable sleep : float -> option Exn.

(** The two fields of [LLMConfig] the wrapper reads. *)
Variable retry_attempts : Z.
Variable retry_delay : float.

(** [func k] is what the [k]-th invocation of the wrapped function does
    (counted from 0): return a value or raise. *)
Variable func : nat -> A + Exn.

(** What a call of the wrapper did: how often it invoked the function
    and the delays it slept, in order. *)
Record Trace := mkTrace {
  invocations : nat;
  sleeps : list float
}.

Definition invoked (tr : Trace) : Trace :=
  mkTrace (S (invocations tr)) (sleeps tr).

Definition slept (delay : float) (tr : Trace) : Trace :=
  mkTrace (invocations tr) (sleeps tr ++ [delay]).

(** [self.config.retry_delay * (2 ** attempt)] *)
Definition backoff (attempt : nat) : float + Exn :=
  fmul retry_delay (2 ^ Z.of_nat attempt).

(** The iterations [attempt, attempt + 1, ...] of the [for] loop that
    are still to run ([remaining] of them) and the [raise] after the
    loop.  The delay is computed and slept inside the [except] clause, so
    an exception of the product or of [time.sleep] is caught by no clause
    of the [try] and leaves the wrapper. *)
Fixpoint attempts (attempt remaining : nat) (last_exception : option Exn)
    (tr : Trace) : (A + Exn) * Trace :=
  match remaining with
  | O =>
      (inr (LLMError ("All retry attempts failed: "
                      +:+ match last_exception with
                          | Some e => message e
                          | None => "None"
                          end)), tr)
  | S remaining' =>
      match func (invocations tr) with
      | inl result => (inl result, invoked tr)
      | inr e =>
          let tr := invoked tr in
          if (Z.of_nat attempt <? retry_attempts - 1)%Z
          then
            match backoff attempt with
            | inr raised => (inr raised, tr)
            | inl delay =>
                match sleep delay with
                | Some raised => (inr raised, tr)
                | None =>
                    attempts (S attempt) remaining' (Some e) (slept delay tr)
                end
            end
          else if is_RateLimitError e
               then (inr e, tr)
               else (inr (LLMError ("All retry attempts failed: "
                                    +:+ message e)), tr)
      end
  end.

(** [_retry_with_backoff(func)]; [range(n)] is empty for [n <= 0]. *)
Definition _retry_with_backoff : (A + Exn) * Trace :=
  attempts 0 (Z.to_nat retry_attempts) None (mkTrace 0 []).

(** The state at the head of the loop: [attempt] invocations and as
    many sleeps lie behind, [remaining] iterations lie ahead. *)
Definition at_loop_head (attempt remaining : nat) (tr : Trace) : Prop :=
  Z.of_nat (attempt + remaining) = Z.max 0 retry_attempts
  /\ (remaining = 0 -> attempt = 0)
  /\ invocations tr = attempt
  /\ map inl (sleeps tr) = map backoff (seq 0 attempt).

(** The first [n] delays can be computed and slept. *)
Definition delays_ok (n : nat) : Prop :=
  forall k, k < n -> exists delay, backoff k = inl delay /\ sleep delay = None.

(** Computing or sleeping the delay after the failed attempt [k] raises
    [e]. *)
Definition backoff_raises (k : nat) (e : Exn) : Prop :=
  backoff k = inr e
  \/ exists delay, backoff k = inl delay /\ sleep delay = Some e.

End Retry.

Arguments invocations {float} _.
Arguments sleeps {float} _.

End LLMClient.

(** Rationals in the place of Python floats, for running the wrapper: the
    product is exact, and [time.sleep] refuses a negative delay with a
    [ValueError]. *)
Definition q_mul (d : Q) (k : Z) : Q + LLMClient.Exn :=
  inl (d * inject_Z k)%Q.

Definition q_sleep (d : Q) : option LLMClient.Exn :=
  if Qle_bool 0 d then None
  else Some (LLMClient.OtherError "sleep length must be non-negative").

(** A line written at the top level or one level below it. *)
Definition top_or_child (line : string) : Prop :=
  PyStr.startswith "# " line = true \/ PyStr.startswith "    # " line = true.

(** ** Further predicates on texts *)

Definition is_brace (c : ascii) : bool :=
  Ascii.eqb c "{" || Ascii.eqb c "}".

(** [spaced_in s t]: [t] is [s] with single blanks inserted, each between
    two characters that are not braces. *)
Inductive spaced_in : string -> string -> Prop :=
| spaced_in_nil : spaced_in "" ""
| spaced_in_keep c s t : spaced_in s t -> spaced_in (String c s) (String c t)
| spaced_in_ins c d s t :
    is_brace c = false -> is_brace d = false ->
    spaced_in (String d s) (String d t) ->
    spaced_in (String c (String d s)) (String c (String " " (String d t))).

(** Runs in which two occurrences of a token or of a brace pair overlap. *)
Definition overlapping_brace_runs : list string :=
  overlapping_runs ++ ["{{{"].

(** The delimiters of the serializer that the escaper breaks up in card
    text. *)
Definition token_delimiter (ty : CardType) (d : CardDirection) : option string :=
  match ty, d with
  | CONCEPT, BIDIRECTIONAL => Some "::"
  | BASIC, FORWARD => Some ">>"
  | BASIC, BACKWARD => Some "<<"
  | BASIC, BIDIRECTIONAL => Some "<>"
  | DESCRIPTOR, BIDIRECTIONAL => Some ";;"
  | _, _ => None
  end.

(** [self.stats] with [special_chars_escaped] raised by one. *)
Definition count_escaped (st : FormattingStats) : FormattingStats :=
  mkStats (total_cards st) (cards_by_type st) (cards_by_direction st)
    (hierarchical_levels st) (S (special_chars_escaped st)).

(** ** Entries of the flat document and the validator of the formatter *)

(** The entry [_format_flat] writes for a card. *)
Definition flat_entry (c : Flashcard) : string :=
  match tags c with
  | [] => "# " +:+ fstr (run (_format_card c))
  | _ :: _ =>
      "# " +:+ (fstr (run (_format_card c)) +:+ " "
                +:+ PyStr.join " " (map (fun tag => "#" +:+ tag) (tags c)))
  end.

(** The line [_format_hierarchical] writes for a card without parent. *)
Definition top_line_of (c : Flashcard) : string :=
  "# " +:+ fstr (run (_format_card c)).

(** [s.count(sub)] for a non-empty [sub]: occurrences that do not overlap,
    from the left; [skip] counts the characters of a match still to pass. *)
Fixpoint count_from (sub : string) (skip : nat) (s : string) : nat :=
  match s with
  | EmptyString => 0
  | String c s' =>
      match skip with
      | S k => count_from sub k s'
      | O =>
          if PyStr.startswith sub s
          then S (count_from sub (String.length sub - 1) s')
          else count_from sub 0 s'
      end
  end.

(** After an opening brace pair: the number of characters up to the end of
    the closing pair of a well-formed span, if there is one here. *)
Fixpoint cloze_end (seen : bool) (s : string) : option nat :=
  match s with
  | EmptyString => None
  | String c s' =>
      if Ascii.eqb c "}"
      then if seen && PyStr.startswith "}" s' then Some 2 else None
      else option_map S (cloze_end true s')
  end.

(** [len(re.findall(r'\{\{[^}]+\}\}', s))] *)
Fixpoint count_cloze (skip : nat) (s : string) : nat :=
  match s with
  | EmptyString => 0
  | String c s' =>
      match skip with
      | S k => count_cloze k s'
      | O =>
          if PyStr.startswith "{{" s
          then
            match cloze_end false (PyStr.drop 2 s) with
            | Some n => S (count_cloze (S n) s')
            | None => count_cloze 0 s'
            end
          else count_cloze 0 s'
      end
  end.

Definition _validate_cloze_syntax (text : string) : bool :=
  let cloze_matches := count_cloze 0 text in
  let open_brackets := count_from "{{" 0 text in
  let close_brackets := count_from "}}" 0 text in
  Nat.eqb open_brackets close_brackets && Nat.eqb cloze_matches open_brackets.

(** [re.search(r'^#\s+', s, re.MULTILINE)]: a hash sign at the start of the
    text or after a line feed, followed by a white-space character. *)
Fixpoint header_from (line_start : bool) (s : string) : bool :=
  match s with
  | EmptyString => false
  | String c s' =>
      (line_start && Ascii.eqb c "#"
       && match s' with
          | String d _ => PyStr.isspace d
          | EmptyString => false
          end)
      || header_from (Ascii.eqb c (ascii_of_nat 10)) s'
  end.

(** [re.search(r'(?<!\\)::', s)]: two colons not preceded by a backslash. *)
Fixpoint unescaped_colons_from (after_backslash : bool) (s : string) : bool :=
  (negb after_backslash && PyStr.startswith "::" s)
  || match s with
     | EmptyString => false
     | String c s' => unescaped_colons_from (Ascii.eqb c "\") s'
     end.

(** The dictionary [validate_remnote_format] returns. *)
Record ValidationResults := mkValidation {
  has_headers : bool;
  proper_concept_syntax : bool;
  proper_basic_syntax : bool;
  proper_descriptor_syntax : bool;
  no_unescaped_syntax : bool;
  valid_cloze_syntax : bool
}.

Definition validate_remnote_format (formatted_text : string) : ValidationResults :=
  mkValidation
    (header_from true formatted_text)
    (PyStr.contains "::" formatted_text)
    (PyStr.contains ">>" formatted_text)
    (PyStr.contains ";;" formatted_text)
    (negb (unescaped_colons_from false formatted_text))
    (_validate_cloze_syntax formatted_text).

(** ** Predicates on generator computations *)

(** Every state change of [m] is a step of the relation [R]. *)
Definition steps {A} (R : CardGenerator.State -> CardGenerator.State -> Prop)
    (m : CardGenerator.Gen A) : Prop :=
  forall st, R st (snd (m st)).

(** [m] raises the counter [f] by at most [n] and never lowers it. *)
Definition within {A} (f : CardGenerator.State -> nat) (n : nat)
    (m : CardGenerator.Gen A) : Prop :=
  forall st, f st <= f (snd (m st)) <= f st + n.

(** Every card that [m] returns satisfies [P]. *)
Definition yields (P : Flashcard -> Prop)
    (m : CardGenerator.Gen (list Flashcard)) : Prop :=
  forall st, Forall P (fst (m st)).

(** [m] returns at most [n] cards. *)
Definition at_most (n : nat) (m : CardGenerator.Gen (list Flashcard)) : Prop :=
  forall st, List.length (fst (m st)) <= n.

(** Since the state [st0], exactly the cards [cards] were accepted: their
    fingerprints are pairwise different, were not known in [st0], and with
    those of [st0] they are the fingerprints known in [st]. *)
Definition accepted_since (st0 : CardGenerator.State) (cards : list Flashcard)
    (st : CardGenerator.State) : Prop :=
  CardGenerator.generated_cards st
  = list_to_set (map source_hash cards) ∪ CardGenerator.generated_cards st0
  /\ List.NoDup (map source_hash cards)
  /\ forall c, In c cards ->
               source_hash c ∉ CardGenerator.generated_cards st0.

(** [m] extends the accepted cards [pre] to the cards it returns. *)
Definition accepts_from (pre : list Flashcard)
    (m : CardGenerator.Gen (list Flashcard)) : Prop :=
  forall st0 st,
    accepted_since st0 pre st ->
    accepted_since st0 (fst (m st)) (snd (m st)).

(** [count_topics_recursive(topic.subtopics)] of [yaml_parser.py]: the
    number of topics below [topic]. *)
Fixpoint count_below (topic : CardGenerator.Topic) : nat :=
  match topic with
  | CardGenerator.mkTopic _ _ subs _ _ _ =>
      List.length subs + list_sum (map count_below subs)
  end.

(** [count_topics_recursive(topics)] *)
Definition count_topics_recursive (topics : list CardGenerator.Topic) : nat :=
  List.length topics + list_sum (map count_below topics).

(** The configured maximum of a card kind, [dflt] when the prompt file has
    none; no cards of the kind are built when the prompt file is missing
    or its [max_cards] is no index of a slice.  For [null], which sets no
    maximum, the number is immaterial: [max_cards_bounded] excludes it. *)
Definition max_of (env : CardGenerator.Env) (kind : string) (dflt : Z) : nat :=
  match CardGenerator.get_config env kind with
  | Some pc =>
      match default (CardGenerator.VInt dflt) (CardGenerator.max_cards pc) with
      | CardGenerator.VInt n => Z.to_nat n
      | CardGenerator.VBool b => if b then 1 else 0
      | _ => 0
      end
  | None => 0
  end.

(** No prompt file sets [max_cards] to [null], which keeps every line, or
    to a negative number, which drops lines from the end only. *)
Definition max_cards_bounded (env : CardGenerator.Env) : Prop :=
  forall kind pc,
    CardGenerator.get_config env kind = Some pc ->
    match CardGenerator.max_cards pc with
    | Some CardGenerator.VNone => False
    | Some (CardGenerator.VInt n) => (0 <= n)%Z
    | _ => True
    end.

(** What the generators guarantee about a card of each kind. *)
Definition well_shaped (c : Flashcard) : Prop :=
  match card_type c with
  | CONCEPT | BASIC => direction c = FORWARD /\ list_items c = []
  | CLOZE =>
      PyStr.contains "{{" (front c) = true
      /\ PyStr.contains "}}" (front c) = true
      /\ back c = "" /\ direction c = FORWARD
  | DESCRIPTOR => direction c = BIDIRECTIONAL /\ parent c <> None
  | MULTILINE_CONCEPT =>
      is_multiline c = true /\ 200 < String.length (back c)
  | LIST_ANSWER => 2 <= List.length (list_items c) /\ back c = ""
  | MULTIPLE_CHOICE =>
      3 <= List.length (list_items c) <= 4
      /\ correct_choice_index c = 0%Z /\ back c = ""
  | MULTILINE_BASIC | MULTILINE_DESCRIPTOR => False
  end.

(** The kinds of card that are derived from the topic without a call of
    the external capability. *)
Definition derived_kind (c : Flashcard) : Prop :=
  card_type c = DESCRIPTOR \/ card_type c = MULTILINE_CONCEPT
  \/ card_type c = LIST_ANSWER \/ card_type c = MULTIPLE_CHOICE.

(** The field [f] of the generator state is the same before and after. *)
Definition same {X} (f : CardGenerator.State -> X)
    : CardGenerator.State -> CardGenerator.State -> Prop :=
  fun st st' => f st' = f st.

(** The generation loop of [main] ([main.py]): every topic, then each of
    its subtopics again with the topic's name as context; the cards are
    collected in one list. *)
Definition generate_all (env : CardGenerator.Env)
    (topics : list CardGenerator.Topic)
    : CardGenerator.Gen (list Flashcard) :=
  for_each
    (fun topic =>
       (let* topic_cards := CardGenerator.generate_cards env topic None in
        let* subtopic_cards :=
          for_each (fun subtopic =>
                      CardGenerator.generate_cards env subtopic
                        (Some (CardGenerator.name topic)))
                   (CardGenerator.subtopics topic) in
        ret (topic_cards ++ subtopic_cards))%fmt)
    topics.

(** [main] from the generation loop to the formatted document: a fresh
    generator, a fresh formatter, [format_cards] on all cards. *)
Definition generate_and_format (env : CardGenerator.Env)
    (topics : list CardGenerator.Topic) (include_hierarchy : bool)
    : (list Flashcard * CardGenerator.State) * (string * FormattingStats) :=
  let generated := generate_all env topics CardGenerator.initial_state in
  (generated, format_cards (fst generated) include_hierarchy fresh_stats).

(** One of the two counters of calls of the external capability. *)
Definition llm_field (f : CardGenerator.State -> nat) : Prop :=
  f = CardGenerator.llm_calls \/ f = CardGenerator.llm_requests.

(** [sum(self.generation_stats["by_type"].values())]: the cards the
    generators have built. *)
Definition cards_built (st : CardGenerator.State) : nat :=
  map_fold (fun _ n acc => n + acc) 0 (CardGenerator.by_type st).

(** Every card built between [st] and [st'] was accepted or counted as a
    duplicate. *)
Definition settled (st st' : CardGenerator.State) : Prop :=
  cards_built st' + CardGenerator.total_cards st
  + CardGenerator.duplicates_avoided st
  = cards_built st + CardGenerator.total_cards st'
    + CardGenerator.duplicates_avoided st'.

(** [m] counts in [by_type] every card it returns beyond the first [n]. *)
Definition builds_from (n : nat) (m : CardGenerator.Gen (list Flashcard))
    : Prop :=
  forall st, cards_built (snd (m st)) + n
             = cards_built st + List.length (fst (m st)).

(** The most cards one topic contributes: one concept, multi-line, list and
    choice card each, and the configured numbers of the other kinds. *)
Definition per_topic_bound (env : CardGenerator.Env) : nat :=
  4 + max_of env "basic" 3 + max_of env "cloze" 2 + max_of env "descriptor" 3.

(** Every call of the external capability raises. *)
Definition offline (env : CardGenerator.Env) : Prop :=
  forall n prompt temp, CardGenerator.llm_generate env n prompt temp = None.

Definition offline_env : CardGenerator.Env :=
  CardGenerator.mkEnv
    (fun content => content)
    (fun _ _ _ => None)
    (fun _ => Some (CardGenerator.mkPromptConfig None None None))
    (fun _ _ => Some "prompt")
    (CardGenerator.mkCardTypes true true true true true true true).

(** No character of [s] is white space. *)
Fixpoint no_blank (s : string) : bool :=
  match s with
  | EmptyString => true
  | String c s' => negb (PyStr.isspace c) && no_blank s'
  end.

(** ** Specifications of generator computations *)

(** From a state that satisfies [P], [m] returns a result and a state that
    satisfy [Q]. *)
Definition triple {A} (P : CardGenerator.State -> Prop)
    (m : CardGenerator.Gen A) (Q : A -> CardGenerator.State -> Prop) : Prop :=
  forall st, P st -> Q (fst (m st)) (snd (m st)).

(** The generator has seen every fingerprint of [hs]. *)
Definition known (hs : list string) (st : CardGenerator.State) : Prop :=
  forall h, In h hs -> h ∈ CardGenerator.generated_cards st.

(** No fingerprint is forgotten between [st] and [st']. *)
Definition grows (st st' : CardGenerator.State) : Prop :=
  CardGenerator.generated_cards st ⊆ CardGenerator.generated_cards st'.

(** Whatever was known before, afterwards the fingerprints [hs] are known
    too. *)
Definition learns {A} (hs : list string) (m : CardGenerator.Gen A) : Prop :=
  forall hs0, triple (known hs0) m (fun _ => known (hs0 ++ hs)).

(** The kinds of card that are parsed from an answer of the external
    capability. *)
Definition llm_kind (c : Flashcard) : Prop :=
  card_type c = CONCEPT \/ card_type c = BASIC \/ card_type c = CLOZE.

(** The cards that [generate_cards] derives from the topic itself and
    submits: those of the four generators that do not call the external
    capability, each behind its switch. *)
Definition derived_candidates (env : CardGenerator.Env)
    (topic : CardGenerator.Topic) (ctx : option string) : list Flashcard :=
  (if CardGenerator.descriptor (CardGenerator.card_types env)
   then fst (CardGenerator._generate_descriptor_cards env topic ctx
               CardGenerator.initial_state)
   else [])
  ++ (if CardGenerator.multiline (CardGenerator.card_types env)
      then fst (CardGenerator._generate_multiline_cards env topic ctx
                  CardGenerator.initial_state)
      else [])
  ++ (if CardGenerator.list_answer (CardGenerator.card_types env)
      then fst (CardGenerator._generate_list_answer_cards env topic ctx
                  CardGenerator.initial_state)
      else [])
  ++ (if CardGenerator.multiple_choice (CardGenerator.card_types env)
      then fst (CardGenerator._generate_multiple_choice_cards env topic ctx
                  CardGenerator.initial_state)
      else []).

(** Their fingerprints, over the whole tree of [topic]. *)
Fixpoint derived_hashes (env : CardGenerator.Env)
    (topic : CardGenerator.Topic) (ctx : option string) : list string :=
  match topic with
  | CardGenerator.mkTopic n c subs ex kc d =>
      map source_hash
        (derived_candidates env (CardGenerator.mkTopic n c subs ex kc d) ctx)
      ++ flat_map (fun sub => derived_hashes env sub (Some n)) subs
  end.

(** ** Outcomes of the retry wrapper *)

(** The first [n] invocations of [func] all raise. *)
Definition all_fail {A} (func : nat -> A + LLMClient.Exn) (n : nat) : Prop :=
  forall j, j < n -> exists e, func j = inr e.

(** The exception that leaves the wrapper after [n] failed invocations:
    the last [RateLimitError] itself, any other last exception wrapped
    into an [LLMError], and the [LLMError] after the loop when there was
    no invocation. *)
Definition raised_after {A} (func : nat -> A + LLMClient.Exn) (n : nat)
    (e : LLMClient.Exn) : Prop :=
  match n with
  | O => e = LLMClient.LLMError "All retry attempts failed: None"
  | S m =>
      exists e_last,
        func m = inr e_last
        /\ e = if LLMClient.is_RateLimitError e_last then e_last
               else LLMClient.LLMError ("All retry attempts failed: "
                                        +:+ LLMClient.message e_last)
  end.

(** ** The validators and statistics of the parser ([yaml_parser.py]) *)

Module YAMLParser.

(** [Topic.validate_name]; [None] stands for the [ValueError]. *)
Definition validate_name (v : string) : option string :=
  match PyStr.strip v with
  | EmptyString => None
  | String _ _ => Some (PyStr.strip v)
  end.

(** [Topic.validate_content] *)
Definition validate_content (v : string) : option string :=
  if (String.length (PyStr.strip v) <? 10)%nat then None
  else Some (PyStr.strip v).

Definition difficulty_levels : list string :=
  ["beginner"; "intermediate"; "advanced"].

(** [Topic.validate_difficulty]: the empty string passes. *)
Definition validate_difficulty (v : string) : option string :=
  if negb (String.eqb v "") && negb (existsb (String.eqb v) difficulty_levels)
  then None
  else Some v.

(** The body of the loop of [count_difficulty] for one topic, on the
    dictionary [distribution]; [None] stands for the [KeyError] of a
    difficulty that is no key of the dictionary. *)
Fixpoint count_difficulty (topic : CardGenerator.Topic)
    (distribution : option (gmap string nat)) : option (gmap string nat) :=
  match topic with
  | CardGenerator.mkTopic _ _ subs _ _ d =>
      match distribution with
      | None => None
      | Some dist =>
          let difficulty := match d with
                            | EmptyString => "intermediate"
                            | String _ _ => d
                            end in
          match dist !! difficulty with
          | None => None
          | Some n =>
              fold_left (fun acc sub => count_difficulty sub acc) subs
                (Some (<[difficulty := S n]> dist))
          end
      end
  end.

(** [YAMLParser._get_difficulty_distribution] *)
Definition _get_difficulty_distribution (topics : list CardGenerator.Topic)
    : option (gmap string nat) :=
  fold_left (fun acc topic => count_difficulty topic acc) topics
    (Some (list_to_map [("beginner", 0); ("intermediate", 0);
                        ("advanced", 0)])).

(** Every difficulty of the tree has passed [validate_difficulty]. *)
Fixpoint difficulties_valid (topic : CardGenerator.Topic) : bool :=
  match topic with
  | CardGenerator.mkTopic _ _ subs _ _ d =>
      match validate_difficulty d with
      | Some _ => forallb difficulties_valid subs
      | None => false
      end
  end.

(** The sum of the three counts of a distribution. *)
Definition distribution_total (dist : gmap string nat) : nat :=
  default 0 (dist !! "beginner") + default 0 (dist !! "intermediate")
  + default 0 (dist !! "advanced").

Definition has_levels (dist : gmap string nat) : Prop :=
  is_Some (dist !! "beginner") /\ is_Some (dist !! "intermediate")
  /\ is_Some (dist !! "advanced").

End YAMLParser.

(** A card that [_format_card] writes with the delimiter [::] after a
    blank: a bidirectional concept card or a multi-line concept card that
    is not disabled. *)
Definition concept_delimited (c : Flashcard) : Prop :=
  direction c <> DISABLED
  /\ ((card_type c = CONCEPT /\ direction c = BIDIRECTIONAL)
      \/ card_type c = MULTILINE_CONCEPT).

(** ** Generated cards in the formatter *)

(** What the generators fix of a card that the formatter reads besides
    the texts: the direction, the absence of the triple delimiter, and the
    number of list items. *)
Definition as_generated (c : Flashcard) : Prop :=
  use_triple_delimiter c = false
  /\ direction c = match card_type c with
                   | DESCRIPTOR => BIDIRECTIONAL
                   | _ => FORWARD
                   end
  /\ match card_type c with
     | LIST_ANSWER => 2 <= List.length (list_items c)
     | MULTIPLE_CHOICE => 3 <= List.length (list_items c)
     | MULTILINE_BASIC | MULTILINE_DESCRIPTOR => False
     | _ => True
     end.

(** The text written for a generated card, by its kind. *)
Definition generated_line (c : Flashcard) : string :=
  match card_type c with
  | CONCEPT => escape_text (front c) +:+ " :> " +:+ escape_text (back c)
  | CLOZE => front c
  | DESCRIPTOR => escape_text (front c) +:+ " ;; " +:+ escape_text (back c)
  | MULTILINE_CONCEPT =>
      escape_text (front c) +:+ " ::" +:+ PyStr.nl +:+ "    "
      +:+ PyStr.replace "\n" (PyStr.nl +:+ "    ") (escape_text (back c))
  | LIST_ANSWER => escape_text (front c) +:+ " >>1."
  | MULTIPLE_CHOICE => escape_text (front c) +:+ " >>A)"
  | BASIC | MULTILINE_BASIC | MULTILINE_DESCRIPTOR =>
      escape_text (front c) +:+ " >> " +:+ escape_text (back c)
  end.

(** * Properties *)

(** ** The string primitives on examples *)

Example replace_triple : PyStr.replace "::" ": :" "a:::b::c" = "a: ::b: :c".
Proof. reflexivity. Qed.

Example has_cloze_ok : PyStr.has_cloze "X causes {{Y}}" = true.
Proof. reflexivity. Qed.

Example has_cloze_unbalanced : PyStr.has_cloze "X {{Y" = false.
Proof. reflexivity. Qed.

Example has_cloze_empty : PyStr.has_cloze "{{}}" = false.
Proof. reflexivity. Qed.

(** ** Facts about the string primitives *)

Section StringFacts.

Import PyStr.

Lemma app_cons a s t : String a s +:+ t = String a (s +:+ t).
Proof. reflexivity. Qed.

Lemma app_empty t : "" +:+ t = t.
Proof. reflexivity. Qed.

Lemma spaced_refl s : spaced s s.
Proof. induction s; constructor; assumption. Qed.

Lemma spaced_trans a b c : spaced a b -> spaced b c -> spaced a c.
Proof.
  intros Hab Hbc. revert a Hab.
  induction Hbc as [|x b c Hbc IH|b c Hbc IH]; intros a Hab.
  - assumption.
  - inversion Hab; subst.
    + constructor. now apply IH.
    + constructor. now apply IH.
  - constructor. now apply IH.
Qed.

Lemma spaced_app a b c d :
  spaced a b -> spaced c d -> spaced (a +:+ c) (b +:+ d).
Proof.
  induction 1; intros Hcd; rewrite ?app_cons, ?app_empty;
    try constructor; auto.
Qed.

Lemma startswith_spaced tok s t :
  no_space tok = true -> spaced s t ->
  startswith tok t = true -> startswith tok s = true.
Proof.
  intros Hns Hsp. revert tok Hns.
  induction Hsp as [|c s t Hsp IH|s t Hsp IH]; intros tok Hns Hst.
  - assumption.
  - destruct tok as [|a tok]; [reflexivity|].
    simpl in *. apply andb_prop in Hns as [_ Hns].
    apply andb_prop in Hst as [-> Hst]. simpl. now apply IH.
  - destruct tok as [|a tok]; [destruct s; reflexivity|].
    simpl in *. apply andb_prop in Hns as [Ha _].
    apply andb_prop in Hst as [Hb _]. rewrite Hb in Ha. discriminate.
Qed.

Lemma contains_cons tok c s :
  contains tok s = true -> contains tok (String c s) = true.
Proof. intros H. simpl. rewrite H. apply orb_true_r. Qed.

Lemma startswith_contains tok s :
  startswith tok s = true -> contains tok s = true.
Proof. intros H. destruct s; simpl in *; rewrite H; reflexivity. Qed.

Lemma contains_spaced tok s t :
  no_space tok = true -> spaced s t ->
  contains tok t = true -> contains tok s = true.
Proof.
  intros Hns Hsp. induction Hsp as [|c s t Hsp IH|s t Hsp IH]; intros Hc.
  - assumption.
  - simpl in Hc. apply orb_prop in Hc as [Hc|Hc].
    + apply startswith_contains.
      apply (startswith_spaced tok _ (String c t)); auto using spaced.
    + apply contains_cons. auto.
  - simpl in Hc. apply orb_prop in Hc as [Hc|Hc]; [|auto].
    apply startswith_contains.
    apply (startswith_spaced tok _ (String " " t)); auto using spaced.
Qed.

Lemma drop_empty n : drop n "" = "".
Proof. destruct n; reflexivity. Qed.

Lemma length_drop n s : String.length (drop n s) <= String.length s.
Proof.
  revert s. induction n; intros [|c s]; simpl; try lia.
  specialize (IHn s). lia.
Qed.

Lemma startswith_split p s :
  startswith p s = true -> s = p +:+ drop (String.length p) s.
Proof.
  revert s. induction p as [|a p IH]; intros [|b s] H; simpl in *;
    try reflexivity; try discriminate.
  apply andb_prop in H as [Hab H]. apply Ascii.eqb_eq in Hab. subst.
  rewrite app_cons. f_equal. now apply IH.
Qed.

Lemma replace_from_skip old new k s :
  replace_from old new k s = replace_from old new 0 (drop k s).
Proof.
  revert k. induction s as [|c s IH]; intros [|k]; try reflexivity.
  simpl. apply IH.
Qed.

Lemma replace_from_hit old new c s :
  startswith old (String c s) = true ->
  replace_from old new 0 (String c s)
  = new +:+ replace_from old new 0 (drop (String.length old - 1) s).
Proof.
  intros H. cbn [replace_from]. rewrite H. now rewrite replace_from_skip.
Qed.

Lemma replace_from_miss old new c s :
  startswith old (String c s) = false ->
  replace_from old new 0 (String c s) = String c (replace_from old new 0 s).
Proof. intros H. cbn [replace_from]. now rewrite H. Qed.

(** Induction on strings by length. *)
Lemma string_length_ind (P : string -> Prop) :
  (forall s, (forall t, String.length t < String.length s -> P t) -> P s) ->
  forall s, P s.
Proof.
  intros H s. remember (String.length s) as n eqn:Hn.
  revert s Hn. induction n as [n IH] using lt_wf_ind.
  intros s ->. apply H. intros t Ht. now apply (IH (String.length t)).
Qed.

Lemma spaced_replace_from a old new s :
  spaced (String a old) new ->
  spaced s (replace_from (String a old) new 0 s).
Proof.
  intros Hon. induction s as [s IH] using string_length_ind.
  destruct s as [|c s]; [constructor|].
  destruct (startswith (String a old) (String c s)) eqn:Hst.
  - rewrite replace_from_hit by assumption.
    rewrite (startswith_split _ _ Hst) at 1.
    apply spaced_app; [assumption|].
    replace (String.length (String a old) - 1) with (String.length old)
      by (simpl; lia).
    change (drop (String.length (String a old)) (String c s))
      with (drop (String.length old) s).
    apply IH. pose proof (length_drop (String.length old) s). simpl. lia.
  - rewrite replace_from_miss by assumption.
    constructor. apply IH. simpl. lia.
Qed.

End StringFacts.

(** *** Replacing a doubled character [aa] by [a a] *)

Section Doubled.

Import PyStr.

Variable a : ascii.
Hypothesis a_not_space : Ascii.eqb a " " = false.

Let old : string := String a (String a "").
Let new : string := String a (String " " (String a "")).
Let R : string -> string := replace_from old new 0.

Lemma doubled_spaced s : spaced s (R s).
Proof.
  apply spaced_replace_from. repeat constructor.
Qed.

Lemma doubled_head s :
  startswith (String a "") (R s) = true -> startswith (String a "") s = true.
Proof.
  destruct s as [|c s]; [intros H; exact H|].
  unfold R. destruct (startswith old (String c s)) eqn:Hst.
  - intros _. unfold old in Hst. cbn [startswith] in *.
    apply andb_prop in Hst as [Hc _]. rewrite Hc. reflexivity.
  - rewrite replace_from_miss by assumption. intros H. exact H.
Qed.

Lemma doubled_residue s :
  contains old (R s) = true -> contains (String a old) s = true.
Proof.
  induction s as [s IH] using string_length_ind.
  destruct s as [|c s]; [intros H; discriminate H|].
  destruct (startswith old (String c s)) eqn:Hst.
  - pose proof (startswith_split _ _ Hst) as Hs.
    change (drop (String.length old) (String c s)) with (drop 1 s) in Hs.
    unfold R. rewrite replace_from_hit by assumption.
    change (String.length old - 1) with 1. fold R.
    assert (Hlen : String.length (drop 1 s) < String.length (String c s)).
    { pose proof (length_drop 1 s). cbn [String.length]. lia. }
    specialize (IH _ Hlen).
    intros H. unfold new in H. rewrite !app_cons, app_empty in H.
    cbn [contains] in H. unfold old at 1 2 3 in H. cbn [startswith] in H.
    rewrite Ascii.eqb_refl, a_not_space in H.
    cbn [andb orb] in H.
    apply orb_prop in H as [H|H].
    + (* the third character of the replacement meets an [a] that follows *)
      apply startswith_contains. rewrite Hs. unfold old.
      rewrite !app_cons, app_empty. cbn [startswith].
      rewrite !Ascii.eqb_refl. cbn [andb].
      assert (H' : startswith (String a "") (R (drop 1 s)) = true)
        by (destruct (R (drop 1 s)); exact H).
      apply doubled_head in H'. destruct (drop 1 s); exact H'.
    + rewrite Hs. unfold old. rewrite !app_cons, app_empty.
      apply contains_cons, contains_cons. now apply IH.
  - unfold R. rewrite replace_from_miss by assumption. fold R.
    intros H. cbn [contains] in H. apply orb_prop in H as [H|H].
    + exfalso. cbn [startswith old] in H.
      apply andb_prop in H as [Hc H].
      apply Ascii.eqb_eq in Hc. subst c.
      assert (Hh : startswith (String a "") s = true).
      { apply doubled_head. destruct (R s); [discriminate|].
        apply andb_prop in H as [H _]. simpl. now rewrite H. }
      destruct s as [|d s]; [discriminate|].
      simpl in Hst, Hh. rewrite Ascii.eqb_refl in Hst.
      apply andb_prop in Hh as [Hd _]. rewrite Hd in Hst. discriminate.
    + apply contains_cons. apply IH; [simpl; lia|assumption].
Qed.

End Doubled.

(** *** Replacing [a·rest] by [a·blank·rest] when [a] is not in [rest] *)

Section NoSelfOverlap.

Import PyStr.

Variable a b : ascii.
Variable tail : string.
Let rest : string := String b tail.
Hypothesis a_not_space : Ascii.eqb a " " = false.
Hypothesis b_not_space : Ascii.eqb b " " = false.
Hypothesis a_not_in_rest : occurs a rest = false.

Let old : string := String a rest.
Let new : string := String a (String " " rest).
Let R : string -> string := replace_from old new 0.

Lemma noself_spaced s : spaced s (R s).
Proof.
  apply spaced_replace_from. constructor. constructor. apply spaced_refl.
Qed.

(** A prefix free of [a] in the output was copied from the input. *)
Lemma noself_prefix p s :
  occurs a p = false ->
  startswith p (R s) = true -> startswith p s = true.
Proof.
  revert s. induction p as [|x p IH]; intros s Hp H; [reflexivity|].
  cbn [occurs] in Hp. apply orb_false_elim in Hp as [Hax Hp].
  destruct s as [|c s]; [exact H|].
  destruct (startswith old (String c s)) eqn:Hst.
  - unfold R in H. rewrite replace_from_hit in H by assumption.
    unfold new in H. rewrite app_cons in H. cbn [startswith] in H.
    apply andb_prop in H as [H _]. rewrite Ascii.eqb_sym, Hax in H.
    discriminate.
  - unfold R in H. rewrite replace_from_miss in H by assumption. fold R in H.
    cbn [startswith] in *. apply andb_prop in H as [-> H]. simpl.
    now apply IH.
Qed.

Lemma contains_skip p t :
  occurs a p = false -> contains old (p +:+ t) = contains old t.
Proof.
  induction p as [|x p IH]; intros Hp; [reflexivity|].
  cbn [occurs] in Hp. apply orb_false_elim in Hp as [Hax Hp].
  rewrite app_cons. cbn [contains]. rewrite IH by assumption.
  unfold old. cbn [startswith]. now rewrite Hax.
Qed.

Lemma noself_clean s : contains old (R s) = false.
Proof.
  induction s as [s IH] using string_length_ind.
  destruct s as [|c s]; [reflexivity|].
  destruct (startswith old (String c s)) eqn:Hst.
  - unfold R. rewrite replace_from_hit by assumption. fold R.
    assert (H1 : forall t, startswith old (String a (String " " t)) = false).
    { intros t. unfold old, rest. cbn [startswith].
      rewrite b_not_space. now rewrite andb_false_r. }
    assert (H2 : forall t, startswith old (String " " t) = false).
    { intros t. unfold old. cbn [startswith]. now rewrite a_not_space. }
    unfold new. rewrite !app_cons. cbn [contains].
    rewrite H1, H2, contains_skip by assumption. cbn [orb].
    apply IH. pose proof (length_drop (String.length old - 1) s).
    cbn [String.length]. lia.
  - unfold R. rewrite replace_from_miss by assumption. fold R.
    cbn [contains]. rewrite IH by (simpl; lia). rewrite orb_false_r.
    destruct (startswith old (String c (R s))) eqn:H; [|reflexivity].
    exfalso. unfold old in H, Hst. cbn [startswith] in H, Hst.
    apply andb_prop in H as [Hc H]. rewrite Hc in Hst. cbn [andb] in Hst.
    apply noself_prefix in H; [|assumption]. congruence.
Qed.

End NoSelfOverlap.

(** ** The escaper *)

Section Escaper.

Import PyStr.

Lemma escape_special_chars_text text st :
  fst (_escape_special_chars text st) = escape_text text.
Proof.
  destruct text as [|c text]; [reflexivity|].
  unfold _escape_special_chars.
  destruct (Nat.eqb _ _); reflexivity.
Qed.

Lemma spaced_replace a old new s :
  spaced (String a old) new -> spaced s (replace (String a old) new s).
Proof. apply spaced_replace_from. Qed.

Lemma stage_S n text o r :
  nth_error replacements n = Some (o, r) ->
  stage (S n) text = replace o r (stage n text).
Proof.
  intros H. unfold stage.
  do 7 (destruct n as [|n]; [injection H as <- <-; reflexivity|]).
  destruct n; discriminate.
Qed.

Lemma stage_spaced n m text :
  n <= m -> spaced (stage n text) (stage m text).
Proof.
  induction 1 as [|m Hle IH]; [apply spaced_refl|].
  eapply spaced_trans; [exact IH|].
  destruct (nth_error replacements m) as [[o r]|] eqn:Hm.
  - rewrite (stage_S _ _ _ _ Hm).
    do 7 (destruct m as [|m];
          [injection Hm as <- <-; apply spaced_replace; repeat constructor|]).
    destruct m; discriminate.
  - assert (Hm' : 7 <= m).
    { apply nth_error_None in Hm. exact Hm. }
    unfold stage. rewrite !firstn_all2 by (simpl; lia). apply spaced_refl.
Qed.

Lemma escape_text_spaced text : spaced (stage 7 text) (escape_text text).
Proof.
  unfold escape_text. fold (stage 7 text).
  destruct (_ && _); [|apply spaced_refl].
  destruct (negb _); [|apply spaced_refl].
  eapply spaced_trans; apply spaced_replace; repeat constructor.
Qed.

Lemma free_of_cons t toks s :
  free_of (t :: toks) s = negb (contains t s) && free_of toks s.
Proof. reflexivity. Qed.

Lemma not_contains_spaced tok s t :
  no_space tok = true -> spaced s t ->
  contains tok s = false -> contains tok t = false.
Proof.
  intros Hns Hsp Hs. destruct (contains tok t) eqn:Ht; [|reflexivity].
  rewrite (contains_spaced _ _ _ Hns Hsp Ht) in Hs. discriminate.
Qed.

(** A doubled token is gone after its stage when the text has no run of
    three. *)
Lemma doubled_stage n a text :
  Ascii.eqb a " " = false ->
  nth_error replacements n
  = Some (String a (String a ""), String a (String " " (String a ""))) ->
  contains (String a (String a (String a ""))) text = false ->
  contains (String a (String a "")) (escape_text text) = false.
Proof.
  intros Ha Hn Hrun.
  assert (Hns2 : no_space (String a (String a "")) = true)
    by (simpl; now rewrite Ha).
  assert (Hns3 : no_space (String a (String a (String a ""))) = true)
    by (simpl; now rewrite Ha).
  apply (not_contains_spaced _ (stage (S n) text)); [assumption| |].
  - eapply spaced_trans; [|apply escape_text_spaced].
    apply stage_spaced.
    assert (n < List.length replacements)
      by (apply nth_error_Some; rewrite Hn; discriminate).
    simpl in *. lia.
  - rewrite (stage_S _ _ _ _ Hn).
    destruct (contains _ (replace _ _ _)) eqn:Hc; [|reflexivity].
    apply (doubled_residue a Ha) in Hc.
    assert (Hsp : spaced text (stage n text))
      by (apply (stage_spaced 0 n); lia).
    rewrite (contains_spaced _ _ _ Hns3 Hsp Hc) in Hrun. discriminate.
Qed.

(** A token that cannot overlap itself is gone after its stage. *)
Lemma noself_stage n a b tail text :
  Ascii.eqb a " " = false -> Ascii.eqb b " " = false ->
  no_space tail = true ->
  occurs a (String b tail) = false ->
  nth_error replacements n
  = Some (String a (String b tail), String a (String " " (String b tail))) ->
  contains (String a (String b tail)) (escape_text text) = false.
Proof.
  intros Ha Hb Htail Hocc Hn.
  apply (not_contains_spaced _ (stage (S n) text)).
  - simpl. now rewrite Ha, Hb, Htail.
  - eapply spaced_trans; [|apply escape_text_spaced].
    apply stage_spaced.
    assert (n < List.length replacements)
      by (apply nth_error_Some; rewrite Hn; discriminate).
    simpl in *. lia.
  - rewrite (stage_S _ _ _ _ Hn). now apply noself_clean.
Qed.

End Escaper.




(** ** Formatting one card *)

Lemma bind_fst {S A B} (m : StateM S A) (k : A -> StateM S B) st :
  bind m k st = k (fst (m st)) (snd (m st)).
Proof. unfold bind. destruct (m st); reflexivity. Qed.

Lemma format_card_disabled card st :
  direction card = DISABLED ->
  fst (_format_card card st)
  = Some (escape_text (front card) +:+ " =- " +:+ escape_text (back card)).
Proof.
  intros Hd. unfold _format_card. rewrite !bind_fst, Hd.
  cbn [ret fst]. now rewrite !escape_special_chars_text.
Qed.

(** Whatever its front, a cloze card that is not disabled is emitted as
    its front: both branches of [_format_cloze] return [card.front]. *)
Lemma format_card_cloze_front c st :
  card_type c = CLOZE -> direction c <> DISABLED ->
  fst (_format_card c st) = Some (front c).
Proof.
  intros Hty Hd. unfold _format_card. rewrite !bind_fst, Hty.
  destruct (direction c); try congruence; cbn [ret fst];
    unfold _format_cloze; destruct (negb _); reflexivity.
Qed.

(** C5 (amended).  A cloze card whose direction is not disabled and whose
    front contains a well-formed cloze span is emitted as its front,
    verbatim, the span intact; a cloze card whose direction is disabled is
    emitted as the escaped front, the delimiter [=-] and the escaped back,
    with or without a span.  For no cloze card does the formatter raise:
    it returns a text. *)
Theorem format_card_cloze (c : Flashcard) (st : FormattingStats) :
  card_type c = CLOZE ->
  (direction c <> DISABLED -> PyStr.has_cloze (front c) = true ->
   fst (_format_card c st) = Some (front c))
  /\ (direction c = DISABLED ->
      fst (_format_card c st)
      = Some (escape_text (front c) +:+ " =- " +:+ escape_text (back c)))
  /\ exists text, fst (_format_card c st) = Some text.
Proof.
  intros Hty. split; [|split].
  - intros Hd _. now apply format_card_cloze_front.
  - apply format_card_disabled.
  - destruct (CardDirection_eq_dec (direction c) DISABLED) as [Hd|Hd].
    + eexists. now apply format_card_disabled.
    + eexists. now apply format_card_cloze_front.
Qed.

Lemma format_card_cloze_witness :
  card_type cloze_card = CLOZE
  /\ fst (_format_card cloze_card fresh_stats) = Some "X causes {{Y}}".
Proof.
  split; [reflexivity|].
  apply (format_card_cloze cloze_card fresh_stats eq_refl);
    [discriminate|reflexivity].
Defined.

(** C5 as stated fails twice.  By design of [_format_card], which tests
    [DISABLED] before the card type, a disabled cloze card with a
    well-formed span is not emitted verbatim.  And a front without a
    well-formed span is emitted as it is, not in its escaped form, although
    [_format_card] has computed (and counted) the escaped front: the branch
    of [_format_cloze] for this case, commented as treating the front as
    regular text, returns the same as the other one. *)
Lemma format_card_cloze_counterexample :
  (PyStr.has_cloze (front cloze_disabled_card) = true
   /\ run (_format_card cloze_disabled_card) = Some "X causes {{Y}} =- "
   /\ run (_format_card cloze_disabled_card)
      <> Some (front cloze_disabled_card))
  /\ (PyStr.has_cloze (front cloze_unbalanced_card) = false
      /\ run (_format_card cloze_unbalanced_card) = Some "A::B {{Y"
      /\ run (_escape_special_chars (front cloze_unbalanced_card)) = "A: :B {{Y"
      /\ run (_format_card cloze_unbalanced_card)
         <> Some (run (_escape_special_chars (front cloze_unbalanced_card)))).
Proof. repeat split; try reflexivity; discriminate. Qed.

(** A list-answer card with items, not disabled, is emitted as the escaped
    front followed by [>>1.] and nothing else. *)
Lemma format_card_list_answer c st :
  card_type c = LIST_ANSWER -> direction c <> DISABLED -> list_items c <> [] ->
  fst (_format_card c st) = Some (escape_text (front c) +:+ " >>1.").
Proof.
  intros Hty Hd Hit. unfold _format_card. rewrite !bind_fst, Hty.
  destruct (direction c); try congruence;
    unfold _format_list_answer; rewrite bind_fst;
    destruct (list_items c); try congruence; cbn [ret fst];
    now rewrite escape_special_chars_text.
Qed.

(** C3 at the list-answer card of the repository's tests: the emitted text
    is the front and the marker [>>1.]; none of the three list items is in
    it, whether the card is formatted alone or through [format_cards]. *)
Theorem format_list_answer_omits_items :
  run (_format_card layers_card) = Some "What are the layers? >>1."
  /\ run (format_cards [layers_card] true) = "# What are the layers? >>1."
  /\ run (format_cards [layers_card] false) = "# What are the layers? >>1."
  /\ Forall (fun item =>
               PyStr.contains item (run (format_cards [layers_card] true))
               = false)
            (list_items layers_card).
Proof. repeat split; try reflexivity. repeat constructor. Qed.

(** A list-answer card without items: [_format_list_answer] ends without
    a [return], the document reads [# None] in both modes, and three
    escapes are counted: front and back in [_format_card], the front again
    in [_format_list_answer]. *)
Example format_list_answer_without_items :
  run (_format_card bare_list_card) = None
  /\ run (format_cards [bare_list_card] true) = "# None"
  /\ run (format_cards [bare_list_card] false) = "# None"
  /\ special_chars_escaped (snd (format_cards [bare_list_card] false
                                   fresh_stats)) = 3.
Proof. repeat split; reflexivity. Qed.

(** C9.  On an empty list of cards [format_cards] returns the empty string,
    whatever the hierarchy flag and the statistics of earlier calls, and
    leaves the statistics reset. *)
Theorem format_cards_empty (hierarchy : bool) (st : FormattingStats) :
  format_cards [] hierarchy st = ("", fresh_stats).
Proof. reflexivity. Qed.

(** ** Hierarchy grouping *)

(** C2 at the two cards of the repository's hierarchy test: the child is
    written under its root and once more under a separate top-level group
    for its parent string, so its line is in the document twice. *)
Theorem format_hierarchical_repeats_child :
  run (hierarchical_lines [ml_parent_card; ml_child_card])
  = [ "# Machine Learning :: AI field focused on algorithms that improve through experience";
      "    # Main Types ;> Supervised, Unsupervised, Reinforcement Learning";
      "# Machine Learning";
      "    # Main Types ;> Supervised, Unsupervised, Reinforcement Learning" ]
  /\ count_line (child_line_of ml_child_card)
       (run (hierarchical_lines [ml_parent_card; ml_child_card])) = 2.
Proof. split; reflexivity. Qed.

(** C4 at a chain root, child, grandchild: the child and the grandchild are
    both written four blanks deep, the grandchild under a top-level group
    for its parent string and never beneath the child. *)
Theorem format_hierarchical_chain_depth :
  run (hierarchical_lines [chain_root; chain_child; chain_grandchild])
  = [ "# Lambda Architecture :> Data processing architecture";
      "    # purpose ;> Handle both batch and streaming data";
      "# Lambda Architecture";
      "    # purpose ;> Handle both batch and streaming data";
      "# purpose";
      "    # Why both layers? >> Accuracy and low latency" ]
  /\ indentation (child_line_of chain_child) = 4
  /\ indentation (child_line_of chain_grandchild) = 4
  /\ Forall (fun line => indentation line <= 4)
       (run (hierarchical_lines [chain_root; chain_child; chain_grandchild])).
Proof. repeat split; try reflexivity. repeat constructor. Qed.

(** ** The duplicate filter and the generator's counters *)

Section GeneratorFacts.

Import CardGenerator.

Lemma Topic_ind' (P : Topic -> Prop) :
  (forall n c subs ex kc d,
      Forall P subs -> P (mkTopic n c subs ex kc d)) ->
  forall t, P t.
Proof.
  intros H. fix IH 1. intros [n c subs ex kc d]. apply H.
  induction subs as [|s subs IHsubs]; constructor.
  - apply IH.
  - exact IHsubs.
Qed.

(** *** Rules for [adds_from] *)

Lemma adds_ret {A} n (w : A -> nat) (a : A) :
  w a = n -> adds_from n w (ret a).
Proof. intros <- st. cbn. lia. Qed.

Lemma adds_bind {A B} n (w1 : A -> nat) (w : B -> nat)
    (m : Gen A) (k : A -> Gen B) :
  adds_from 0 w1 m ->
  (forall a, adds_from (n + w1 a) w (k a)) ->
  adds_from n w (bind m k).
Proof.
  intros Hm Hk st. rewrite bind_fst.
  destruct (Hm st) as [Ht Hs]. destruct (Hk (fst (m st)) (snd (m st))) as [Ht' Hs'].
  lia.
Qed.

Lemma adds_neutral {A} n (w : A -> nat) (m : Gen A) :
  adds_from 0 (fun _ => 0) m -> (forall a, w a = n) -> adds_from n w m.
Proof.
  intros Hm Hw st. destruct (Hm st) as [Ht Hs]. rewrite Hw. lia.
Qed.

Lemma adds_for_each {A B} (body : A -> Gen (list B)) (l : list A) :
  (forall x, adds_from 0 (@List.length B) (body x)) ->
  adds_from 0 (@List.length B) (for_each body l).
Proof.
  intros Hbody. induction l as [|x l IH]; cbn [for_each].
  - now apply adds_ret.
  - eapply adds_bind; [apply Hbody|]. intros ys.
    eapply adds_bind; [apply IH|]. intros zs.
    apply adds_ret. rewrite length_app. lia.
Qed.

Lemma neutral_for_each {A B} (body : A -> Gen (list B)) (l : list A) :
  (forall x, adds_from 0 (fun _ => 0) (body x)) ->
  adds_from 0 (fun _ => 0) (for_each body l).
Proof.
  intros Hbody. induction l as [|x l IH]; cbn [for_each].
  - now apply adds_ret.
  - eapply adds_bind; [apply Hbody|]. intros ys.
    eapply adds_bind; [apply IH|]. intros zs.
    now apply adds_ret.
Qed.

Lemma neutral_count_type k : adds_from 0 (fun _ => 0) (count_type k).
Proof. intros st. cbn. lia. Qed.

Lemma neutral_topic_processed : adds_from 0 (fun _ => 0) topic_processed.
Proof. intros st. cbn. lia. Qed.

Lemma neutral_call_llm env prompt temp :
  adds_from 0 (fun _ => 0) (call_llm env prompt temp).
Proof.
  intros st. unfold call_llm. destruct (llm_generate _ _ _ _); cbn; lia.
Qed.

(** *** The filter *)

Lemma is_unique_card_spec card st :
  _is_unique_card card st
  = if decide (source_hash card ∈ generated_cards st)
    then (false,
          mkState (generated_cards st) (total_cards st) (by_type st)
            (S (duplicates_avoided st)) (topics_processed st) (llm_calls st)
            (llm_requests st))
    else (true, st).
Proof. reflexivity. Qed.

Lemma submit_seen card st :
  source_hash card ∈ generated_cards st ->
  fst (submit card st) = false
  /\ generated_cards (snd (submit card st)) = generated_cards st
  /\ total_cards (snd (submit card st)) = total_cards st
  /\ duplicates_avoided (snd (submit card st)) = S (duplicates_avoided st).
Proof.
  intros Hin. unfold submit, bind. rewrite is_unique_card_spec.
  destruct (decide _) as [_|Hn]; [|contradiction]. cbn. auto.
Qed.

Lemma submit_fresh card st :
  source_hash card ∉ generated_cards st ->
  fst (submit card st) = true
  /\ generated_cards (snd (submit card st))
     = {[source_hash card]} ∪ generated_cards st
  /\ total_cards (snd (submit card st)) = S (total_cards st)
  /\ duplicates_avoided (snd (submit card st)) = duplicates_avoided st.
Proof.
  intros Hn. unfold submit, bind. rewrite is_unique_card_spec.
  destruct (decide _) as [Hin|_]; [contradiction|]. cbn. auto.
Qed.

Lemma adds_submit card :
  adds_from 0 (fun ok : bool => if ok then 1 else 0) (submit card).
Proof.
  intros st. destruct (decide (source_hash card ∈ generated_cards st)) as [Hin|Hn].
  - destruct (submit_seen card st Hin) as (-> & -> & -> & _). lia.
  - destruct (submit_fresh card st Hn) as (-> & -> & -> & _).
    rewrite size_union by set_solver. rewrite size_singleton. lia.
Qed.

Lemma adds_submit_all candidates :
  adds_from 0 (@List.length Flashcard) (submit_all candidates).
Proof.
  apply adds_for_each. intros card.
  eapply adds_bind; [apply adds_submit|]. intros [|]; now apply adds_ret.
Qed.

Lemma adds_when flag m :
  adds_from 0 (fun _ => 0) m ->
  adds_from 0 (@List.length Flashcard) (when flag m).
Proof.
  intros Hm. destruct flag; cbn [when]; [|now apply adds_ret].
  eapply adds_bind; [exact Hm|]. intros cs. apply adds_submit_all.
Qed.


(** *** The generators leave the counter and the fingerprints alone *)

Ltac neutral :=
  repeat first
    [ apply neutral_count_type
    | apply neutral_call_llm
    | apply neutral_topic_processed
    | (apply adds_ret; reflexivity)
    | (eapply adds_bind; [|intros ?])
    | (apply neutral_for_each; intros ?)
    | match goal with
      | |- adds_from _ _ (if ?b then _ else _) => destruct b
      | |- adds_from _ _ (match ?x with _ => _ end) => destruct x
      end ].

Lemma neutral_concept env topic ctx :
  adds_from 0 (fun _ => 0) (_generate_concept_card env topic ctx).
Proof. unfold _generate_concept_card. neutral. Qed.

Lemma neutral_basic_loop env topic ctx sep lines cards :
  adds_from 0 (fun _ => 0) (basic_loop env topic ctx sep lines cards).
Proof.
  revert cards. induction lines as [|line lines IH]; intros cards;
    cbn [basic_loop]; [now apply adds_ret|].
  destruct (PyStr.contains sep line); [|apply IH].
  destruct (PyStr.split_once sep line) as [[f b]|]; [|now apply adds_ret].
  eapply adds_bind; [apply neutral_count_type|]. intros u. apply IH.
Qed.

Lemma neutral_basic env topic ctx :
  adds_from 0 (fun _ => 0) (_generate_basic_cards env topic ctx).
Proof.
  unfold _generate_basic_cards.
  destruct (negb _); [now apply adds_ret|].
  destruct (get_config _ _); [|now apply adds_ret].
  destruct (format_prompt _ _ _); [|now apply adds_ret].
  eapply adds_bind; [apply neutral_call_llm|]. intros [response|].
  - destruct (as_str _) as [sep|]; [|now apply adds_ret].
    destruct (slice_to_value _ _) as [first_lines|]; [|now apply adds_ret].
    apply neutral_basic_loop.
  - now apply adds_ret.
Qed.

Lemma neutral_cloze env topic ctx :
  adds_from 0 (fun _ => 0) (_generate_cloze_cards env topic ctx).
Proof. unfold _generate_cloze_cards. neutral. Qed.

Lemma neutral_descriptor env topic ctx :
  adds_from 0 (fun _ => 0) (_generate_descriptor_cards env topic ctx).
Proof. unfold _generate_descriptor_cards. neutral. Qed.

Lemma neutral_multiline env topic ctx :
  adds_from 0 (fun _ => 0) (_generate_multiline_cards env topic ctx).
Proof. unfold _generate_multiline_cards. neutral. Qed.

Lemma neutral_list_answer env topic ctx :
  adds_from 0 (fun _ => 0) (_generate_list_answer_cards env topic ctx).
Proof. unfold _generate_list_answer_cards. neutral. Qed.

Lemma neutral_multiple_choice env topic ctx :
  adds_from 0 (fun _ => 0) (_generate_multiple_choice_cards env topic ctx).
Proof. unfold _generate_multiple_choice_cards. neutral. Qed.

Lemma adds_own_cards env topic ctx :
  adds_from 0 (@List.length Flashcard) (own_cards env topic ctx).
Proof.
  unfold own_cards.
  eapply adds_bind; [apply neutral_concept|]. intros cc.
  eapply adds_bind; [apply adds_submit_all|]. intros c1.
  eapply adds_bind; [apply adds_when, neutral_basic|]. intros c2.
  eapply adds_bind; [apply adds_when, neutral_cloze|]. intros c3.
  eapply adds_bind; [apply adds_when, neutral_descriptor|]. intros c4.
  eapply adds_bind; [apply adds_when, neutral_multiline|]. intros c5.
  eapply adds_bind; [apply adds_when, neutral_list_answer|]. intros c6.
  eapply adds_bind; [apply adds_when, neutral_multiple_choice|]. intros c7.
  apply adds_ret. rewrite !length_app. lia.
Qed.

Lemma generate_cards_unfold env topic ctx :
  generate_cards env topic ctx
  = (let* cards := own_cards env topic ctx in
     let* subtopic_cards :=
       for_each (fun subtopic =>
                   generate_cards env subtopic (Some (name topic)))
                (subtopics topic) in
     let* u := topic_processed in
     ret (cards ++ subtopic_cards))%fmt.
Proof. destruct topic; reflexivity. Qed.

Lemma adds_for_each_Forall {A B} (body : A -> Gen (list B)) (l : list A) :
  Forall (fun x => adds_from 0 (@List.length B) (body x)) l ->
  adds_from 0 (@List.length B) (for_each body l).
Proof.
  induction 1 as [|x l Hx Hl IH]; cbn [for_each].
  - now apply adds_ret.
  - eapply adds_bind; [apply Hx|]. intros ys.
    eapply adds_bind; [apply IH|]. intros zs.
    apply adds_ret. rewrite length_app. lia.
Qed.

Lemma adds_generate_cards env topic :
  forall ctx, adds_from 0 (@List.length Flashcard) (generate_cards env topic ctx).
Proof.
  induction topic as [n c subs ex kc d IH] using Topic_ind'. intros ctx.
  rewrite generate_cards_unfold. cbn [name subtopics].
  eapply adds_bind; [apply adds_own_cards|]. intros cards.
  eapply adds_bind.
  { apply adds_for_each_Forall. eapply Forall_impl; [exact IH|].
    intros sub Hsub. apply Hsub. }
  intros subtopic_cards.
  eapply adds_bind; [apply neutral_topic_processed|]. intros u.
  apply adds_ret. rewrite length_app. lia.
Qed.

End GeneratorFacts.

(** ** Fingerprints *)

(** The hashed text depends on the list items only through their joined
    form, once it is known whether there are any. *)
Lemma hash_content_joined (c1 c2 : Flashcard) :
  front c1 = front c2 -> back c1 = back c2 ->
  card_type c1 = card_type c2 -> direction c1 = direction c2 ->
  (list_items c1 = [] <-> list_items c2 = []) ->
  PyStr.join "," (list_items c1) = PyStr.join "," (list_items c2) ->
  hash_content c1 = hash_content c2.
Proof.
  intros Hf Hb Ht Hd Hnil Hj. unfold hash_content.
  rewrite Hf, Hb, Ht, Hd.
  destruct (list_items c1) as [|x l1], (list_items c2) as [|y l2];
    try reflexivity.
  - destruct Hnil as [Hnil _]. discriminate (Hnil eq_refl).
  - destruct Hnil as [_ Hnil]. discriminate (Hnil eq_refl).
  - now rewrite Hj.
Qed.

(** C7.  Two cards constructed without a fingerprint of their own that
    agree on front, back, type tag, direction and list items get equal
    fingerprints from [__post_init__], whatever their other fields and
    whatever the digest function. *)
Theorem fingerprint_deterministic
    (md5_hexdigest : string -> string) (c1 c2 : Flashcard) :
  source_hash c1 = "" -> source_hash c2 = "" ->
  front c1 = front c2 -> back c1 = back c2 ->
  card_type c1 = card_type c2 -> direction c1 = direction c2 ->
  list_items c1 = list_items c2 ->
  source_hash (__post_init__ md5_hexdigest c1)
  = source_hash (__post_init__ md5_hexdigest c2).
Proof.
  intros H1 H2 Hf Hb Ht Hd Hl. unfold __post_init__. rewrite H1, H2.
  cbn [with_source_hash source_hash].
  rewrite (hash_content_joined c1 c2); try assumption; try reflexivity.
  - now rewrite Hl.
  - now rewrite Hl.
Qed.

Lemma fingerprint_deterministic_witness :
  source_hash (__post_init__ (fun content => content) twin_a)
  = source_hash (__post_init__ (fun content => content) twin_b).
Proof.
  apply (fingerprint_deterministic (fun content => content) twin_a twin_b);
    reflexivity.
Defined.

(** ** The duplicate filter and the state invariant *)

Section GeneratorInvariant.

Import CardGenerator.

(** C6.  Two cards with equal fingerprints, the first submitted when the
    session has not seen the fingerprint: the first is accepted and the
    second is not, the second submission raises the duplicates-avoided
    counter by exactly one (the first leaves it alone), and the two
    submissions together register one card. *)
Theorem duplicate_filter_accepts_one (c1 c2 : Flashcard) (st : State) :
  source_hash c1 = source_hash c2 ->
  source_hash c1 ∉ generated_cards st ->
  fst (submit c1 st) = true
  /\ fst (submit c2 (snd (submit c1 st))) = false
  /\ duplicates_avoided (snd (submit c1 st)) = duplicates_avoided st
  /\ duplicates_avoided (snd (submit c2 (snd (submit c1 st))))
     = S (duplicates_avoided (snd (submit c1 st)))
  /\ total_cards (snd (submit c2 (snd (submit c1 st)))) = S (total_cards st).
Proof.
  intros Heq Hfresh.
  destruct (submit_fresh c1 st Hfresh) as (Hok & Hgen & Htot & Hdup).
  assert (Hseen : source_hash c2 ∈ generated_cards (snd (submit c1 st))).
  { rewrite Hgen, <- Heq. apply elem_of_union_l, elem_of_singleton.
    reflexivity. }
  destruct (submit_seen c2 _ Hseen) as (Hno & _ & Htot' & Hdup').
  repeat split; try assumption. now rewrite Htot', Htot.
Qed.

Lemma duplicate_filter_accepts_one_witness :
  fst (submit ml_parent_card initial_state) = true
  /\ fst (submit ml_parent_card (snd (submit ml_parent_card initial_state)))
     = false.
Proof.
  destruct (duplicate_filter_accepts_one ml_parent_card ml_parent_card
              initial_state eq_refl) as (H1 & H2 & _).
  - cbn. apply not_elem_of_empty.
  - split; assumption.
Defined.



End GeneratorInvariant.

(** ** The retry wrapper *)

Section RetryFacts.

Import LLMClient.

Variable A : Type.
Variable float : Type.
Variable fmul : float -> Z -> float + Exn.
Variable sleep : float -> option Exn.
Variable retry_attempts : Z.
Variable retry_delay : float.
Variable func : nat -> A + Exn.

Let backoff := backoff float fmul retry_delay.
Let at_loop_head := at_loop_head float fmul retry_attempts retry_delay.
Let loop := attempts A float fmul sleep retry_attempts retry_delay func.
Let delays_ok := delays_ok float fmul sleep retry_delay.

Lemma attempts_S attempt remaining last tr :
  loop attempt (S remaining) last tr
  = match func (invocations tr) with
    | inl result => (inl result, invoked float tr)
    | inr e =>
        if (Z.of_nat attempt <? retry_attempts - 1)%Z
        then
          match backoff attempt with
          | inr raised => (inr raised, invoked float tr)
          | inl delay =>
              match sleep delay with
              | Some raised => (inr raised, invoked float tr)
              | None =>
                  loop (S attempt) remaining (Some e)
                    (slept float delay (invoked float tr))
              end
          end
        else if is_RateLimitError e
             then (inr e, invoked float tr)
             else (inr (LLMError ("All retry attempts failed: "
                                  +:+ message e)), invoked float tr)
    end.
Proof. reflexivity. Qed.

Lemma head_sleeps attempt remaining tr :
  at_loop_head attempt remaining tr -> List.length (sleeps tr) = attempt.
Proof.
  intros (_ & _ & _ & Hsl). apply (f_equal (@List.length _)) in Hsl.
  now rewrite !length_map, length_seq in Hsl.
Qed.

Lemma head_step attempt remaining tr delay :
  at_loop_head attempt (S remaining) tr ->
  (Z.of_nat attempt < retry_attempts - 1)%Z ->
  backoff attempt = inl delay ->
  at_loop_head (S attempt) remaining (slept float delay (invoked float tr)).
Proof.
  intros (Hsum & Hzero & Hinv & Hsl) Hlt Hb. repeat split.
  - lia.
  - lia.
  - cbn. now rewrite Hinv.
  - cbn [sleeps slept invoked]. rewrite map_app, Hsl, seq_S, map_app.
    cbn [map Nat.add]. unfold backoff in Hb. now rewrite Hb.
Qed.

(** A call that ends right after a failed or successful invocation. *)
Lemma head_stop attempt remaining tr :
  at_loop_head attempt (S remaining) tr ->
  invocations (invoked float tr) <= attempt + S remaining
  /\ map inl (sleeps (invoked float tr))
     = map backoff (seq 0 (List.length (sleeps (invoked float tr))))
  /\ List.length (sleeps (invoked float tr))
     = invocations (invoked float tr) - 1.
Proof.
  intros Hhead. pose proof (head_sleeps _ _ _ Hhead) as Hlen.
  destruct Hhead as (Hsum & Hzero & Hinv & Hsl).
  cbn [invoked invocations sleeps]. rewrite Hlen, Hinv.
  repeat split; [lia|exact Hsl|lia].
Qed.

Lemma attempts_trace remaining :
  forall attempt last tr,
    at_loop_head attempt remaining tr ->
    invocations (snd (loop attempt remaining last tr)) <= attempt + remaining
    /\ map inl (sleeps (snd (loop attempt remaining last tr)))
       = map backoff
           (seq 0 (List.length (sleeps (snd (loop attempt remaining last tr)))))
    /\ List.length (sleeps (snd (loop attempt remaining last tr)))
       = invocations (snd (loop attempt remaining last tr)) - 1.
Proof.
  induction remaining as [|remaining IH]; intros attempt last tr Hhead.
  - pose proof (head_sleeps _ _ _ Hhead) as Hlen.
    destruct Hhead as (Hsum & Hzero & Hinv & Hsl).
    cbn [loop attempts snd]. rewrite Hlen, Hinv.
    rewrite (Hzero eq_refl) in *. repeat split; [lia|exact Hsl].
  - pose proof (head_stop _ _ _ Hhead) as Hstop.
    rewrite attempts_S.
    destruct (func (invocations tr)) as [result|e]; [exact Hstop|].
    destruct (Z.ltb_spec (Z.of_nat attempt) (retry_attempts - 1)) as [Hlt|Hge].
    + destruct (backoff attempt) as [delay|raised] eqn:Hb; [|exact Hstop].
      destruct (sleep delay) as [raised|]; [exact Hstop|].
      destruct (IH (S attempt) (Some e) _ (head_step _ _ _ _ Hhead Hlt Hb))
        as (H1 & H2 & H3).
      repeat split; [lia|exact H2|exact H3].
    + destruct (is_RateLimitError e); exact Hstop.
Qed.

Lemma attempts_rate_limited remaining :
  forall attempt last tr,
    at_loop_head attempt (S remaining) tr ->
    delays_ok (attempt + remaining) ->
    (forall k, (Z.of_nat k < retry_attempts)%Z ->
               exists msg, func k = inr (RateLimitError msg)) ->
    (exists msg, fst (loop attempt (S remaining) last tr)
                 = inr (RateLimitError msg))
    /\ invocations (snd (loop attempt (S remaining) last tr))
       = attempt + S remaining.
Proof.
  induction remaining as [|remaining IH];
    intros attempt last tr Hhead Hok Hrl;
    pose proof Hhead as (Hsum & Hzero & Hinv & Hsl);
    rewrite attempts_S;
    destruct (Hrl (invocations tr)) as [msg Hmsg]; try lia;
    rewrite Hmsg;
    destruct (Z.ltb_spec (Z.of_nat attempt) (retry_attempts - 1)) as [Hlt|Hge];
    try lia.
  - cbn. split; [now exists msg|lia].
  - destruct (Hok attempt) as (delay & Hb & Hs); [lia|].
    change (backoff attempt = inl delay) in Hb. rewrite Hb, Hs.
    destruct (IH (S attempt) (Some (RateLimitError msg)) _
                (head_step _ _ _ _ Hhead Hlt Hb)) as (H1 & H2).
    { intros k Hk. apply Hok. lia. }
    { exact Hrl. }
    split; [exact H1|]. rewrite H2. lia.
Qed.

(** C8 (amended).  A call of the retry wrapper invokes the wrapped function
    at most [retry_attempts] times (never, when that number is not
    positive); it sleeps only between two invocations, and the delay slept
    before the [n]-th retry is [retry_delay * 2 ** (n - 1)].  When these
    delays can be computed and slept and every invocation fails
    rate-limited, it stops after [retry_attempts] invocations and raises
    that [RateLimitError], which is an [LLMError]. *)
Theorem retry_with_backoff_bounded :
  let r := _retry_with_backoff A float fmul sleep retry_attempts retry_delay
             func in
  (Z.of_nat (invocations (snd r)) <= Z.max 0 retry_attempts)%Z
  /\ map inl (sleeps (snd r))
     = map (fun k => fmul retry_delay (2 ^ Z.of_nat k))
           (seq 0 (List.length (sleeps (snd r))))
  /\ List.length (sleeps (snd r)) = invocations (snd r) - 1
  /\ ((0 < retry_attempts)%Z ->
      delays_ok (Z.to_nat (retry_attempts - 1)) ->
      (forall k, (Z.of_nat k < retry_attempts)%Z ->
                 exists msg, func k = inr (RateLimitError msg)) ->
      (exists msg, fst r = inr (RateLimitError msg)
                   /\ is_LLMError (RateLimitError msg) = true)
      /\ Z.of_nat (invocations (snd r)) = retry_attempts).
Proof.
  intros r.
  assert (Hr : r = loop 0 (Z.to_nat retry_attempts) None (mkTrace float 0 []))
    by reflexivity.
  assert (Hhead : at_loop_head 0 (Z.to_nat retry_attempts) (mkTrace float 0 []))
    by (repeat split; lia).
  destruct (attempts_trace _ 0 None _ Hhead) as (H1 & H2 & H3).
  rewrite <- Hr in H1, H2, H3.
  split; [lia|]. split; [exact H2|]. split; [exact H3|].
  intros Hpos Hok Hrl.
  destruct (Z.to_nat retry_attempts) as [|n] eqn:Hn; [lia|].
  destruct (attempts_rate_limited n 0 None _ Hhead) as ([msg Hm] & Hi).
  { intros k Hk. apply Hok. lia. }
  { exact Hrl. }
  rewrite <- Hr in Hm, Hi.
  split; [exists msg; split; [exact Hm|reflexivity] | lia].
Qed.

End RetryFacts.

Lemma retry_with_backoff_bounded_witness :
  (0 < 3)%Z
  /\ exists msg,
       fst (LLMClient._retry_with_backoff string Q q_mul q_sleep 3%Z (2 # 1)
              (fun _ => inr (LLMClient.RateLimitError "rate_limit exceeded")))
       = inr (LLMClient.RateLimitError msg)
       /\ LLMClient.is_LLMError (LLMClient.RateLimitError msg) = true.
Proof.
  split; [lia|].
  apply (retry_with_backoff_bounded string Q q_mul q_sleep 3%Z (2 # 1)
           (fun _ => inr (LLMClient.RateLimitError "rate_limit exceeded"))).
  - lia.
  - intros k Hk. eexists. split; [reflexivity|].
    destruct k as [|[|k]]; [reflexivity|reflexivity|cbn in Hk; lia].
  - intros k _. eexists. reflexivity.
Defined.

(** C8 as stated fails when a delay cannot be slept: with a negative
    [retry_delay] the [ValueError] of [time.sleep] leaves the wrapper after
    the first rate-limited failure, although two attempts are left; it is
    no [LLMError]. *)
Lemma retry_with_backoff_counterexample :
  LLMClient._retry_with_backoff string Q q_mul q_sleep 3%Z (-2 # 1)
    (fun _ => inr (LLMClient.RateLimitError "rate_limit exceeded"))
  = (inr (LLMClient.OtherError "sleep length must be non-negative"),
     LLMClient.mkTrace Q 1 [])
  /\ LLMClient.is_LLMError
       (LLMClient.OtherError "sleep length must be non-negative") = false.
Proof. split; reflexivity. Qed.

(** Three rate-limited failures with the default configuration: three
    invocations, sleeps of 2 and 4 seconds, and the [RateLimitError] of the
    last invocation raised. *)
Example retry_three_rate_limited :
  LLMClient._retry_with_backoff string Q q_mul q_sleep 3%Z (2 # 1)
    (fun _ => inr (LLMClient.RateLimitError "rate_limit exceeded"))
  = (inr (LLMClient.RateLimitError "rate_limit exceeded"),
     LLMClient.mkTrace Q 3 [((2 # 1) * inject_Z 1)%Q; ((2 # 1) * inject_Z 2)%Q]).
Proof. reflexivity. Qed.

(** ** The serializer on the specification's examples *)

Example escape_each_token : map escape_text tokens = map snd replacements.
Proof. reflexivity. Qed.

Example format_concept_bidirectional :
  run (_format_card (card CONCEPT "Lambda Architecture" "Data pattern" None
                       BIDIRECTIONAL [] "522bcf0f"))
  = Some "Lambda Architecture :: Data pattern".
Proof. reflexivity. Qed.

Example format_basic_escaped :
  run (_format_card (card BASIC "A::B" "C" None FORWARD [] "dc263e26"))
  = Some "A: :B >> C".
Proof. reflexivity. Qed.

Example format_cloze_intact :
  run (_format_card cloze_card) = Some "X causes {{Y}}".
Proof. reflexivity. Qed.

(** A concept card with backward direction gets the delimiter [:<]. *)
Lemma format_concept_backward c st :
  card_type c = CONCEPT -> direction c = BACKWARD ->
  fst (_format_card c st)
  = Some (escape_text (front c) +:+ " :< " +:+ escape_text (back c)).
Proof.
  intros Hty Hd. unfold _format_card. rewrite !bind_fst, Hty, Hd.
  cbn [ret fst]. now rewrite !escape_special_chars_text.
Qed.

(** ** Two levels only *)

Section TwoLevels.

Lemma for_each_Forall {S A B} (P : B -> Prop)
    (body : A -> StateM S (list B)) (l : list A) :
  (forall x st, Forall P (fst (body x st))) ->
  forall st, Forall P (fst (for_each body l st)).
Proof.
  intros Hbody. induction l as [|x l IH]; intros st; cbn [for_each].
  - constructor.
  - rewrite !bind_fst. cbn [ret fst]. apply Forall_app. split.
    + apply Hbody.
    + apply IH.
Qed.

Lemma child_line_level c st : Forall top_or_child (fst (child_line c st)).
Proof.
  unfold child_line. rewrite bind_fst. cbn [ret fst].
  constructor; [|constructor]. right. reflexivity.
Qed.

Lemma root_block_level h c st : Forall top_or_child (fst (root_block h c st)).
Proof.
  unfold root_block. rewrite bind_fst.
  destruct (_ || _).
  - rewrite bind_fst. cbn [ret fst]. constructor.
    + left. reflexivity.
    + apply for_each_Forall. apply child_line_level.
  - cbn [ret fst]. constructor; [|constructor]. left. reflexivity.
Qed.

Lemma remaining_blocks_level items :
  forall processed st,
    Forall top_or_child (fst (remaining_blocks items processed st)).
Proof.
  induction items as [|[p children] items IH]; intros processed st;
    cbn [remaining_blocks].
  - constructor.
  - destruct (decide _); [apply IH|].
    rewrite !bind_fst. cbn [ret fst]. apply Forall_app. split.
    + constructor.
      * left. reflexivity.
      * apply for_each_Forall. apply child_line_level.
    + apply IH.
Qed.

(** Whatever the cards, every line of the hierarchical document is written
    at the top level or one level below it. *)
Lemma hierarchical_lines_two_levels cards st :
  Forall top_or_child (fst (hierarchical_lines cards st)).
Proof.
  unfold hierarchical_lines. destruct (group_by_parent cards [] []) as [h roots].
  rewrite !bind_fst. cbn [ret fst]. apply Forall_app. split.
  - apply for_each_Forall. apply root_block_level.
  - apply remaining_blocks_level.
Qed.

End TwoLevels.

(** ** A whole session of submissions *)

Section Session.

Import CardGenerator.

Lemma submit_all_cons card cards st :
  submit_all (card :: cards) st
  = ((if fst (submit card st) then [card] else [])
     ++ fst (submit_all cards (snd (submit card st))),
     snd (submit_all cards (snd (submit card st)))).
Proof.
  unfold submit_all. cbn [for_each]. unfold bind at 1 2.
  destruct (submit card st) as [ok st1]. cbn [fst snd ret].
  unfold bind. destruct (for_each _ cards st1) as [zs st2]. reflexivity.
Qed.

(** The cards accepted in a session carry pairwise different fingerprints,
    none of them seen before the session; together with the fingerprints
    seen before they are what the filter has seen afterwards; every
    submission that is not accepted is counted as a duplicate. *)
Lemma submit_all_session cards :
  forall st,
    generated_cards (snd (submit_all cards st))
    = list_to_set (map source_hash cards) ∪ generated_cards st
    /\ generated_cards (snd (submit_all cards st))
       = list_to_set (map source_hash (fst (submit_all cards st)))
         ∪ generated_cards st
    /\ List.NoDup (map source_hash (fst (submit_all cards st)))
    /\ (forall c, In c (fst (submit_all cards st)) ->
                  source_hash c ∉ generated_cards st)
    /\ duplicates_avoided (snd (submit_all cards st))
       + List.length (fst (submit_all cards st))
       = duplicates_avoided st + List.length cards.
Proof.
  induction cards as [|card cards IH]; intros st.
  - cbn. repeat split; try set_solver. constructor.
  - rewrite submit_all_cons. cbn [fst snd].
    destruct (IH (snd (submit card st))) as (Hall & Hacc & Hnd & Hnew & Hdup).
    destruct (decide (source_hash card ∈ generated_cards st)) as [Hin|Hn].
    + destruct (submit_seen card st Hin) as (Hok & Hg & _ & Hd).
      rewrite Hok. cbn [app]. rewrite Hg in *.
      repeat split.
      * rewrite Hall. cbn [map]. set_solver.
      * exact Hacc.
      * exact Hnd.
      * exact Hnew.
      * cbn [List.length]. lia.
    + destruct (submit_fresh card st Hn) as (Hok & Hg & _ & Hd).
      rewrite Hok. cbn [app map]. rewrite Hg in *.
      repeat split.
      * rewrite Hall. set_solver.
      * rewrite Hacc. set_solver.
      * constructor; [|exact Hnd].
        intros Hc. apply in_map_iff in Hc as (c & Hhash & Hc).
        apply Hnew in Hc. rewrite Hhash in Hc. set_solver.
      * intros c [<-|Hc]; [exact Hn|]. apply Hnew in Hc. set_solver.
      * cbn [List.length]. lia.
Qed.

(** In a session that starts with a fresh generator, every fingerprint
    submitted is the fingerprint of exactly one accepted card. *)
Lemma session_accepts_each_fingerprint_once cards c :
  In c cards ->
  count_occ string_dec
    (map source_hash (fst (submit_all cards initial_state))) (source_hash c)
  = 1.
Proof.
  intros Hc.
  destruct (submit_all_session cards initial_state) as (Hall & Hacc & Hnd & _).
  assert (Hin : In (source_hash c)
                   (map source_hash (fst (submit_all cards initial_state)))).
  { assert (H : source_hash c ∈ generated_cards (snd (submit_all cards initial_state))).
    { rewrite Hall. apply elem_of_union_l, elem_of_list_to_set.
      apply list_elem_of_In, in_map, Hc. }
    rewrite Hacc in H. apply elem_of_union in H as [H|H].
    - apply list_elem_of_In. now apply elem_of_list_to_set in H.
    - cbn in H. now apply not_elem_of_empty in H. }
  apply (count_occ_In string_dec) in Hin.
  pose proof (proj1 (NoDup_count_occ string_dec _) Hnd (source_hash c)). lia.
Qed.

End Session.

(** ** What the hierarchical document contains, for any list of cards *)

Section HierarchyFacts.

(** The text of a card does not depend on the statistics. *)
Lemma format_card_run c st : fst (_format_card c st) = run (_format_card c).
Proof.
  unfold run, _format_card, _format_multiline_concept, _format_list_answer,
    _format_multiple_choice.
  destruct (direction c), (card_type c), (use_triple_delimiter c),
    (list_items c) as [|? [|? ?]];
    rewrite ?bind_fst; cbn [ret fst]; rewrite ?bind_fst; cbn [ret fst];
    rewrite ?escape_special_chars_text; reflexivity.
Qed.

Lemma for_each_child_lines children st :
  fst (for_each child_line children st) = map child_line_of children.
Proof.
  revert st. induction children as [|c children IH]; intros st;
    cbn [for_each map]; [reflexivity|].
  rewrite !bind_fst. cbn [ret fst]. rewrite IH.
  unfold child_line at 1. rewrite bind_fst. cbn [ret fst app].
  now rewrite format_card_run.
Qed.

Lemma for_each_In {S A B} (body : A -> StateM S (list B)) (l : list A) x y :
  In x l -> (forall st, In y (fst (body x st))) ->
  forall st, In y (fst (for_each body l st)).
Proof.
  intros Hx Hy. induction l as [|a l IH]; intros st; [destruct Hx|].
  cbn [for_each]. rewrite !bind_fst. cbn [ret fst]. apply in_or_app.
  destruct Hx as [->|Hx]; [left; apply Hy|right; now apply IH].
Qed.

(** *** The dictionary of children *)

Lemma hierarchy_lookup_append k c h p :
  hierarchy_lookup p (hierarchy_append k c h)
  = if String.eqb k p
    then Some (hierarchy_get p h ++ [c])
    else hierarchy_lookup p h.
Proof.
  unfold hierarchy_get.
  induction h as [|[k' cs] h IH]; cbn [hierarchy_append hierarchy_lookup].
  - destruct (String.eqb k p); reflexivity.
  - destruct (String.eqb k' k) eqn:Hk'k; cbn [hierarchy_lookup].
    + apply String.eqb_eq in Hk'k. subst k'.
      destruct (String.eqb k p); reflexivity.
    + destruct (String.eqb k' p) eqn:Hk'p.
      * apply String.eqb_eq in Hk'p. subst k'.
        rewrite String.eqb_sym, Hk'k. reflexivity.
      * exact IH.
Qed.

Lemma hierarchy_get_append k c h p x :
  In x (hierarchy_get p h) \/ (k = p /\ x = c) ->
  In x (hierarchy_get p (hierarchy_append k c h)).
Proof.
  unfold hierarchy_get at 2. rewrite hierarchy_lookup_append.
  intros [Hx|[-> ->]].
  - destruct (String.eqb k p); [apply in_or_app; now left|exact Hx].
  - rewrite String.eqb_refl. apply in_or_app. right. now left.
Qed.

Lemma hierarchy_keys_append k c h :
  map fst (hierarchy_append k c h)
  = if hierarchy_mem k h then map fst h else map fst h ++ [k].
Proof.
  unfold hierarchy_mem.
  induction h as [|[k' cs] h IH]; cbn [hierarchy_append hierarchy_lookup map fst];
    [reflexivity|].
  destruct (String.eqb k' k); cbn [map fst]; [reflexivity|].
  rewrite IH. destruct (hierarchy_lookup k h); reflexivity.
Qed.

Lemma hierarchy_lookup_keys k h :
  hierarchy_lookup k h = None -> ~ In k (map fst h).
Proof.
  induction h as [|[k' cs] h IH]; cbn [hierarchy_lookup map fst];
    [intros _ []|].
  destruct (String.eqb k' k) eqn:Hk; [discriminate|].
  intros Hl [->|Hin]; [now rewrite String.eqb_refl in Hk|now apply IH].
Qed.

Lemma hierarchy_lookup_entry k h cs :
  hierarchy_lookup k h = Some cs -> In (k, cs) h.
Proof.
  induction h as [|[k' cs'] h IH]; cbn [hierarchy_lookup]; [discriminate|].
  destruct (String.eqb k' k) eqn:Hk.
  - apply String.eqb_eq in Hk. subst k'. intros [= ->]. now left.
  - intros Hl. right. now apply IH.
Qed.

Lemma hierarchy_append_NoDup k c h :
  List.NoDup (map fst h) -> List.NoDup (map fst (hierarchy_append k c h)).
Proof.
  intros Hnd. rewrite hierarchy_keys_append. unfold hierarchy_mem.
  destruct (hierarchy_lookup k h) eqn:Hl; [exact Hnd|].
  apply List.NoDup_app; [exact Hnd|repeat constructor; intros []|].
  intros x Hx [<-|[]]. revert Hx. now apply hierarchy_lookup_keys.
Qed.

Lemma group_by_parent_spec cards :
  forall h roots,
    List.NoDup (map fst h) ->
    List.NoDup (map fst (fst (group_by_parent cards h roots)))
    /\ (forall c, In c roots \/ (In c cards /\ truthy (parent c) = None) ->
                  In c (snd (group_by_parent cards h roots)))
    /\ (forall c p,
          In c (hierarchy_get p h)
          \/ (In c cards /\ truthy (parent c) = Some p) ->
          In c (hierarchy_get p (fst (group_by_parent cards h roots)))).
Proof.
  induction cards as [|card cards IH]; intros h roots Hnd;
    cbn [group_by_parent].
  - cbn [fst snd]. repeat split; [exact Hnd| |]; intros; firstorder.
  - destruct (truthy (parent card)) as [p0|] eqn:Hp.
    + destruct (IH (hierarchy_append p0 card h) roots
                   (hierarchy_append_NoDup _ _ _ Hnd)) as (H1 & H2 & H3).
      repeat split; [exact H1| |].
      * intros c [Hc|[[->|Hc] Hr]]; [apply H2; now left|congruence|].
        apply H2. right. now split.
      * intros c p [Hc|[[->|Hc] Hr]]; apply H3.
        -- left. apply hierarchy_get_append. now left.
        -- left. apply hierarchy_get_append. right. split; congruence.
        -- right. now split.
    + destruct (IH h (roots ++ [card]) Hnd) as (H1 & H2 & H3).
      repeat split; [exact H1| |].
      * intros c [Hc|[[->|Hc] Hr]]; apply H2.
        -- left. apply in_or_app. now left.
        -- left. apply in_or_app. right. now left.
        -- right. now split.
      * intros c p [Hc|[[->|Hc] Hr]]; [apply H3; now left|congruence|].
        apply H3. right. now split.
Qed.


(** *** The two loops *)

Lemma root_block_first h r st :
  In ("# " +:+ fstr (run (_format_card r))) (fst (root_block h r st)).
Proof.
  unfold root_block. rewrite bind_fst, format_card_run.
  destruct (_ || _); [rewrite bind_fst|]; cbn [ret fst]; now left.
Qed.

Lemma root_block_children h r c st :
  In c (hierarchy_get (front r) h) \/ In c (hierarchy_get (back r) h) ->
  In (child_line_of c) (fst (root_block h r st)).
Proof.
  intros Hc. unfold root_block. rewrite bind_fst.
  assert (Hmem : hierarchy_mem (front r) h || hierarchy_mem (back r) h = true).
  { unfold hierarchy_mem, hierarchy_get in *. apply orb_true_iff.
    destruct Hc as [Hc|Hc]; [left|right];
      destruct (hierarchy_lookup _ h); try reflexivity; destruct Hc. }
  rewrite Hmem, bind_fst. cbn [ret fst]. right.
  rewrite for_each_child_lines. apply in_map, in_or_app. exact Hc.
Qed.

Lemma remaining_blocks_children items :
  forall processed st p cs c,
    List.NoDup (map fst items) ->
    (forall k, In k (map fst items) -> k ∉ processed) ->
    In (p, cs) items -> In c cs ->
    In (child_line_of c) (fst (remaining_blocks items processed st)).
Proof.
  induction items as [|[p0 cs0] items IH];
    intros processed st p cs c Hnd Hfresh Hin Hc; [destruct Hin|].
  cbn [remaining_blocks].
  destruct (decide (p0 ∈ processed)) as [Hp0|_].
  { exfalso. apply (Hfresh p0); [now left|exact Hp0]. }
  rewrite !bind_fst. cbn [ret fst]. rewrite for_each_child_lines.
  apply in_or_app. inversion Hnd as [|? ? Hp0 Hnd']; subst.
  destruct Hin as [[= -> ->]|Hin].
  - left. right. now apply in_map.
  - right. apply (IH _ _ p cs c Hnd'); try assumption.
    intros k Hk Hk'. apply elem_of_union in Hk' as [Hk'|Hk'].
    + apply elem_of_singleton in Hk'. subst k. contradiction.
    + apply (Hfresh k); [now right|exact Hk'].
Qed.

(** No card is dropped: a card without a parent is written as a top-level
    line, a card with a parent is written as a child line. *)
Lemma hierarchical_lines_every_card cards c st :
  In c cards ->
  In (match truthy (parent c) with
      | None => "# " +:+ fstr (run (_format_card c))
      | Some _ => child_line_of c
      end)
     (fst (hierarchical_lines cards st)).
Proof.
  intros Hc. unfold hierarchical_lines.
  destruct (group_by_parent_spec cards [] [] (List.NoDup_nil _)) as (Hnd & Hroots & Hkids).
  destruct (group_by_parent cards [] []) as [h roots]. cbn [fst snd] in *.
  rewrite !bind_fst. cbn [ret fst]. apply in_or_app.
  destruct (truthy (parent c)) as [p|] eqn:Hp.
  - right.
    assert (Hin : In c (hierarchy_get p h)) by (apply Hkids; right; now split).
    unfold hierarchy_get in Hin.
    destruct (hierarchy_lookup p h) as [cs|] eqn:Hl; [|destruct Hin].
    apply (remaining_blocks_children h ∅ _ p cs c Hnd); try assumption.
    + intros k _. apply not_elem_of_empty.
    + now apply hierarchy_lookup_entry.
  - left. apply (for_each_In _ _ c); [apply Hroots; right; now split|].
    intros st'. apply root_block_first.
Qed.

(** A card whose parent string is the front or the back of a card without
    parent is written at least twice. *)
Lemma hierarchical_lines_child_twice cards r c st :
  In r cards -> In c cards ->
  truthy (parent r) = None ->
  truthy (parent c) = Some (front r) \/ truthy (parent c) = Some (back r) ->
  2 <= count_line (child_line_of c) (fst (hierarchical_lines cards st)).
Proof.
  intros Hr Hc Hroot Hpar.
  assert (Hevery := hierarchical_lines_every_card cards c st Hc).
  unfold hierarchical_lines in *.
  destruct (group_by_parent_spec cards [] [] (List.NoDup_nil _)) as (Hnd & Hroots & Hkids).
  destruct (group_by_parent cards [] []) as [h roots]. cbn [fst snd] in *.
  rewrite !bind_fst. cbn [ret fst]. unfold count_line.
  rewrite count_occ_app.
  assert (Htop : In (child_line_of c)
                    (fst (for_each (root_block h) roots st))).
  { apply (for_each_In _ _ r); [apply Hroots; right; now split|].
    intros st'. apply root_block_children.
    destruct Hpar as [Hp|Hp]; [left|right]; apply Hkids; right; now split. }
  assert (Hrest : In (child_line_of c)
                     (fst (remaining_blocks h ∅
                             (snd (for_each (root_block h) roots st))))).
  { destruct Hpar as [Hp|Hp].
    - assert (Hin : In c (hierarchy_get (front r) h))
        by (apply Hkids; right; now split).
      unfold hierarchy_get in Hin.
      destruct (hierarchy_lookup (front r) h) as [cs|] eqn:Hl; [|destruct Hin].
      apply (remaining_blocks_children h ∅ _ (front r) cs c Hnd); try assumption.
      + intros k _. apply not_elem_of_empty.
      + now apply hierarchy_lookup_entry.
    - assert (Hin : In c (hierarchy_get (back r) h))
        by (apply Hkids; right; now split).
      unfold hierarchy_get in Hin.
      destruct (hierarchy_lookup (back r) h) as [cs|] eqn:Hl; [|destruct Hin].
      apply (remaining_blocks_children h ∅ _ (back r) cs c Hnd); try assumption.
      + intros k _. apply not_elem_of_empty.
      + now apply hierarchy_lookup_entry. }
  apply (count_occ_In string_dec) in Htop, Hrest. lia.
Qed.

End HierarchyFacts.

(** ** More on the escaper *)

Section EscaperMore.

Import PyStr.

Lemma replace_from_absent old new s :
  contains old s = false -> replace_from old new 0 s = s.
Proof.
  induction s as [|c s IH]; intros H; [reflexivity|].
  cbn [contains] in H. apply orb_false_elim in H as [Hst Hc].
  rewrite replace_from_miss by assumption. now rewrite IH.
Qed.

Lemma replace_absent a old new s :
  contains (String a old) s = false -> replace (String a old) new s = s.
Proof. apply replace_from_absent. Qed.

Lemma stage_absent text :
  free_of tokens text = true -> forall n, stage n text = text.
Proof.
  intros Hfree. unfold free_of, tokens in Hfree.
  cbn [map fst replacements forallb] in Hfree.
  repeat (apply andb_prop in Hfree as [?H Hfree]).
  repeat match goal with
         | H : negb _ = true |- _ => apply negb_true_iff in H
         end.
  assert (H7 : stage 7 text = text).
  { unfold stage. cbn [firstn replacements fold_left].
    repeat rewrite (replace_absent _ _ _ text) by assumption. reflexivity. }
  intros n. induction n as [|n IH]; [reflexivity|].
  destruct (nth_error replacements n) as [[o r]|] eqn:Hn.
  - rewrite (stage_S _ _ _ _ Hn), IH.
    do 7 (destruct n as [|n];
          [injection Hn as <- <-; now apply replace_absent|]).
    destruct n; discriminate.
  - apply nth_error_None in Hn. unfold stage in *.
    rewrite firstn_all2 by (simpl in *; lia).
    rewrite firstn_all2 in H7 by (simpl; lia). exact H7.
Qed.

Lemma escape_text_stage text :
  escape_text text
  = if contains "{{" (stage 7 text) && contains "}}" (stage 7 text)
    then
      if negb (has_cloze (stage 7 text))
      then replace "}}" "} }" (replace "{{" "{ {" (stage 7 text))
      else stage 7 text
    else stage 7 text.
Proof. reflexivity. Qed.

Lemma spaced_length s t : spaced s t -> String.length s <= String.length t.
Proof. induction 1; simpl; lia. Qed.

Lemma spaced_same_length s t :
  spaced s t -> String.length t = String.length s -> t = s.
Proof.
  induction 1 as [|c s t H IH|s t H IH]; intros Hlen.
  - reflexivity.
  - simpl in Hlen. f_equal. apply IH. lia.
  - apply spaced_length in H. simpl in Hlen. lia.
Qed.

Lemma escape_text_is_spaced text : spaced text (escape_text text).
Proof.
  eapply spaced_trans; [|apply escape_text_spaced].
  apply (stage_spaced 0 7). lia.
Qed.

Lemma escape_text_free text :
  free_of overlapping_runs text = true ->
  free_of tokens (escape_text text) = true.
Proof.
  intros Hruns.
  unfold free_of, overlapping_runs in Hruns. cbn [forallb] in Hruns.
  repeat (apply andb_prop in Hruns as [?H Hruns]).
  repeat match goal with
         | H : negb _ = true |- _ => apply negb_true_iff in H
         end.
  unfold free_of, tokens. cbn [map fst replacements forallb].
  rewrite (doubled_stage 0 ":" text), (doubled_stage 1 ">" text),
    (doubled_stage 2 "<" text), (doubled_stage 3 ";" text),
    (doubled_stage 6 "]" text) by (reflexivity || assumption).
  rewrite (noself_stage 4 "<" ">" "" text),
    (noself_stage 5 "#" "[" "[" text) by reflexivity.
  reflexivity.
Qed.

(** X1.  A text without any of the seven tokens, in which the brace pairs
    are absent, one-sided or part of a well-formed span, is returned as it
    is, and the statistics are left alone. *)
Theorem escape_clean_text_unchanged (text : string) (st : FormattingStats) :
  free_of tokens text = true ->
  contains "{{" text && contains "}}" text = false \/ has_cloze text = true ->
  _escape_special_chars text st = (text, st).
Proof.
  intros Hfree Hbr.
  assert (He : escape_text text = text).
  { rewrite escape_text_stage, (stage_absent text Hfree 7).
    destruct Hbr as [-> | ->]; [reflexivity|].
    destruct (_ && _); reflexivity. }
  destruct text as [|c text]; [reflexivity|].
  unfold _escape_special_chars. rewrite He, Nat.eqb_refl. reflexivity.
Qed.

Lemma escape_clean_text_unchanged_witness :
  _escape_special_chars "Uses {{batch}} layers" fresh_stats
  = ("Uses {{batch}} layers", fresh_stats).
Proof.
  apply escape_clean_text_unchanged; [reflexivity|right; reflexivity].
Defined.

(** X2.  The counter of escaped texts is raised by one exactly when the
    returned text differs from the input; nothing else in the statistics
    changes. *)
Theorem escape_counts_changes (text : string) (st : FormattingStats) :
  snd (_escape_special_chars text st)
  = if String.eqb (fst (_escape_special_chars text st)) text
    then st else count_escaped st.
Proof.
  destruct text as [|c text]; [reflexivity|].
  unfold _escape_special_chars.
  destruct (Nat.eqb_spec (String.length (escape_text (String c text)))
                         (String.length (String c text))) as [Hlen|Hlen];
    cbn [fst snd].
  - rewrite (spaced_same_length _ _ (escape_text_is_spaced _) Hlen).
    now rewrite String.eqb_refl.
  - destruct (String.eqb_spec (escape_text (String c text)) (String c text))
      as [Heq|_]; [|reflexivity].
    rewrite Heq in Hlen. contradiction.
Qed.

(** X3.  Escaping is idempotent on texts without a run of three of a
    token character or of opening braces: escaping the result again
    returns it unchanged. *)
Theorem escape_idempotent (text : string) :
  free_of overlapping_brace_runs text = true ->
  escape_text (escape_text text) = escape_text text.
Proof.
  intros Hruns.
  assert (Hr : free_of overlapping_runs text = true
               /\ contains "{{{" text = false).
  { unfold free_of, overlapping_brace_runs in Hruns.
    rewrite forallb_app in Hruns. apply andb_prop in Hruns as [H1 H2].
    split; [exact H1|]. cbn [forallb] in H2.
    apply andb_prop in H2 as [H2 _]. now apply negb_true_iff in H2. }
  destruct Hr as [Hr Hb].
  pose proof (escape_text_free text Hr) as Hfree.
  rewrite (escape_text_stage (escape_text text)).
  rewrite (stage_absent _ Hfree 7).
  rewrite (escape_text_stage text) in *.
  destruct (contains "{{" (stage 7 text) && contains "}}" (stage 7 text))
    eqn:Hboth.
  - destruct (has_cloze (stage 7 text)) eqn:Hcl; cbn [negb] in *.
    + rewrite Hboth, Hcl. reflexivity.
    + assert (Hno : contains "{{" (replace "}}" "} }"
                                      (replace "{{" "{ {" (stage 7 text)))
                    = false).
      { apply (not_contains_spaced _ (replace "{{" "{ {" (stage 7 text)));
          [reflexivity|apply spaced_replace; repeat constructor|].
        destruct (contains "{{" (replace "{{" "{ {" (stage 7 text))) eqn:Hc;
          [|reflexivity].
        apply (doubled_residue "{" eq_refl) in Hc.
        assert (Hsp : spaced text (stage 7 text))
          by (apply (stage_spaced 0 7); lia).
        rewrite (contains_spaced "{{{" _ _ eq_refl Hsp Hc) in Hb.
        discriminate. }
      rewrite Hno. reflexivity.
  - rewrite Hboth. reflexivity.
Qed.

Lemma escape_idempotent_witness :
  escape_text (escape_text "a::b >> {{c") = escape_text "a::b >> {{c".
Proof. apply escape_idempotent. reflexivity. Defined.

End EscaperMore.

(** ** Cloze spans and delimiters under escaping *)

Section SpansAndDelimiters.

Import PyStr.

Lemma has_cloze_cons c s : has_cloze s = true -> has_cloze (String c s) = true.
Proof. intros H. cbn [has_cloze]. rewrite H. apply orb_true_r. Qed.

Lemma spaced_in_refl s : spaced_in s s.
Proof. induction s; constructor; assumption. Qed.

Lemma spaced_in_app p s t :
  spaced_in s t -> spaced_in (p +:+ s) (p +:+ t).
Proof.
  intros H. induction p as [|c p IH]; rewrite ?app_empty, ?app_cons;
    [assumption|now constructor].
Qed.

Lemma spaced_in_head c s t :
  spaced_in (String c s) t -> exists t', t = String c t'.
Proof. intros H. inversion H; subst; eauto. Qed.

Lemma cloze_tail_spaced_in s t :
  spaced_in s t ->
  forall seen, cloze_tail seen s = true -> cloze_tail seen t = true.
Proof.
  induction 1 as [|c s t H IH|c d s t Hc Hd H IH]; intros seen Hs.
  - exact Hs.
  - cbn [cloze_tail] in *. destruct (Ascii.eqb c "}") eqn:Hb; [|now apply IH].
    apply andb_prop in Hs as [-> Hs]. cbn [andb].
    destruct s as [|x s]; [discriminate|]. cbn [startswith] in Hs.
    apply andb_prop in Hs as [Hx _]. apply Ascii.eqb_eq in Hx. subst x.
    inversion H; subst; [reflexivity|discriminate].
  - assert (Hcb : Ascii.eqb c "}" = false).
    { unfold is_brace in Hc. now apply orb_false_elim in Hc as [_ ?]. }
    cbn [cloze_tail] in Hs. rewrite Hcb in Hs.
    change (cloze_tail seen (String c (String " " (String d t))))
      with (if Ascii.eqb c "}" then seen && startswith "}" (String " " (String d t))
            else cloze_tail true (String d t)).
    rewrite Hcb. now apply IH.
Qed.

Lemma span_here_spaced_in s t :
  spaced_in s t ->
  startswith "{{" s && cloze_tail false (drop 2 s) = true ->
  startswith "{{" t && cloze_tail false (drop 2 t) = true.
Proof.
  intros H Hs. apply andb_prop in Hs as [Hst Hct].
  destruct s as [|a [|b u]]; try discriminate.
  cbn [startswith] in Hst. apply andb_prop in Hst as [Ha Hst].
  apply andb_prop in Hst as [Hb _].
  apply Ascii.eqb_eq in Ha, Hb. subst a b.
  inversion H as [|? ? t1 H1|]; subst; [|discriminate].
  inversion H1 as [|? ? t2 H2|]; subst; [|discriminate].
  change (cloze_tail false t2 = true). change (cloze_tail false u = true) in Hct.
  now apply (cloze_tail_spaced_in u t2 H2).
Qed.

Lemma has_cloze_spaced_in s t :
  spaced_in s t -> has_cloze s = true -> has_cloze t = true.
Proof.
  induction 1 as [|c s t H IH|c d s t Hc Hd H IH]; intros Hs.
  - exact Hs.
  - cbn [has_cloze] in Hs. apply orb_prop in Hs as [Hs|Hs].
    + cbn [has_cloze].
      rewrite (span_here_spaced_in (String c s) (String c t)); auto using spaced_in.
    + apply has_cloze_cons. auto.
  - cbn [has_cloze] in Hs. apply orb_prop in Hs as [Hs|Hs].
    + exfalso. cbn [startswith] in Hs. unfold is_brace in Hc.
      apply orb_false_elim in Hc as [Hc _].
      rewrite (Ascii.eqb_sym "{" c), Hc in Hs. discriminate.
    + apply has_cloze_cons, has_cloze_cons. now apply IH.
Qed.

(** Replacing [a·b·tail] by [a·blank·b·tail], for [a] and [b] no braces. *)
Lemma spaced_in_replace_from a b tail s :
  is_brace a = false -> is_brace b = false ->
  spaced_in s (replace_from (String a (String b tail))
                 (String a (String " " (String b tail))) 0 s).
Proof.
  intros Ha Hb. induction s as [s IH] using string_length_ind.
  destruct s as [|c s]; [constructor|].
  destruct (startswith (String a (String b tail)) (String c s)) eqn:Hst.
  - rewrite replace_from_hit by assumption.
    rewrite (startswith_split _ _ Hst) at 1.
    rewrite !app_cons. apply spaced_in_ins; try assumption.
    rewrite <- !app_cons. apply spaced_in_app.
    change (drop (String.length (String a (String b tail))) (String c s))
      with (drop (String.length (String b tail)) s).
    replace (String.length (String a (String b tail)) - 1)
      with (String.length (String b tail)) by (simpl; lia).
    apply IH. pose proof (length_drop (String.length (String b tail)) s).
    cbn [String.length] in *. lia.
  - rewrite replace_from_miss by assumption.
    constructor. apply IH. simpl. lia.
Qed.

Lemma stage_has_cloze text n :
  has_cloze text = true -> has_cloze (stage n text) = true.
Proof.
  intros H. induction n as [|n IH]; [exact H|].
  destruct (nth_error replacements n) as [[o r]|] eqn:Hn.
  - rewrite (stage_S _ _ _ _ Hn). revert IH.
    apply has_cloze_spaced_in.
    do 7 (destruct n as [|n];
          [injection Hn as <- <-;
           apply spaced_in_replace_from; reflexivity|]).
    destruct n; discriminate.
  - apply nth_error_None in Hn. unfold stage in *.
    rewrite firstn_all2 by (simpl in *; lia).
    rewrite firstn_all2 in IH by (simpl in *; lia). exact IH.
Qed.

(** X4.  A text with a well-formed cloze span still has one after
    escaping, and none of its braces is touched: the escaper stops after
    the seven token replacements. *)
Theorem escape_keeps_cloze_span (text : string) :
  has_cloze text = true ->
  has_cloze (escape_text text) = true /\ escape_text text = stage 7 text.
Proof.
  intros H. pose proof (stage_has_cloze text 7 H) as H7.
  rewrite escape_text_stage, H7. cbn [negb].
  destruct (_ && _); auto.
Qed.

Lemma escape_keeps_cloze_span_witness :
  has_cloze (escape_text "{{a::b}} and }}") = true.
Proof. apply escape_keeps_cloze_span. reflexivity. Defined.

(** *** Splitting an emitted line at its delimiter *)

Lemma startswith_before_blank tok f x :
  no_space tok = true ->
  startswith tok (f +:+ String " " x) = true -> startswith tok f = true.
Proof.
  revert f. induction tok as [|a tok IH]; intros f Hns H; [reflexivity|].
  cbn [no_space] in Hns. apply andb_prop in Hns as [Ha Hns].
  destruct f as [|c f]; rewrite ?app_empty, ?app_cons in H;
    cbn [startswith] in *; apply andb_prop in H as [Hc H].
  - rewrite Hc in Ha. discriminate.
  - rewrite Hc. cbn [andb]. now apply IH.
Qed.

Lemma startswith_app p s : startswith p (p +:+ s) = true.
Proof.
  induction p as [|a p IH]; [reflexivity|].
  rewrite app_cons. cbn [startswith]. now rewrite Ascii.eqb_refl.
Qed.

Lemma drop_app p s : drop (String.length p) (p +:+ s) = s.
Proof. induction p as [|a p IH]; [reflexivity|]. rewrite app_cons. exact IH. Qed.

Lemma find_split_delimiter a tok f rest :
  no_space (String a tok) = true ->
  contains (String a tok) f = false ->
  find_split (String a tok) (f +:+ String " " (String a tok +:+ rest))
  = Some (f +:+ " ", rest).
Proof.
  intros Hns. induction f as [|c f IH]; intros Hc.
  - rewrite !app_empty.
    change (find_split (String a tok) (String " " (String a tok +:+ rest)))
      with (if startswith (String a tok) (String " " (String a tok +:+ rest))
            then Some ("", drop (String.length (String a tok))
                             (String " " (String a tok +:+ rest)))
            else match find_split (String a tok) (String a tok +:+ rest) with
                 | Some (x, y) => Some (String " " x, y)
                 | None => None
                 end).
    assert (H0 : startswith (String a tok) (String " " (String a tok +:+ rest))
                 = false).
    { cbn [startswith no_space] in *. apply andb_prop in Hns as [Ha _].
      apply negb_true_iff in Ha. now rewrite Ha. }
    rewrite H0.
    assert (H1 : find_split (String a tok) (String a tok +:+ rest)
                 = Some ("", rest)).
    { destruct (String a tok +:+ rest) eqn:E; [discriminate|].
      cbn [find_split]. rewrite <- E, startswith_app, drop_app. reflexivity. }
    rewrite H1. reflexivity.
  - cbn [contains] in Hc. apply orb_false_elim in Hc as [Hst Hc].
    rewrite app_cons. cbn [find_split].
    assert (H0 : startswith (String a tok)
                   (String c (f +:+ String " " (String a tok +:+ rest)))
                 = false).
    { destruct (startswith _ (String c (f +:+ _))) eqn:E; [|reflexivity].
      rewrite <- app_cons in E.
      apply (startswith_before_blank _ _ _ Hns) in E. congruence. }
    rewrite H0, (IH Hc). reflexivity.
Qed.

(** X5.  When the delimiter of a card is one of the tokens the escaper
    breaks up and the front has no run of three token characters, splitting
    the emitted line once at the delimiter gives back the escaped front and
    the escaped back, each with the blank that separates it from the
    delimiter. *)
Theorem format_card_splits_at_delimiter (c : Flashcard) (st : FormattingStats)
    (tok : string) :
  token_delimiter (card_type c) (direction c) = Some tok ->
  free_of overlapping_runs (front c) = true ->
  fst (_format_card c st)
  = Some (escape_text (front c) +:+ " " +:+ tok +:+ " "
          +:+ escape_text (back c))
  /\ split_once tok (fstr (fst (_format_card c st)))
     = Some (escape_text (front c) +:+ " ", " " +:+ escape_text (back c)).
Proof.
  intros Htok Hruns.
  pose proof (escape_text_free _ Hruns) as Hfree.
  unfold free_of, tokens in Hfree. cbn [map fst replacements forallb] in Hfree.
  repeat (apply andb_prop in Hfree as [?H Hfree]).
  repeat match goal with
         | H : negb _ = true |- _ => apply negb_true_iff in H
         end.
  unfold _format_card. rewrite !bind_fst.
  destruct (card_type c), (direction c); try discriminate;
    injection Htok as <-; cbn [ret fst fstr];
    rewrite !escape_special_chars_text;
    (split; [reflexivity|]); unfold split_once;
    match goal with
    | |- find_split (String ?a ?t) _ = _ =>
        change (find_split (String a t)
                  (escape_text (front c)
                   +:+ String " " (String a t +:+ (" " +:+ escape_text (back c))))
                = Some (escape_text (front c) +:+ " ",
                        " " +:+ escape_text (back c)))
    end;
    apply find_split_delimiter; (reflexivity || assumption).
Qed.

Lemma format_card_splits_at_delimiter_witness :
  split_once ">>"
    (fstr (fst (_format_card (card BASIC "A::B" "C" None FORWARD []
                                "dc263e26")
                  fresh_stats)))
  = Some ("A: :B ", " C").
Proof.
  apply (format_card_splits_at_delimiter
           (card BASIC "A::B" "C" None FORWARD [] "dc263e26") fresh_stats ">>");
    reflexivity.
Defined.

End SpansAndDelimiters.

(** ** Documents as a whole *)

Section Documents.

Import PyStr.

Lemma flat_line_entry c st : fst (flat_line c st) = [flat_entry c].
Proof.
  unfold flat_line, flat_entry. rewrite bind_fst, format_card_run.
  destruct (tags c); reflexivity.
Qed.

Lemma flat_lines cards st :
  fst (for_each flat_line cards st) = map flat_entry cards.
Proof.
  revert st. induction cards as [|c cards IH]; intros st;
    cbn [for_each map]; [reflexivity|].
  rewrite !bind_fst. cbn [ret fst]. now rewrite IH, flat_line_entry.
Qed.

Lemma group_by_parent_roots cards :
  Forall (fun c => truthy (parent c) = None) cards ->
  forall h roots, group_by_parent cards h roots = (h, roots ++ cards).
Proof.
  induction 1 as [|c cards Hc Hcs IH]; intros h roots; cbn [group_by_parent].
  - now rewrite app_nil_r.
  - rewrite Hc, IH, <- app_assoc. reflexivity.
Qed.

Lemma root_block_no_children c st :
  fst (root_block [] c st) = [top_line_of c].
Proof.
  unfold root_block, top_line_of. rewrite bind_fst, format_card_run.
  reflexivity.
Qed.

Lemma root_lines_no_children roots st :
  fst (for_each (root_block []) roots st) = map top_line_of roots.
Proof.
  revert st. induction roots as [|c roots IH]; intros st;
    cbn [for_each map]; [reflexivity|].
  rewrite !bind_fst. cbn [ret fst]. now rewrite IH, root_block_no_children.
Qed.

(** X7.  When no card has a parent, [output_lines] of
    [_format_hierarchical] has one top-level entry per card, in the order
    of the input: [# ] and the interpolated value of [_format_card], which
    takes several lines of the document for a multi-line card and reads
    [# None] for a list card without items.  For cards without tags the
    document is the flat document. *)
Theorem format_hierarchical_without_parents (cards : list Flashcard)
    (st : FormattingStats) :
  Forall (fun c => truthy (parent c) = None) cards ->
  fst (hierarchical_lines cards st) = map top_line_of cards
  /\ (Forall (fun c => tags c = []) cards ->
      fst (_format_hierarchical cards st) = fst (_format_flat cards st)).
Proof.
  intros Hroot.
  assert (Hl : fst (hierarchical_lines cards st) = map top_line_of cards).
  { unfold hierarchical_lines. rewrite (group_by_parent_roots cards Hroot).
    cbn [app]. rewrite !bind_fst. cbn [remaining_blocks ret fst].
    now rewrite root_lines_no_children, app_nil_r. }
  split; [exact Hl|]. intros Htags.
  unfold _format_hierarchical, _format_flat. rewrite !bind_fst. cbn [ret fst].
  rewrite Hl, flat_lines. f_equal.
  clear Hl Hroot. induction Htags as [|c cards Hc Hcs IH]; [reflexivity|].
  cbn [map]. rewrite IH. unfold flat_entry, top_line_of. now rewrite Hc.
Qed.

Lemma format_hierarchical_without_parents_witness :
  fst (hierarchical_lines [ml_parent_card; chain_root] fresh_stats)
  = map top_line_of [ml_parent_card; chain_root].
Proof.
  apply format_hierarchical_without_parents. repeat constructor.
Defined.

(** X8.  No card is dropped from the hierarchical document: for a card
    without parent [output_lines] holds its top-level entry, for a card
    with a parent its child entry, each built from the interpolated value
    of [_format_card] (the text [None] for a list card without items). *)
Theorem format_hierarchical_drops_no_card (cards : list Flashcard)
    (c : Flashcard) (st : FormattingStats) :
  In c cards ->
  In (match truthy (parent c) with
      | None => top_line_of c
      | Some _ => child_line_of c
      end)
     (fst (hierarchical_lines cards st)).
Proof. apply hierarchical_lines_every_card. Qed.

Lemma format_hierarchical_drops_no_card_witness :
  In (child_line_of chain_grandchild)
     (fst (hierarchical_lines [chain_root; chain_child; chain_grandchild]
             fresh_stats)).
Proof.
  apply (format_hierarchical_drops_no_card
           [chain_root; chain_child; chain_grandchild] chain_grandchild).
  right. right. left. reflexivity.
Defined.

(** *** Statistics *)

Lemma counter_fold keys :
  forall (m : gmap string nat) k,
    fold_left (fun m k => <[k := S (default 0 (m !! k))]> m) keys m !! k
    = match count_occ string_dec keys k with
      | O => m !! k
      | S n => Some (default 0 (m !! k) + S n)
      end.
Proof.
  induction keys as [|x keys IH]; intros m k; cbn [fold_left count_occ].
  - reflexivity.
  - rewrite IH. destruct (string_dec x k) as [->|Hne].
    + rewrite lookup_insert_eq. cbn [default from_option id].
      destruct (count_occ string_dec keys k); f_equal; unfold id; lia.
    + rewrite lookup_insert_ne by assumption. reflexivity.
Qed.

Lemma counter_lookup keys k :
  counter keys !! k
  = match count_occ string_dec keys k with
    | O => None
    | S n => Some (S n)
    end.
Proof.
  unfold counter. rewrite counter_fold, lookup_empty.
  destruct (count_occ string_dec keys k); reflexivity.
Qed.

Lemma size_list_to_set_le (l : list string) :
  size (list_to_set l : gset string) <= List.length l.
Proof.
  induction l as [|x l IH]; cbn [list_to_set List.length].
  - rewrite size_empty. lia.
  - rewrite size_union_alt, size_singleton.
    assert (size (list_to_set l ∖ {[x]} : gset string)
            <= size (list_to_set l : gset string))
      by (apply subseteq_size; set_solver).
    lia.
Qed.

Lemma length_omap_le {A B} (f : A -> option B) (l : list A) :
  List.length (omap f l) <= List.length l.
Proof.
  induction l as [|x l IH]; cbn; [lia|]. destruct (f x); cbn; lia.
Qed.

(** X9.  The statistics after [format_cards] are those of this call alone:
    document and statistics do not depend on the statistics left by earlier
    calls.  For a non-empty list the total is the number of cards, the
    per-type entry of a type value is the number of cards of that type (no
    entry for a type without cards), and the number of hierarchy levels is
    at most the number of cards. *)
Theorem format_cards_statistics (cards : list Flashcard) (hierarchy : bool)
    (st st' : FormattingStats) :
  format_cards cards hierarchy st = format_cards cards hierarchy st'
  /\ (cards <> [] ->
      total_cards (snd (format_cards cards hierarchy st)) = List.length cards
      /\ (forall ty,
            cards_by_type (snd (format_cards cards hierarchy st))
              !! CardType_value ty
            = match count_occ string_dec
                      (map (fun c => CardType_value (card_type c)) cards)
                      (CardType_value ty) with
              | O => None
              | S n => Some (S n)
              end)
      /\ hierarchical_levels (snd (format_cards cards hierarchy st))
         <= total_cards (snd (format_cards cards hierarchy st))).
Proof.
  split; [reflexivity|]. intros Hne.
  destruct cards as [|c cards]; [contradiction|].
  unfold format_cards. rewrite !bind_fst.
  cbn [fst snd _calculate_final_stats ret total_cards cards_by_type
         hierarchical_levels].
  repeat split.
  - intros ty. apply counter_lookup.
  - unfold unique_parents.
    etransitivity; [apply size_list_to_set_le|apply length_omap_le].
Qed.

Lemma format_cards_statistics_witness :
  total_cards (snd (format_cards [ml_parent_card; ml_child_card] true fresh_stats))
  = 2.
Proof.
  apply (format_cards_statistics [ml_parent_card; ml_child_card] true
           fresh_stats fresh_stats).
  discriminate.
Defined.

End Documents.

(** ** The validator on the formatter's documents *)

Section Validator.

Import PyStr.

Lemma startswith_app_l p s x :
  startswith p s = true -> startswith p (s +:+ x) = true.
Proof.
  revert s. induction p as [|a p IH]; intros s H; [reflexivity|].
  destruct s as [|c s]; [discriminate|].
  rewrite app_cons. cbn [startswith] in *.
  apply andb_prop in H as [-> H]. now rewrite IH.
Qed.

Lemma join_head sep l ls :
  startswith "# " l = true -> startswith "# " (join sep (l :: ls)) = true.
Proof.
  intros H. destruct ls as [|l2 ls]; [exact H|].
  cbn [join]. now apply startswith_app_l.
Qed.

Lemma header_from_hash s :
  startswith "# " s = true -> header_from true s = true.
Proof.
  intros H. destruct s as [|c s]; [discriminate|].
  cbn [startswith] in H. apply andb_prop in H as [Hc H].
  destruct s as [|d s]; [discriminate|].
  cbn [startswith] in H. apply andb_prop in H as [Hd _].
  apply Ascii.eqb_eq in Hc, Hd. subst c d. reflexivity.
Qed.

Lemma root_block_head h c st :
  exists ls, fst (root_block h c st)
             = ("# " +:+ fstr (fst (_format_card c st))) :: ls.
Proof.
  unfold root_block. rewrite bind_fst.
  destruct (_ || _); [rewrite bind_fst|]; cbn [ret fst]; eauto.
Qed.

Lemma hierarchical_lines_head cards st :
  cards <> [] ->
  exists l ls, fst (hierarchical_lines cards st) = l :: ls
               /\ startswith "# " l = true.
Proof.
  intros Hne. unfold hierarchical_lines.
  destruct (group_by_parent_spec cards [] [] (List.NoDup_nil _))
    as (_ & Hroots & Hkids).
  destruct (group_by_parent cards [] []) as [h roots]. cbn [fst snd] in *.
  rewrite !bind_fst. cbn [ret fst].
  destruct roots as [|r roots].
  - cbn [for_each ret fst snd app].
    destruct h as [|[p cs] h].
    + exfalso. destruct cards as [|c cards]; [contradiction|].
      destruct (truthy (parent c)) as [p|] eqn:Hp.
      * apply (Hkids c p). right. split; [now left|exact Hp].
      * apply (Hroots c). right. split; [now left|exact Hp].
    + cbn [remaining_blocks].
      destruct (decide (p ∈ ∅)) as [Hin|_];
        [now apply not_elem_of_empty in Hin|].
      rewrite !bind_fst. cbn [ret fst app]. eauto.
  - cbn [for_each]. rewrite !bind_fst. cbn [ret fst].
    destruct (root_block_head h r st) as [ls ->]. cbn [app]. eauto.
Qed.

(** X10.  Every document that [format_cards] produces for a non-empty list
    of cards passes the header check of [validate_remnote_format]: it
    starts with a hash sign and a blank. *)
Theorem formatted_document_has_headers (cards : list Flashcard)
    (hierarchy : bool) (st : FormattingStats) :
  cards <> [] ->
  startswith "# " (fst (format_cards cards hierarchy st)) = true
  /\ has_headers (validate_remnote_format (fst (format_cards cards hierarchy st)))
     = true.
Proof.
  intros Hne.
  assert (H : startswith "# " (fst (format_cards cards hierarchy st)) = true).
  { destruct cards as [|c cards]; [contradiction|].
    unfold format_cards. rewrite !bind_fst. cbn [ret fst snd].
    destruct hierarchy.
    - unfold _format_hierarchical. rewrite bind_fst. cbn [ret fst].
      destruct (hierarchical_lines_head (c :: cards) (snd (_reset_stats st)) Hne)
        as (l & ls & -> & Hl).
      now apply join_head.
    - unfold _format_flat. rewrite bind_fst. cbn [ret fst].
      rewrite flat_lines. cbn [map]. apply join_head.
      unfold flat_entry. destruct (tags c); reflexivity. }
  split; [exact H|]. cbn [validate_remnote_format has_headers].
  now apply header_from_hash.
Qed.

Lemma formatted_document_has_headers_witness :
  has_headers (validate_remnote_format
                 (fst (format_cards [chain_child] true fresh_stats))) = true.
Proof.
  apply (formatted_document_has_headers [chain_child] true fresh_stats).
  discriminate.
Defined.

(** *** The cloze check *)

Lemma count_from_contains a sub s :
  contains (String a sub) s = true -> 1 <= count_from (String a sub) 0 s.
Proof.
  induction s as [|c s IH]; intros H; [discriminate|].
  cbn [contains] in H. cbn [count_from].
  destruct (startswith (String a sub) (String c s)); [lia|].
  now apply IH.
Qed.

Lemma cloze_end_tail s :
  forall seen n, cloze_end seen s = Some n -> cloze_tail seen s = true.
Proof.
  induction s as [|c s IH]; intros seen n H; [discriminate|].
  cbn [cloze_end cloze_tail] in *.
  destruct (Ascii.eqb c "}").
  - destruct (seen && startswith "}" s); [reflexivity|discriminate].
  - destruct (cloze_end true s) as [m|] eqn:Hm; [|discriminate].
    now apply (IH true m).
Qed.

Lemma count_cloze_has s :
  forall skip, 1 <= count_cloze skip s -> has_cloze s = true.
Proof.
  induction s as [|c s IH]; intros skip H; [cbn in H; lia|].
  cbn [count_cloze] in H. destruct skip as [|k].
  - destruct (startswith "{{" (String c s)) eqn:Hst.
    + destruct (cloze_end false (drop 2 (String c s))) as [n|] eqn:Hn.
      * cbn [has_cloze]. rewrite Hst, (cloze_end_tail _ _ _ Hn). reflexivity.
      * apply has_cloze_cons. now apply (IH 0).
    + apply has_cloze_cons. now apply (IH 0).
  - apply has_cloze_cons. now apply (IH k).
Qed.

(** X11.  A text that passes [_validate_cloze_syntax] and contains an
    opening brace pair contains a well-formed cloze span; a text without
    brace pairs passes. *)
Theorem validate_cloze_syntax_sound (text : string) :
  (_validate_cloze_syntax text = true ->
   contains "{{" text = true -> has_cloze text = true)
  /\ (contains "{{" text = false -> contains "}}" text = false ->
      _validate_cloze_syntax text = true).
Proof.
  split.
  - unfold _validate_cloze_syntax. intros Hv Hc.
    apply andb_prop in Hv as [_ Hm]. apply Nat.eqb_eq in Hm.
    apply count_from_contains in Hc.
    apply (count_cloze_has text 0). lia.
  - intros Ho Hc. unfold _validate_cloze_syntax.
    assert (Hz : forall a sub s, contains (String a sub) s = false ->
                                 count_from (String a sub) 0 s = 0).
    { intros a sub s. induction s as [|c s IH]; intros H; [reflexivity|].
      cbn [contains] in H. apply orb_false_elim in H as [Hst H].
      cbn [count_from]. rewrite Hst. now apply IH. }
    assert (Hk : forall s, contains "{{" s = false -> count_cloze 0 s = 0).
    { intros s. induction s as [|c s IH]; intros H; [reflexivity|].
      cbn [contains] in H. apply orb_false_elim in H as [Hst H].
      cbn [count_cloze]. rewrite Hst. now apply IH. }
    now rewrite (Hz _ _ _ Ho), (Hz _ _ _ Hc), (Hk _ Ho).
Qed.

Lemma validate_cloze_syntax_sound_witness :
  has_cloze "Uses {{batch}} and {{stream}} processing" = true.
Proof.
  apply validate_cloze_syntax_sound; reflexivity.
Defined.

End Validator.

(** ** More on the generator *)

Section GeneratorSteps.

Import CardGenerator.

(** *** Relations that every step of a computation respects *)

Section Preorder.

Variable R : State -> State -> Prop.
Hypothesis R_refl : forall st, R st st.
Hypothesis R_trans : forall a b c, R a b -> R b c -> R a c.

Lemma steps_ret {A} (a : A) : steps R (ret a).
Proof. intros st. apply R_refl. Qed.

Lemma steps_bind {A B} (m : Gen A) (k : A -> Gen B) :
  steps R m -> (forall a, steps R (k a)) -> steps R (bind m k).
Proof.
  intros Hm Hk st. rewrite bind_fst.
  eapply R_trans; [apply Hm|apply Hk].
Qed.

Lemma steps_for_each {A B} (body : A -> Gen (list B)) (l : list A) :
  (forall x, steps R (body x)) -> steps R (for_each body l).
Proof.
  intros Hbody. induction l as [|x l IH]; cbn [for_each].
  - apply steps_ret.
  - apply steps_bind; [apply Hbody|]. intros ys.
    apply steps_bind; [apply IH|]. intros zs. apply steps_ret.
Qed.

Hypothesis R_count_type : forall k, steps R (count_type k).

Ltac walk :=
  repeat first
    [ apply steps_ret
    | apply R_count_type
    | (apply steps_bind; [|intros ?])
    | (apply steps_for_each; intros ?)
    | match goal with
      | |- steps _ (if ?b then _ else _) => destruct b
      | |- steps _ (match ?x with _ => _ end) => destruct x
      end ].

Lemma steps_basic_loop env topic ctx sep lines cards :
  steps R (basic_loop env topic ctx sep lines cards).
Proof.
  revert cards. induction lines as [|line lines IH]; intros cards;
    cbn [basic_loop]; [apply steps_ret|].
  destruct (PyStr.contains sep line); [|apply IH].
  destruct (PyStr.split_once sep line) as [[f b]|]; [|apply steps_ret].
  apply steps_bind; [apply R_count_type|]. intros u. apply IH.
Qed.

Lemma steps_descriptor env topic ctx :
  steps R (_generate_descriptor_cards env topic ctx).
Proof. unfold _generate_descriptor_cards. walk. Qed.

Lemma steps_multiline env topic ctx :
  steps R (_generate_multiline_cards env topic ctx).
Proof. unfold _generate_multiline_cards. walk. Qed.

Lemma steps_list_answer env topic ctx :
  steps R (_generate_list_answer_cards env topic ctx).
Proof. unfold _generate_list_answer_cards. walk. Qed.

Lemma steps_multiple_choice env topic ctx :
  steps R (_generate_multiple_choice_cards env topic ctx).
Proof. unfold _generate_multiple_choice_cards. walk. Qed.

Hypothesis R_call_llm : forall env prompt temp, steps R (call_llm env prompt temp).

Lemma steps_concept env topic ctx :
  steps R (_generate_concept_card env topic ctx).
Proof.
  unfold _generate_concept_card.
  repeat first
    [ apply steps_ret | apply R_count_type | apply R_call_llm
    | (apply steps_bind; [|intros ?])
    | match goal with
      | |- steps _ (if ?b then _ else _) => destruct b
      | |- steps _ (match ?x with _ => _ end) => destruct x
      end ].
Qed.

Lemma steps_basic env topic ctx :
  steps R (_generate_basic_cards env topic ctx).
Proof.
  unfold _generate_basic_cards.
  destruct (negb _); [apply steps_ret|].
  destruct (get_config _ _); [|apply steps_ret].
  destruct (format_prompt _ _ _); [|apply steps_ret].
  apply steps_bind; [apply R_call_llm|]. intros [response|].
  - destruct (as_str _) as [sep|]; [|apply steps_ret].
    destruct (slice_to_value _ _) as [first_lines|]; [|apply steps_ret].
    apply steps_basic_loop.
  - apply steps_ret.
Qed.

Lemma steps_cloze env topic ctx :
  steps R (_generate_cloze_cards env topic ctx).
Proof.
  unfold _generate_cloze_cards.
  repeat first
    [ apply steps_ret | apply R_count_type | apply R_call_llm
    | (apply steps_bind; [|intros ?])
    | (apply steps_for_each; intros ?)
    | match goal with
      | |- steps _ (if ?b then _ else _) => destruct b
      | |- steps _ (match ?x with _ => _ end) => destruct x
      end ].
Qed.

End Preorder.

(** *** What a computation returns *)

Lemma yields_ret P cards : Forall P cards -> yields P (ret cards).
Proof. intros H st. exact H. Qed.

Lemma yields_bind {A} P (m : Gen A) (k : A -> Gen (list Flashcard)) :
  (forall a, yields P (k a)) -> yields P (bind m k).
Proof. intros Hk st. rewrite bind_fst. apply Hk. Qed.

Lemma yields_for_each {A} P (body : A -> Gen (list Flashcard)) (l : list A) :
  (forall x, yields P (body x)) -> yields P (for_each body l).
Proof. intros Hbody st. apply for_each_Forall. intros x st'. apply Hbody. Qed.

Lemma submit_all_Forall P candidates st :
  Forall P candidates -> Forall P (fst (submit_all candidates st)).
Proof.
  revert st. induction candidates as [|c cs IH]; intros st H.
  - constructor.
  - rewrite submit_all_cons. cbn [fst]. inversion H; subst.
    apply Forall_app. split; [destruct (fst (submit c st)); auto|auto].
Qed.

Lemma submit_all_length candidates st :
  List.length (fst (submit_all candidates st)) <= List.length candidates.
Proof.
  revert st. induction candidates as [|c cs IH]; intros st; [cbn; lia|].
  rewrite submit_all_cons. cbn [fst]. rewrite length_app.
  specialize (IH (snd (submit c st))).
  destruct (fst (submit c st)); cbn [List.length]; lia.
Qed.

Lemma yields_when P flag m : yields P m -> yields P (when flag m).
Proof.
  intros Hm st. destruct flag; cbn [when]; [|constructor].
  rewrite bind_fst. apply submit_all_Forall. apply Hm.
Qed.

Lemma at_most_when n flag m : at_most n m -> at_most n (when flag m).
Proof.
  intros Hm st. destruct flag; cbn [when]; [|cbn; lia].
  rewrite bind_fst. etransitivity; [apply submit_all_length|apply Hm].
Qed.

End GeneratorSteps.

(** ** Fingerprints, counters and kinds over a whole run *)

Section GeneratorRuns.

Import CardGenerator.

Lemma same_refl {X} (f : State -> X) st : same f st st.
Proof. reflexivity. Qed.

Lemma same_trans {X} (f : State -> X) a b c :
  same f a b -> same f b c -> same f a c.
Proof. unfold same. congruence. Qed.

Lemma same_bind {X A B} (f : State -> X) (m : Gen A) (k : A -> Gen B) :
  steps (same f) m -> (forall a, steps (same f) (k a)) ->
  steps (same f) (bind m k).
Proof. apply steps_bind. apply same_trans. Qed.

(** The generators leave the fingerprints alone. *)
Lemma keeps_count_type k : steps (same generated_cards) (count_type k).
Proof. intros st. reflexivity. Qed.

Lemma keeps_call_llm env prompt temp :
  steps (same generated_cards) (call_llm env prompt temp).
Proof.
  intros st. unfold call_llm. destruct (llm_generate _ _ _ _); reflexivity.
Qed.

(** *** Accepted cards *)

Lemma accepts_ret pre : accepts_from pre (ret pre).
Proof. intros st0 st H. exact H. Qed.

Lemma accepts_keep_bind {A} pre (m : Gen A) (k : A -> Gen (list Flashcard)) :
  steps (same generated_cards) m ->
  (forall a, accepts_from pre (k a)) ->
  accepts_from pre (bind m k).
Proof.
  intros Hm Hk st0 st (Hg & Hnd & Hnew). rewrite bind_fst.
  apply Hk. repeat split; try assumption. now rewrite (Hm st).
Qed.

Lemma accepts_bind pre (m : Gen (list Flashcard))
    (k : list Flashcard -> Gen (list Flashcard)) :
  accepts_from [] m ->
  (forall a, accepts_from (pre ++ a) (k a)) ->
  accepts_from pre (bind m k).
Proof.
  intros Hm Hk st0 st (Hg & Hnd & Hnew). rewrite bind_fst.
  apply Hk.
  destruct (Hm st st) as (Hg1 & Hnd1 & Hnew1).
  { repeat split; [cbn; set_solver|constructor|intros c []]. }
  repeat split.
  - rewrite Hg1, Hg, map_app, list_to_set_app_L. set_solver.
  - rewrite map_app. apply List.NoDup_app; [exact Hnd|exact Hnd1|].
    intros h Hpre Ha. apply in_map_iff in Ha as (c & <- & Hc).
    apply (Hnew1 c Hc). rewrite Hg.
    apply elem_of_union_l, elem_of_list_to_set, list_elem_of_In. exact Hpre.
  - intros c Hc. apply in_app_or in Hc as [Hc|Hc]; [now apply Hnew|].
    intros Hin. apply (Hnew1 c Hc). rewrite Hg. now apply elem_of_union_r.
Qed.

Lemma accepts_submit_all candidates : accepts_from [] (submit_all candidates).
Proof.
  intros st0 st (Hg & _ & _).
  destruct (submit_all_session candidates st) as (_ & Hacc & Hnd & Hnew & _).
  assert (Heq : generated_cards st = generated_cards st0)
    by (rewrite Hg; cbn; set_solver).
  repeat split.
  - now rewrite Hacc, Heq.
  - exact Hnd.
  - intros c Hc. rewrite <- Heq. now apply Hnew.
Qed.

Lemma accepts_when flag m :
  steps (same generated_cards) m -> accepts_from [] (when flag m).
Proof.
  intros Hm. destruct flag; cbn [when]; [|apply accepts_ret].
  apply accepts_keep_bind; [exact Hm|]. intros cs. apply accepts_submit_all.
Qed.

Lemma accepts_ret_eq pre cards : cards = pre -> accepts_from pre (ret cards).
Proof. intros ->. apply accepts_ret. Qed.

Lemma accepts_own_cards env topic ctx :
  accepts_from [] (own_cards env topic ctx).
Proof.
  pose proof (@same_refl _ generated_cards) as Hr.
  pose proof (@same_trans _ generated_cards) as Ht.
  pose proof keeps_count_type as Hc. pose proof keeps_call_llm as Hl.
  unfold own_cards.
  apply accepts_keep_bind; [now apply steps_concept|]. intros cc.
  apply accepts_bind; [apply accepts_submit_all|]. intros c1.
  apply accepts_bind; [apply accepts_when; now apply steps_basic|]. intros c2.
  apply accepts_bind; [apply accepts_when; now apply steps_cloze|]. intros c3.
  apply accepts_bind; [apply accepts_when; now apply steps_descriptor|].
  intros c4.
  apply accepts_bind; [apply accepts_when; now apply steps_multiline|].
  intros c5.
  apply accepts_bind; [apply accepts_when; now apply steps_list_answer|].
  intros c6.
  apply accepts_bind; [apply accepts_when; now apply steps_multiple_choice|].
  intros c7.
  apply accepts_ret_eq. cbn [app]. now rewrite <- !app_assoc.
Qed.

Lemma accepts_for_each {A} (body : A -> Gen (list Flashcard)) (l : list A) :
  Forall (fun x => accepts_from [] (body x)) l ->
  accepts_from [] (for_each body l).
Proof.
  induction 1 as [|x l Hx Hl IH]; cbn [for_each]; [apply accepts_ret|].
  apply accepts_bind; [exact Hx|]. intros ys.
  apply accepts_bind; [exact IH|]. intros zs.
  apply accepts_ret_eq. reflexivity.
Qed.

Lemma accepts_topic_processed pre cards :
  cards = pre ->
  accepts_from pre (bind topic_processed (fun _ => ret cards)).
Proof.
  intros ->. apply accepts_keep_bind; [intros st; reflexivity|].
  intros u. apply accepts_ret.
Qed.

Lemma accepts_generate_cards env topic :
  forall ctx, accepts_from [] (generate_cards env topic ctx).
Proof.
  induction topic as [n c subs ex kc d IH] using Topic_ind'. intros ctx.
  rewrite generate_cards_unfold. cbn [name subtopics].
  apply accepts_bind; [apply accepts_own_cards|]. intros cards.
  apply accepts_bind.
  { apply accepts_for_each. eapply Forall_impl; [exact IH|].
    intros sub Hsub. apply Hsub. }
  intros subtopic_cards. apply accepts_topic_processed. reflexivity.
Qed.

Lemma accepts_from_nil m st :
  accepts_from [] m -> accepted_since st (fst (m st)) (snd (m st)).
Proof.
  intros H. apply H. repeat split; [cbn; set_solver|constructor|intros c []].
Qed.

(** X12.  The cards [generate_cards] returns for a topic tree carry pairwise
    different fingerprints, none of which the generator had seen before the
    call; afterwards the generator has seen exactly these and the earlier
    ones. *)
Theorem generate_cards_distinct_fingerprints (env : Env) (topic : Topic)
    (ctx : option string) (st : State) :
  List.NoDup (map source_hash (fst (generate_cards env topic ctx st)))
  /\ (forall c, In c (fst (generate_cards env topic ctx st)) ->
                source_hash c ∉ generated_cards st)
  /\ generated_cards (snd (generate_cards env topic ctx st))
     = list_to_set (map source_hash (fst (generate_cards env topic ctx st)))
       ∪ generated_cards st.
Proof.
  destruct (accepts_from_nil _ st (accepts_generate_cards env topic ctx))
    as (Hg & Hnd & Hnew).
  auto.
Qed.

End GeneratorRuns.

(** ** Counters of a run *)

Section GeneratorCounters.

Import CardGenerator.

Ltac same_leaf :=
  first [ (intros ?st; reflexivity)
        | (intros ?st; unfold call_llm;
           destruct (llm_generate _ _ _ _); reflexivity)
        | (intros ?st; unfold _is_unique_card;
           destruct (decide _); reflexivity) ].

Ltac same_walk :=
  repeat first
    [ apply steps_ret; apply same_refl
    | (apply same_bind; [|intros ?])
    | (apply steps_for_each;
       [apply same_refl|apply same_trans|intros ?])
    | (apply steps_basic_loop;
       [apply same_refl|apply same_trans|intros ?; same_leaf])
    | match goal with
      | |- steps _ (if ?b then _ else _) => destruct b
      | |- steps _ (match ?x with _ => _ end) => destruct x
      end
    | same_leaf ].

Lemma same_submit_all {X} (f : State -> X) candidates :
  (forall c, steps (same f) (_is_unique_card c)) ->
  (forall c, steps (same f) (_register_card c)) ->
  steps (same f) (submit_all candidates).
Proof.
  intros Hu Hr. unfold submit_all.
  apply steps_for_each; [apply same_refl|apply same_trans|]. intros c.
  apply same_bind; [|intros ok; apply steps_ret; apply same_refl].
  unfold submit. apply same_bind; [apply Hu|]. intros [|].
  - apply same_bind; [apply Hr|]. intros u. apply steps_ret, same_refl.
  - apply steps_ret, same_refl.
Qed.

(** *** Topics processed *)

Lemma own_cards_topics_processed env topic ctx :
  steps (same topics_processed) (own_cards env topic ctx).
Proof.
  unfold own_cards, when, _generate_concept_card, _generate_basic_cards,
    _generate_cloze_cards, _generate_descriptor_cards,
    _generate_multiline_cards, _generate_list_answer_cards,
    _generate_multiple_choice_cards.
  repeat first
    [ (apply same_submit_all; intros ?; same_leaf)
    | (apply same_bind; [|intros ?])
    | match goal with
      | |- steps _ (if ?b then _ else _) => destruct b
      | |- steps _ (match ?x with _ => _ end) => destruct x
      end
    | (apply steps_for_each;
       [apply same_refl|apply same_trans|intros ?])
    | (apply steps_basic_loop;
       [apply same_refl|apply same_trans|intros ?; same_leaf])
    | (apply steps_ret; apply same_refl)
    | same_leaf ].
Qed.

Lemma for_each_sum {A B} (f : State -> nat) (w : A -> nat)
    (body : A -> Gen (list B)) (l : list A) :
  Forall (fun x => forall st, f (snd (body x st)) = f st + w x) l ->
  forall st, f (snd (for_each body l st)) = f st + list_sum (map w l).
Proof.
  induction 1 as [|x l Hx Hl IH]; intros st; cbn [for_each map].
  - cbn. lia.
  - rewrite !bind_fst. cbn [ret snd]. rewrite IH, Hx.
    unfold list_sum. cbn [fold_right]. lia.
Qed.

Lemma generate_cards_topics_processed env topic :
  forall ctx st,
    topics_processed (snd (generate_cards env topic ctx st))
    = topics_processed st + S (count_below topic).
Proof.
  induction topic as [n c subs ex kc d IH] using Topic_ind'. intros ctx st.
  rewrite generate_cards_unfold. cbn [name subtopics].
  rewrite !bind_fst. cbn [ret snd topic_processed topics_processed].
  rewrite (for_each_sum topics_processed (fun t => S (count_below t))).
  - rewrite (own_cards_topics_processed env _ ctx st).
    cbn [count_below].
    assert (Hs : forall l : list Topic,
               list_sum (map (fun t => S (count_below t)) l)
               = List.length l + list_sum (map count_below l)).
    { unfold list_sum. induction l as [|t l IHl]; cbn [map fold_right List.length]; lia. }
    rewrite Hs. lia.
  - eapply Forall_impl; [exact IH|]. intros sub Hsub st'. apply Hsub.
Qed.

(** X13.  [generate_cards] raises [topics_processed] by the number of
    topics in the tree it is given: one for the topic and
    [count_topics_recursive] of [yaml_parser] for its subtopics. *)
Theorem generate_cards_counts_topics (env : Env) (topic : Topic)
    (ctx : option string) (st : State) :
  topics_processed (snd (generate_cards env topic ctx st))
  = topics_processed st + count_topics_recursive [topic].
Proof.
  rewrite generate_cards_topics_processed.
  unfold count_topics_recursive, list_sum. cbn [List.length map fold_right]. lia.
Qed.

(** *** Calls of the external capability *)

Lemma within_ret {A} f n (a : A) : within f n (ret a).
Proof. intros st. cbn. lia. Qed.

Lemma within_bind {A B} f n1 n2 (m : Gen A) (k : A -> Gen B) :
  within f n1 m -> (forall a, within f n2 (k a)) ->
  within f (n1 + n2) (bind m k).
Proof.
  intros Hm Hk st. rewrite bind_fst.
  specialize (Hm st). specialize (Hk (fst (m st)) (snd (m st))). lia.
Qed.

Lemma within_same {A} f n (m : Gen A) : steps (same f) m -> within f n m.
Proof. intros H st. rewrite (H st). lia. Qed.

Lemma within_weaken {A} f n n' (m : Gen A) :
  n <= n' -> within f n m -> within f n' m.
Proof. intros Hle H st. specialize (H st). lia. Qed.

Lemma within_call_llm env prompt temp :
  within llm_calls 1 (call_llm env prompt temp)
  /\ within llm_requests 1 (call_llm env prompt temp).
Proof.
  split; intros st; unfold call_llm;
    destruct (llm_generate _ _ _ _); cbn; lia.
Qed.

Lemma within_call_llm_field f env prompt temp :
  llm_field f -> within f 1 (call_llm env prompt temp).
Proof. intros [-> | ->]; apply within_call_llm. Qed.

Ltac llm_same :=
  match goal with
  | Hf : llm_field ?f |- _ =>
      destruct Hf as [-> | ->]; same_walk
  end.

Lemma within_concept f env topic ctx :
  llm_field f -> within f 1 (_generate_concept_card env topic ctx).
Proof.
  intros Hf. unfold _generate_concept_card.
  destruct (negb _); [apply within_ret|].
  destruct (get_config _ _); [|apply within_ret].
  destruct (format_prompt _ _ _); [|apply within_ret].
  apply (within_bind f 1 0); [now apply within_call_llm_field|].
  intros r. apply within_same. llm_same.
Qed.

Lemma within_basic f env topic ctx :
  llm_field f -> within f 1 (_generate_basic_cards env topic ctx).
Proof.
  intros Hf. unfold _generate_basic_cards.
  destruct (negb _); [apply within_ret|].
  destruct (get_config _ _); [|apply within_ret].
  destruct (format_prompt _ _ _); [|apply within_ret].
  apply (within_bind f 1 0); [now apply within_call_llm_field|].
  intros r. apply within_same. llm_same.
Qed.

Lemma within_cloze f env topic ctx :
  llm_field f -> within f 1 (_generate_cloze_cards env topic ctx).
Proof.
  intros Hf. unfold _generate_cloze_cards.
  destruct (negb _); [apply within_ret|].
  destruct (get_config _ _); [|apply within_ret].
  destruct (format_prompt _ _ _); [|apply within_ret].
  apply (within_bind f 1 0); [now apply within_call_llm_field|].
  intros r. apply within_same. llm_same.
Qed.

Lemma within_when f n flag m :
  llm_field f -> within f n m -> within f n (when flag m).
Proof.
  intros Hf Hm. destruct flag; cbn [when]; [|apply within_ret].
  replace n with (n + 0) by lia. apply within_bind; [exact Hm|].
  intros cs. apply within_same.
  destruct Hf as [-> | ->]; apply same_submit_all; intros ?; same_leaf.
Qed.

Lemma within_own_cards f env topic ctx :
  llm_field f -> within f 3 (own_cards env topic ctx).
Proof.
  intros Hf. unfold own_cards.
  apply (within_bind f 1 2); [now apply within_concept|]. intros cc.
  apply (within_bind f 0 2).
  { apply within_same.
    destruct Hf as [-> | ->]; apply same_submit_all; intros ?; same_leaf. }
  intros c1.
  apply (within_bind f 1 1); [apply within_when, within_basic; assumption|].
  intros c2.
  apply (within_bind f 1 0); [apply within_when, within_cloze; assumption|].
  intros c3.
  apply (within_bind f 0 0).
  { apply within_when; [assumption|]. apply within_same.
    unfold _generate_descriptor_cards. llm_same. }
  intros c4. apply (within_bind f 0 0).
  { apply within_when; [assumption|]. apply within_same.
    unfold _generate_multiline_cards. llm_same. }
  intros c5. apply (within_bind f 0 0).
  { apply within_when; [assumption|]. apply within_same.
    unfold _generate_list_answer_cards. llm_same. }
  intros c6. apply (within_bind f 0 0).
  { apply within_when; [assumption|]. apply within_same.
    unfold _generate_multiple_choice_cards. llm_same. }
  intros c7. apply within_ret.
Qed.

Lemma within_for_each {A B} f (w : A -> nat)
    (body : A -> Gen (list B)) (l : list A) :
  Forall (fun x => within f (w x) (body x)) l ->
  within f (list_sum (map w l)) (for_each body l).
Proof.
  induction 1 as [|x l Hx Hl IH]; cbn [for_each map].
  - apply within_ret.
  - change (list_sum (w x :: map w l)) with (w x + list_sum (map w l)).
    apply within_bind; [exact Hx|]. intros ys.
    replace (list_sum (map w l)) with (list_sum (map w l) + 0) by lia.
    apply within_bind; [exact IH|]. intros zs. apply within_ret.
Qed.

Lemma within_generate_cards f env topic :
  llm_field f ->
  forall ctx, within f (3 * S (count_below topic)) (generate_cards env topic ctx).
Proof.
  intros Hf.
  induction topic as [n c subs ex kc d IH] using Topic_ind'. intros ctx.
  rewrite generate_cards_unfold. cbn [name subtopics].
  eapply within_weaken;
    [|apply (within_bind f 3
               (list_sum (map (fun t => 3 * S (count_below t)) subs) + 0));
      [now apply within_own_cards|]].
  - cbn [count_below].
    assert (Hs : forall l : list Topic,
               list_sum (map (fun t => 3 * S (count_below t)) l)
               = 3 * (List.length l + list_sum (map count_below l))).
    { unfold list_sum. induction l as [|t l IHl]; cbn [map fold_right List.length]; lia. }
    rewrite Hs. lia.
  - intros cards. apply within_bind.
    + apply within_for_each. eapply Forall_impl; [exact IH|].
      intros sub Hsub. apply Hsub.
    + intros subtopic_cards.
      apply within_same. destruct Hf as [-> | ->]; same_walk.
Qed.

(** X14.  For every topic of the tree [generate_cards] calls the external
    capability at most three times (concept, basic, cloze): the calls made
    and the [llm_calls] counter of successful calls grow by at most three
    times the number of topics, and never shrink. *)
Theorem generate_cards_llm_budget (env : Env) (topic : Topic)
    (ctx : option string) (st : State) :
  llm_calls st <= llm_calls (snd (generate_cards env topic ctx st))
               <= llm_calls st + 3 * count_topics_recursive [topic]
  /\ llm_requests st <= llm_requests (snd (generate_cards env topic ctx st))
                     <= llm_requests st + 3 * count_topics_recursive [topic].
Proof.
  assert (Hn : count_topics_recursive [topic] = S (count_below topic)).
  { unfold count_topics_recursive, list_sum. cbn [List.length map fold_right]. lia. }
  rewrite Hn. split.
  - apply (within_generate_cards llm_calls env topic (or_introl eq_refl)).
  - apply (within_generate_cards llm_requests env topic (or_intror eq_refl)).
Qed.

End GeneratorCounters.

(** ** The cards of a run *)

Section GeneratorCards.

Import CardGenerator.

Ltac keeps :=
  first [ apply same_refl
        | apply same_trans
        | (intros ? ?st; reflexivity)
        | (intros ? ? ? ?st; unfold call_llm;
           destruct (llm_generate _ _ _ _); reflexivity) ].

(** *** Loops over topics and lines *)

Lemma steps_for_each_Forall {A B} (R : State -> State -> Prop)
    (body : A -> Gen (list B)) (l : list A) :
  (forall st, R st st) -> (forall a b c, R a b -> R b c -> R a c) ->
  Forall (fun x => steps R (body x)) l -> steps R (for_each body l).
Proof.
  intros Hr Ht. induction 1 as [|x l Hx Hl IH]; cbn [for_each].
  - now apply steps_ret.
  - apply steps_bind; [exact Ht|exact Hx|]. intros ys.
    apply steps_bind; [exact Ht|exact IH|]. intros zs. now apply steps_ret.
Qed.

Lemma steps_bind_assoc {A B C} (R : State -> State -> Prop)
    (m : Gen A) (k : A -> Gen B) (h : B -> Gen C) :
  (forall a b c, R a b -> R b c -> R a c) ->
  steps R (bind m k) -> (forall b, steps R (h b)) ->
  steps R (bind m (fun a => bind (k a) h)).
Proof.
  intros Ht H1 H2 st. rewrite bind_fst. rewrite bind_fst.
  specialize (H1 st). rewrite bind_fst in H1.
  eapply Ht; [exact H1|apply H2].
Qed.

Lemma yields_for_each_Forall {A} (P : Flashcard -> Prop)
    (body : A -> Gen (list Flashcard)) (l : list A) :
  Forall (fun x => yields P (body x)) l -> yields P (for_each body l).
Proof.
  induction 1 as [|x l Hx Hl IH]; intros st; cbn [for_each].
  - constructor.
  - rewrite !bind_fst. cbn [ret fst]. apply Forall_app.
    split; [apply Hx|apply IH].
Qed.

Lemma for_each_length {A B} (w : A -> nat) (body : A -> Gen (list B))
    (l : list A) :
  Forall (fun x => forall st, List.length (fst (body x st)) <= w x) l ->
  forall st, List.length (fst (for_each body l st)) <= list_sum (map w l).
Proof.
  induction 1 as [|x l Hx Hl IH]; intros st; cbn [for_each map].
  - cbn. lia.
  - rewrite !bind_fst. cbn [ret fst]. rewrite length_app.
    change (list_sum (w x :: map w l)) with (w x + list_sum (map w l)).
    specialize (Hx st). specialize (IH (snd (body x st))). lia.
Qed.

Lemma for_each_singletons {A B} (body : A -> Gen (list B)) (l : list A) :
  (forall x st, List.length (fst (body x st)) <= 1) ->
  forall st, List.length (fst (for_each body l st)) <= List.length l.
Proof.
  intros Hb. induction l as [|x l IH]; intros st; cbn [for_each].
  - cbn. lia.
  - rewrite !bind_fst. cbn [ret fst]. rewrite length_app. cbn [List.length].
    specialize (Hb x st). specialize (IH (snd (body x st))). lia.
Qed.

(** *** Cards built, accepted and rejected *)

Lemma cards_built_count_type k st :
  cards_built (snd (count_type k st)) = S (cards_built st).
Proof.
  unfold cards_built. cbn [count_type snd by_type].
  destruct (by_type st !! k) as [v|] eqn:E; cbn [from_option id].
  - rewrite <- insert_delete_eq.
    rewrite map_fold_insert_L; [|intros; lia|apply lookup_delete_eq].
    rewrite (map_fold_delete_L _ _ k v (by_type st)); [|intros; lia|exact E].
    lia.
  - rewrite map_fold_insert_L; [|intros; lia|exact E]. lia.
Qed.

Lemma cards_built_call_llm env prompt temp st :
  cards_built (snd (call_llm env prompt temp st)) = cards_built st.
Proof.
  unfold call_llm. destruct (llm_generate _ _ _ _); reflexivity.
Qed.

Lemma builds_ret_nil : builds_from 0 (ret []).
Proof. intros st. cbn. lia. Qed.

Lemma builds_one k c :
  builds_from 0 (bind (count_type k) (fun _ => ret [c])).
Proof.
  intros st. rewrite bind_fst. cbn [ret fst snd List.length].
  rewrite cards_built_count_type. lia.
Qed.

Lemma builds_for_each {A} (body : A -> Gen (list Flashcard)) (l : list A) :
  (forall x, builds_from 0 (body x)) -> builds_from 0 (for_each body l).
Proof.
  intros Hb. induction l as [|x l IH]; intros st; cbn [for_each].
  - cbn. lia.
  - rewrite !bind_fst. cbn [ret fst snd]. rewrite length_app.
    specialize (Hb x st). specialize (IH (snd (body x st))). lia.
Qed.

Lemma builds_basic_loop env topic ctx sep lines :
  forall cards,
    builds_from (List.length cards) (basic_loop env topic ctx sep lines cards).
Proof.
  induction lines as [|line lines IH]; intros cards st; cbn [basic_loop].
  - cbn. lia.
  - destruct (PyStr.contains sep line); [|apply IH].
    destruct (PyStr.split_once sep line) as [[f b]|]; [|cbn; lia].
    rewrite bind_fst.
    match goal with
    | |- context [basic_loop _ _ _ _ _ ?cs ?s] => specialize (IH cs s)
    end.
    rewrite length_app in IH. cbn [List.length] in IH.
    rewrite cards_built_count_type in IH. lia.
Qed.

Lemma builds_basic env topic ctx :
  builds_from 0 (_generate_basic_cards env topic ctx).
Proof.
  unfold _generate_basic_cards.
  destruct (negb _); [apply builds_ret_nil|].
  destruct (get_config _ _) as [pc|]; [|apply builds_ret_nil].
  destruct (format_prompt _ _ _) as [p|]; [|apply builds_ret_nil].
  intros st. rewrite bind_fst.
  match goal with
  | |- context [call_llm env p ?t st] =>
      pose proof (cards_built_call_llm env p t st) as Hc;
      destruct (call_llm env p t st) as [[r|] st1]
  end; cbn [fst snd] in *; [|cbn; lia].
  destruct (as_str _) as [sep|]; [|cbn; lia].
  destruct (slice_to_value _ _) as [first_lines|]; [|cbn; lia].
  pose proof (builds_basic_loop env topic ctx sep first_lines [] st1) as Hb.
  cbn [List.length] in Hb. lia.
Qed.

Lemma builds_cloze env topic ctx :
  builds_from 0 (_generate_cloze_cards env topic ctx).
Proof.
  unfold _generate_cloze_cards.
  destruct (negb _); [apply builds_ret_nil|].
  destruct (get_config _ _) as [pc|]; [|apply builds_ret_nil].
  destruct (format_prompt _ _ _) as [p|]; [|apply builds_ret_nil].
  intros st. rewrite bind_fst.
  match goal with
  | |- context [call_llm env p ?t st] =>
      pose proof (cards_built_call_llm env p t st) as Hc;
      destruct (call_llm env p t st) as [[r|] st1]
  end; cbn [fst snd] in *; [|cbn; lia].
  destruct (slice_to_value _ _) as [first_lines|]; [|cbn; lia].
  match goal with
  | |- context [for_each ?body ?ls st1] =>
      pose proof (builds_for_each body ls
                    (fun x => builds_one _ _) st1) as Hb
  end.
  lia.
Qed.

Lemma builds_descriptor env topic ctx :
  builds_from 0 (_generate_descriptor_cards env topic ctx).
Proof.
  unfold _generate_descriptor_cards.
  destruct (negb _); [apply builds_ret_nil|].
  destruct (get_config _ _) as [pc|]; [|apply builds_ret_nil].
  destruct (slice_to_value _ _) as [concepts|]; [|apply builds_ret_nil].
  apply builds_for_each. intros x. apply builds_one.
Qed.

Lemma builds_multiline env topic ctx :
  builds_from 0 (_generate_multiline_cards env topic ctx).
Proof.
  unfold _generate_multiline_cards.
  destruct (_ <? _)%nat; [apply builds_one|apply builds_ret_nil].
Qed.

Lemma builds_list_answer env topic ctx :
  builds_from 0 (_generate_list_answer_cards env topic ctx).
Proof.
  unfold _generate_list_answer_cards.
  destruct (_ <? _)%nat; [apply builds_one|apply builds_ret_nil].
Qed.

Lemma builds_multiple_choice env topic ctx :
  builds_from 0 (_generate_multiple_choice_cards env topic ctx).
Proof.
  unfold _generate_multiple_choice_cards.
  destruct (_ <=? _)%nat; [apply builds_one|apply builds_ret_nil].
Qed.

Lemma builds_concept env topic ctx st :
  cards_built (snd (_generate_concept_card env topic ctx st))
  = cards_built st
    + List.length (match fst (_generate_concept_card env topic ctx st) with
                   | Some card => [card]
                   | None => []
                   end).
Proof.
  unfold _generate_concept_card.
  destruct (negb _); [cbn; lia|].
  destruct (get_config _ _) as [pc|]; [|cbn; lia].
  destruct (format_prompt _ _ _) as [p|]; [|cbn; lia].
  rewrite bind_fst.
  match goal with
  | |- context [call_llm env p ?t st] =>
      pose proof (cards_built_call_llm env p t st) as Hc;
      destruct (call_llm env p t st) as [[r|] st1]
  end; cbn [fst snd] in *; [|cbn; lia].
  destruct (as_str _) as [sep|]; [|cbn; lia].
  destruct (PyStr.contains _ r); [|cbn; lia].
  destruct (PyStr.split_once _ r) as [[f b]|]; [|cbn; lia].
  rewrite bind_fst. cbn [ret fst snd List.length].
  rewrite cards_built_count_type. lia.
Qed.

Lemma submit_by_type card st : by_type (snd (submit card st)) = by_type st.
Proof.
  unfold submit, bind, _is_unique_card, _register_card, ret.
  destruct (decide _); reflexivity.
Qed.

Lemma submit_all_settles candidates :
  forall st,
    by_type (snd (submit_all candidates st)) = by_type st
    /\ total_cards (snd (submit_all candidates st))
       + duplicates_avoided (snd (submit_all candidates st))
       = total_cards st + duplicates_avoided st + List.length candidates.
Proof.
  induction candidates as [|c cs IH]; intros st.
  - cbn. split; [reflexivity|lia].
  - rewrite submit_all_cons. cbn [snd List.length].
    destruct (IH (snd (submit c st))) as [Hb Hs].
    rewrite Hb, Hs, submit_by_type. split; [reflexivity|].
    destruct (decide (source_hash c ∈ generated_cards st)) as [Hin|Hin].
    + destruct (submit_seen c st Hin) as (_ & _ & -> & ->). lia.
    + destruct (submit_fresh c st Hin) as (_ & _ & -> & ->). lia.
Qed.

Lemma settled_refl st : settled st st.
Proof. unfold settled. lia. Qed.

Lemma settled_trans a b c : settled a b -> settled b c -> settled a c.
Proof. unfold settled. lia. Qed.

Lemma settled_submit m :
  builds_from 0 m ->
  steps (same total_cards) m -> steps (same duplicates_avoided) m ->
  steps settled (bind m submit_all).
Proof.
  intros Hb Ht Hd st. rewrite bind_fst.
  specialize (Hb st). specialize (Ht st). specialize (Hd st).
  unfold same in Ht, Hd.
  destruct (submit_all_settles (fst (m st)) (snd (m st))) as [Hby Hsum].
  unfold settled.
  replace (cards_built (snd (submit_all (fst (m st)) (snd (m st)))))
    with (cards_built (snd (m st))) by (unfold cards_built; now rewrite Hby).
  lia.
Qed.

Lemma settled_when flag m :
  builds_from 0 m ->
  steps (same total_cards) m -> steps (same duplicates_avoided) m ->
  steps settled (when flag m).
Proof.
  intros Hb Ht Hd. destruct flag; cbn [when].
  - now apply settled_submit.
  - apply steps_ret, settled_refl.
Qed.

Lemma settled_concept env topic ctx :
  steps settled
    (bind (_generate_concept_card env topic ctx)
          (fun concept_card => submit_all (match concept_card with
                                           | Some card => [card]
                                           | None => []
                                           end))).
Proof.
  intros st. rewrite bind_fst.
  pose proof (builds_concept env topic ctx st) as Hb.
  assert (Ht : same total_cards st
                 (snd (_generate_concept_card env topic ctx st)))
    by (apply steps_concept; keeps).
  assert (Hd : same duplicates_avoided st
                 (snd (_generate_concept_card env topic ctx st)))
    by (apply steps_concept; keeps).
  unfold same in Ht, Hd.
  match goal with
  | |- settled _ (snd (submit_all ?cs ?s)) =>
      destruct (submit_all_settles cs s) as [Hby Hsum];
      unfold settled;
      replace (cards_built (snd (submit_all cs s))) with (cards_built s)
        by (unfold cards_built; now rewrite Hby)
  end.
  lia.
Qed.

Lemma settled_own_cards env topic ctx :
  steps settled (own_cards env topic ctx).
Proof.
  unfold own_cards.
  apply (steps_bind_assoc settled (_generate_concept_card env topic ctx)
           (fun concept_card => submit_all (match concept_card with
                                            | Some card => [card]
                                            | None => []
                                            end)));
    [exact settled_trans|apply settled_concept|]. intros c1.
  apply steps_bind; [exact settled_trans| |intros c2].
  { apply settled_when; [apply builds_basic| |]; apply steps_basic; keeps. }
  apply steps_bind; [exact settled_trans| |intros c3].
  { apply settled_when; [apply builds_cloze| |]; apply steps_cloze; keeps. }
  apply steps_bind; [exact settled_trans| |intros c4].
  { apply settled_when; [apply builds_descriptor| |];
      apply steps_descriptor; keeps. }
  apply steps_bind; [exact settled_trans| |intros c5].
  { apply settled_when; [apply builds_multiline| |];
      apply steps_multiline; keeps. }
  apply steps_bind; [exact settled_trans| |intros c6].
  { apply settled_when; [apply builds_list_answer| |];
      apply steps_list_answer; keeps. }
  apply steps_bind; [exact settled_trans| |intros c7].
  { apply settled_when; [apply builds_multiple_choice| |];
      apply steps_multiple_choice; keeps. }
  apply steps_ret, settled_refl.
Qed.

Lemma settled_generate_cards env topic :
  forall ctx, steps settled (generate_cards env topic ctx).
Proof.
  induction topic as [n c subs ex kc d IH] using Topic_ind'. intros ctx.
  rewrite generate_cards_unfold. cbn [name subtopics].
  apply steps_bind; [exact settled_trans|apply settled_own_cards|].
  intros cards.
  apply steps_bind; [exact settled_trans| |intros subtopic_cards].
  { apply steps_for_each_Forall;
      [exact settled_refl|exact settled_trans|].
    eapply Forall_impl; [exact IH|]. intros sub Hsub. apply Hsub. }
  apply steps_bind; [exact settled_trans| |intros u].
  - intros st. unfold settled, cards_built. cbn. lia.
  - apply steps_ret, settled_refl.
Qed.

(** X15.  Every card the generators build during [generate_cards] is either
    accepted or counted as a duplicate: the sum of the [by_type] counters
    grows by as much as [total_cards] and [duplicates_avoided] together, so
    [by_type] counts the rejected duplicates too. *)
Theorem generate_cards_settles_built_cards (env : Env) (topic : Topic)
    (ctx : option string) (st : State) :
  cards_built (snd (generate_cards env topic ctx st))
  + total_cards st + duplicates_avoided st
  = cards_built st
    + total_cards (snd (generate_cards env topic ctx st))
    + duplicates_avoided (snd (generate_cards env topic ctx st)).
Proof. apply settled_generate_cards. Qed.

(** *** How many cards *)

Lemma slice_to_length {A} n (l : list A) :
  (0 <= n)%Z -> List.length (PyStr.slice_to n l) <= Z.to_nat n.
Proof.
  intros H. unfold PyStr.slice_to.
  destruct (0 <=? n)%Z eqn:E; [apply firstn_le_length|].
  apply Z.leb_gt in E. lia.
Qed.

Lemma slice_to_value_length {A} env kind pc dflt (l ls : list A) :
  max_cards_bounded env -> (0 <= dflt)%Z ->
  get_config env kind = Some pc ->
  slice_to_value (default (VInt dflt) (max_cards pc)) l = Some ls ->
  List.length ls <= max_of env kind dflt.
Proof.
  intros Hn Hd Hc Hs. unfold max_of. rewrite Hc.
  specialize (Hn kind pc Hc).
  destruct (max_cards pc) as [[|b|n|q|s|]|]; cbn [from_option id] in *;
    try discriminate; try contradiction;
    injection Hs as <-.
  - destruct b.
    + apply (slice_to_length 1 l). lia.
    + apply (slice_to_length 0 l). lia.
  - now apply slice_to_length.
  - now apply slice_to_length.
Qed.

Lemma basic_loop_length env topic ctx sep lines :
  forall cards st,
    List.length (fst (basic_loop env topic ctx sep lines cards st))
    <= List.length cards + List.length lines.
Proof.
  induction lines as [|line lines IH]; intros cards st; cbn [basic_loop].
  - cbn. lia.
  - destruct (PyStr.contains sep line);
      [|specialize (IH cards st); cbn [List.length]; lia].
    destruct (PyStr.split_once sep line) as [[f b]|]; [|cbn; lia].
    rewrite bind_fst.
    match goal with
    | |- context [basic_loop _ _ _ _ _ ?cs ?s] => specialize (IH cs s)
    end.
    rewrite length_app in IH. cbn [List.length] in *. lia.
Qed.

Lemma at_most_basic env topic ctx :
  max_cards_bounded env ->
  at_most (max_of env "basic" 3) (_generate_basic_cards env topic ctx).
Proof.
  intros Hn st. unfold _generate_basic_cards.
  destruct (negb _); [cbn; lia|].
  destruct (get_config env "basic") as [pc|] eqn:E; [|cbn; lia].
  destruct (format_prompt _ _ _); [|cbn; lia].
  rewrite bind_fst. destruct (fst (call_llm _ _ _ _)); [|cbn; lia].
  destruct (as_str _) as [sep|]; [|cbn; lia].
  destruct (slice_to_value _ _) as [first_lines|] eqn:Hs; [|cbn; lia].
  etransitivity; [apply basic_loop_length|]. cbn [List.length].
  eapply slice_to_value_length; [exact Hn| |exact E|exact Hs]. lia.
Qed.

Lemma at_most_cloze env topic ctx :
  max_cards_bounded env ->
  at_most (max_of env "cloze" 2) (_generate_cloze_cards env topic ctx).
Proof.
  intros Hn st. unfold _generate_cloze_cards.
  destruct (negb _); [cbn; lia|].
  destruct (get_config env "cloze") as [pc|] eqn:E; [|cbn; lia].
  destruct (format_prompt _ _ _); [|cbn; lia].
  rewrite bind_fst. destruct (fst (call_llm _ _ _ _)); [|cbn; lia].
  destruct (slice_to_value _ _) as [first_lines|] eqn:Hs; [|cbn; lia].
  etransitivity;
    [apply for_each_singletons
    |eapply slice_to_value_length; [exact Hn| |exact E|exact Hs]; lia].
  intros x st'. rewrite bind_fst. cbn. lia.
Qed.

Lemma at_most_descriptor env topic ctx :
  max_cards_bounded env ->
  at_most (max_of env "descriptor" 3)
          (_generate_descriptor_cards env topic ctx).
Proof.
  intros Hn st. unfold _generate_descriptor_cards.
  destruct (negb _); [cbn; lia|].
  destruct (get_config env "descriptor") as [pc|] eqn:E; [|cbn; lia].
  destruct (slice_to_value _ _) as [concepts|] eqn:Hs; [|cbn; lia].
  etransitivity;
    [apply for_each_singletons
    |eapply slice_to_value_length; [exact Hn| |exact E|exact Hs]; lia].
  intros x st'. rewrite bind_fst. cbn. lia.
Qed.

Lemma at_most_multiline env topic ctx :
  at_most 1 (_generate_multiline_cards env topic ctx).
Proof.
  intros st. unfold _generate_multiline_cards.
  destruct (_ <? _)%nat; [rewrite bind_fst|]; cbn; lia.
Qed.

Lemma at_most_list_answer env topic ctx :
  at_most 1 (_generate_list_answer_cards env topic ctx).
Proof.
  intros st. unfold _generate_list_answer_cards.
  destruct (_ <? _)%nat; [rewrite bind_fst|]; cbn; lia.
Qed.

Lemma at_most_multiple_choice env topic ctx :
  at_most 1 (_generate_multiple_choice_cards env topic ctx).
Proof.
  intros st. unfold _generate_multiple_choice_cards.
  destruct (_ <=? _)%nat; [rewrite bind_fst|]; cbn; lia.
Qed.

Lemma at_most_own_cards env topic ctx :
  max_cards_bounded env ->
  at_most (per_topic_bound env) (own_cards env topic ctx).
Proof.
  intros Hn st. unfold own_cards, per_topic_bound.
  rewrite !bind_fst. cbn [ret fst]. rewrite !length_app.
  match goal with
  | |- context [fst (submit_all ?cs ?s)] =>
      pose proof (submit_all_length cs s) as H1;
      assert (List.length cs <= 1)
        by (destruct (fst (_generate_concept_card env topic ctx st));
            cbn; lia)
  end.
  match goal with
  | |- context [fst (when ?f (_generate_basic_cards env topic ctx) ?s)] =>
      pose proof (at_most_when _ f _ (at_most_basic env topic ctx Hn) s)
  end.
  match goal with
  | |- context [fst (when ?f (_generate_cloze_cards env topic ctx) ?s)] =>
      pose proof (at_most_when _ f _ (at_most_cloze env topic ctx Hn) s)
  end.
  match goal with
  | |- context [fst (when ?f (_generate_descriptor_cards env topic ctx) ?s)] =>
      pose proof (at_most_when _ f _ (at_most_descriptor env topic ctx Hn) s)
  end.
  match goal with
  | |- context [fst (when ?f (_generate_multiline_cards env topic ctx) ?s)] =>
      pose proof (at_most_when _ f _ (at_most_multiline env topic ctx) s)
  end.
  match goal with
  | |- context [fst (when ?f (_generate_list_answer_cards env topic ctx) ?s)] =>
      pose proof (at_most_when _ f _ (at_most_list_answer env topic ctx) s)
  end.
  match goal with
  | |- context [fst (when ?f (_generate_multiple_choice_cards env topic ctx)
                       ?s)] =>
      pose proof (at_most_when _ f _ (at_most_multiple_choice env topic ctx) s)
  end.
  lia.
Qed.

Lemma at_most_generate_cards env topic :
  max_cards_bounded env ->
  forall ctx,
    at_most (per_topic_bound env * S (count_below topic))
            (generate_cards env topic ctx).
Proof.
  intros Hn.
  induction topic as [n c subs ex kc d IH] using Topic_ind'. intros ctx st.
  rewrite generate_cards_unfold. cbn [name subtopics].
  rewrite !bind_fst. cbn [ret fst]. rewrite length_app.
  pose proof (at_most_own_cards env (mkTopic n c subs ex kc d) ctx Hn st)
    as Hown.
  match goal with
  | |- context [for_each ?body subs ?s] =>
      pose proof (for_each_length
                    (fun t => per_topic_bound env * S (count_below t))
                    body subs) as Hsub
  end.
  match type of Hsub with
  | ?P -> _ => assert (HP : P)
  end.
  { eapply Forall_impl; [exact IH|]. intros sub Hs st'. apply Hs. }
  specialize (Hsub HP). clear HP.
  match goal with
  | |- context [for_each ?body subs ?s] => specialize (Hsub s)
  end.
  assert (Hs : forall l : list Topic,
             list_sum (map (fun t => per_topic_bound env * S (count_below t)) l)
             = per_topic_bound env
               * (List.length l + list_sum (map count_below l))).
  { unfold list_sum.
    induction l as [|t l IHl]; cbn [map fold_right List.length]; lia. }
  rewrite Hs in Hsub. cbn [count_below]. lia.
Qed.

(** X16.  When no prompt file sets [max_cards] to [null] or to a negative
    number, [generate_cards] returns at most [per_topic_bound] cards for
    every topic of the tree: four (concept, multi-line, list, choice) and
    the configured maxima of the basic, cloze and descriptor cards, which
    default to three, two and three when the key is missing; a boolean
    counts as 0 or 1, and a [max_cards] that is no index of a slice leaves
    the kind without cards.  With [max_cards: null] the slice keeps every
    line and there is no such bound. *)
Theorem generate_cards_bounded (env : Env) (topic : Topic)
    (ctx : option string) (st : State) :
  max_cards_bounded env ->
  List.length (fst (generate_cards env topic ctx st))
  <= per_topic_bound env * count_topics_recursive [topic].
Proof.
  intros Hn.
  assert (Hc : count_topics_recursive [topic] = S (count_below topic)).
  { unfold count_topics_recursive, list_sum.
    cbn [List.length map fold_right]. lia. }
  rewrite Hc. now apply at_most_generate_cards.
Qed.

Lemma generate_cards_bounded_witness :
  max_cards_bounded sample_env
  /\ List.length (fst (generate_cards sample_env sample_topic None
                         initial_state))
     <= per_topic_bound sample_env * count_topics_recursive [sample_topic].
Proof.
  assert (Hn : max_cards_bounded sample_env).
  { intros kind pc Hc. cbn in Hc. now inversion Hc. }
  split; [exact Hn|].
  exact (generate_cards_bounded sample_env sample_topic None initial_state Hn).
Defined.

(** With [max_cards: null] the slice keeps every key concept: five
    descriptor cards, where the default maximum is three. *)
Example descriptor_cards_max_null :
  ~ max_cards_bounded null_env
  /\ List.length (fst (_generate_descriptor_cards null_env wide_topic None
                         initial_state)) = 5.
Proof.
  split; [|reflexivity].
  intros H.
  exact (H "descriptor" (mkPromptConfig None None (Some VNone)) eq_refl).
Qed.

(** *** The shape of the cards *)

Lemma contains_lstrip p s :
  no_blank p = true -> p <> "" ->
  PyStr.contains p s = true -> PyStr.contains p (PyStr.lstrip s) = true.
Proof.
  intros Hp Hne. destruct p as [|a p]; [congruence|].
  cbn [no_blank] in Hp. apply andb_true_iff in Hp as [Ha _].
  apply negb_true_iff in Ha.
  induction s as [|c s IH]; intros H; [exact H|].
  cbn [PyStr.lstrip]. destruct (PyStr.isspace c) eqn:Ec; [|exact H].
  apply IH. cbn [PyStr.contains PyStr.startswith] in H.
  destruct (Ascii.eqb a c) eqn:Eac; [|exact H].
  apply Ascii.eqb_eq in Eac. congruence.
Qed.

Lemma rstrip_startswith p s :
  no_blank p = true -> p <> "" ->
  PyStr.startswith p s = true ->
  PyStr.startswith p (PyStr.rstrip s) = true.
Proof.
  revert p. induction s as [|c s IH]; intros p Hp Hne H.
  - destruct p; [congruence|discriminate].
  - destruct p as [|a p]; [congruence|].
    cbn [PyStr.startswith] in H. apply andb_true_iff in H as [Hac Hps].
    cbn [no_blank] in Hp. apply andb_true_iff in Hp as [Ha Hp].
    apply negb_true_iff in Ha. apply Ascii.eqb_eq in Hac. subst c.
    cbn [PyStr.rstrip].
    destruct p as [|b p].
    + destruct (PyStr.rstrip s); [rewrite Ha|];
        cbn [PyStr.startswith]; now rewrite Ascii.eqb_refl.
    + specialize (IH (String b p) Hp ltac:(discriminate) Hps).
      destruct (PyStr.rstrip s) as [|r rs]; [discriminate|].
      cbn [PyStr.startswith] in *. now rewrite Ascii.eqb_refl.
Qed.

Lemma contains_rstrip p s :
  no_blank p = true -> p <> "" ->
  PyStr.contains p s = true -> PyStr.contains p (PyStr.rstrip s) = true.
Proof.
  intros Hp Hne. induction s as [|c s IH]; intros H.
  - destruct p; [congruence|discriminate].
  - destruct (PyStr.startswith p (String c s)) eqn:Es.
    + apply startswith_contains. now apply rstrip_startswith.
    + cbn [PyStr.contains] in H. rewrite Es in H. cbn [orb] in H.
      specialize (IH H). cbn [PyStr.rstrip].
      destruct (PyStr.rstrip s) as [|r rs].
      * destruct p; [congruence|discriminate].
      * cbn [PyStr.contains]. cbn [PyStr.contains] in IH. rewrite IH.
        apply orb_true_r.
Qed.

Lemma contains_strip p s :
  no_blank p = true -> p <> "" ->
  PyStr.contains p s = true -> PyStr.contains p (PyStr.strip s) = true.
Proof.
  intros Hp Hne H. unfold PyStr.strip.
  now apply contains_rstrip, contains_lstrip.
Qed.

Lemma yields_singleton {A} P (m : Gen A) c :
  P c -> yields P (bind m (fun _ => ret [c])).
Proof. intros H st. rewrite bind_fst. cbn. now constructor. Qed.

Lemma yields_nil P : yields P (ret []).
Proof. intros st. constructor. Qed.

Lemma basic_loop_yields P env topic ctx sep lines :
  (forall f b, P (new_flashcard (md5_hexdigest env) BASIC f b ctx
                    [name topic] (topic_difficulty topic) FORWARD [] 0 false)) ->
  forall cards st,
    Forall P cards ->
    Forall P (fst (basic_loop env topic ctx sep lines cards st)).
Proof.
  intros Hnew.
  induction lines as [|line lines IH]; intros cards st Hc; cbn [basic_loop].
  - exact Hc.
  - destruct (PyStr.contains sep line); [|now apply IH].
    destruct (PyStr.split_once sep line) as [[f b]|]; [|exact Hc].
    rewrite bind_fst. apply IH. apply Forall_app. split; [exact Hc|].
    constructor; [apply Hnew|constructor].
Qed.

Lemma well_shaped_concept env topic ctx :
  forall st,
    match fst (_generate_concept_card env topic ctx st) with
    | Some card => well_shaped card
    | None => True
    end.
Proof.
  intros st. unfold _generate_concept_card.
  destruct (negb _); [exact I|].
  destruct (get_config _ _) as [pc|]; [|exact I].
  destruct (format_prompt _ _ _); [|exact I].
  rewrite bind_fst. destruct (fst (call_llm _ _ _ _)) as [r|]; [|exact I].
  destruct (as_str _) as [sep|]; [|exact I].
  destruct (PyStr.contains _ r); [|exact I].
  destruct (PyStr.split_once _ r) as [[f b]|]; [|exact I].
  rewrite bind_fst. cbn [ret fst]. split; reflexivity.
Qed.

Lemma well_shaped_basic env topic ctx :
  yields well_shaped (_generate_basic_cards env topic ctx).
Proof.
  unfold _generate_basic_cards.
  destruct (negb _); [apply yields_nil|].
  destruct (get_config _ _) as [pc|]; [|apply yields_nil].
  destruct (format_prompt _ _ _); [|apply yields_nil].
  intros st. rewrite bind_fst.
  destruct (fst (call_llm _ _ _ _)) as [r|]; [|constructor].
  destruct (as_str _) as [sep|]; [|constructor].
  destruct (slice_to_value _ _) as [first_lines|]; [|constructor].
  apply basic_loop_yields; [|constructor].
  intros f b. split; reflexivity.
Qed.

Lemma cloze_lines response v first_lines :
  slice_to_value v
    (map PyStr.strip
       (filter (fun line => PyStr.contains "{{" line
                            && PyStr.contains "}}" line)
               (PyStr.split_lines response))) = Some first_lines ->
  Forall (fun line => PyStr.contains "{{" line = true
                      /\ PyStr.contains "}}" line = true)
    first_lines.
Proof.
  intros Hs.
  assert (H : Forall (fun line => PyStr.contains "{{" line = true
                                  /\ PyStr.contains "}}" line = true)
                (map PyStr.strip
                   (filter (fun line => PyStr.contains "{{" line
                                        && PyStr.contains "}}" line)
                           (PyStr.split_lines response)))).
  { apply List.Forall_forall. intros line Hin.
    apply in_map_iff in Hin as (raw & <- & Hraw).
    apply list_elem_of_In, list_elem_of_filter in Hraw as [Hb _].
    apply Is_true_true, andb_true_iff in Hb as [Ho Hc].
    split; apply contains_strip;
      solve [reflexivity|discriminate|assumption]. }
  assert (Hn : forall n, Forall (fun line =>
                                   PyStr.contains "{{" line = true
                                   /\ PyStr.contains "}}" line = true)
                          (PyStr.slice_to n
                             (map PyStr.strip
                                (filter (fun line =>
                                           PyStr.contains "{{" line
                                           && PyStr.contains "}}" line)
                                        (PyStr.split_lines response))))).
  { intros n. unfold PyStr.slice_to.
    destruct (0 <=? n)%Z; now apply Forall_take. }
  destruct v; cbn [slice_to_value] in Hs; try discriminate;
    injection Hs as <-; [exact H|apply Hn|apply Hn].
Qed.

Lemma well_shaped_cloze env topic ctx :
  yields well_shaped (_generate_cloze_cards env topic ctx).
Proof.
  unfold _generate_cloze_cards.
  destruct (negb _); [apply yields_nil|].
  destruct (get_config _ _) as [pc|]; [|apply yields_nil].
  destruct (format_prompt _ _ _); [|apply yields_nil].
  intros st. rewrite bind_fst.
  destruct (fst (call_llm _ _ _ _)) as [r|]; [|constructor].
  destruct (slice_to_value _ _) as [first_lines|] eqn:Hs; [|constructor].
  apply yields_for_each_Forall.
  eapply Forall_impl; [exact (cloze_lines _ _ _ Hs)|].
  intros line [Ho Hc]. apply yields_singleton.
  repeat split; assumption.
Qed.

Lemma well_shaped_descriptor env topic ctx :
  yields well_shaped (_generate_descriptor_cards env topic ctx).
Proof.
  unfold _generate_descriptor_cards.
  destruct (negb _); [apply yields_nil|].
  destruct (get_config _ _) as [pc|]; [|apply yields_nil].
  destruct (slice_to_value _ _) as [concepts|]; [|apply yields_nil].
  apply yields_for_each. intros x. apply yields_singleton.
  split; [reflexivity|discriminate].
Qed.

Lemma well_shaped_multiline env topic ctx :
  yields well_shaped (_generate_multiline_cards env topic ctx).
Proof.
  unfold _generate_multiline_cards.
  destruct (_ <? _)%nat eqn:E; [|apply yields_nil].
  apply yields_singleton. apply Nat.ltb_lt in E. split; [reflexivity|exact E].
Qed.

Lemma well_shaped_list_answer env topic ctx :
  yields well_shaped (_generate_list_answer_cards env topic ctx).
Proof.
  unfold _generate_list_answer_cards.
  destruct (_ <? _)%nat eqn:E; [|apply yields_nil].
  apply yields_singleton. apply Nat.ltb_lt in E. split; [exact E|reflexivity].
Qed.

Lemma well_shaped_multiple_choice env topic ctx :
  yields well_shaped (_generate_multiple_choice_cards env topic ctx).
Proof.
  unfold _generate_multiple_choice_cards.
  destruct (_ <=? _)%nat eqn:E; [|apply yields_nil].
  apply yields_singleton. apply Nat.leb_le in E.
  unfold well_shaped, new_flashcard, __post_init__.
  cbn [source_hash with_source_hash card_type list_items
         correct_choice_index back].
  rewrite length_firstn. repeat split; lia.
Qed.

Lemma yields_own_cards P env topic ctx :
  (forall st, match fst (_generate_concept_card env topic ctx st) with
              | Some card => P card
              | None => True
              end) ->
  yields P (_generate_basic_cards env topic ctx) ->
  yields P (_generate_cloze_cards env topic ctx) ->
  yields P (_generate_descriptor_cards env topic ctx) ->
  yields P (_generate_multiline_cards env topic ctx) ->
  yields P (_generate_list_answer_cards env topic ctx) ->
  yields P (_generate_multiple_choice_cards env topic ctx) ->
  yields P (own_cards env topic ctx).
Proof.
  intros H1 H2 H3 H4 H5 H6 H7 st. unfold own_cards.
  rewrite !bind_fst. cbn [ret fst].
  repeat (apply Forall_app; split);
    try (apply yields_when; assumption).
  apply submit_all_Forall. specialize (H1 st).
  destruct (fst (_generate_concept_card env topic ctx st));
    [now constructor|constructor].
Qed.

Lemma yields_generate_cards P env topic :
  (forall t ctx, yields P (own_cards env t ctx)) ->
  forall ctx, yields P (generate_cards env topic ctx).
Proof.
  intros Hown.
  induction topic as [n c subs ex kc d IH] using Topic_ind'. intros ctx st.
  rewrite generate_cards_unfold. cbn [name subtopics].
  rewrite !bind_fst. cbn [ret fst]. apply Forall_app. split; [apply Hown|].
  apply yields_for_each_Forall.
  eapply Forall_impl; [exact IH|]. intros sub Hsub. apply Hsub.
Qed.

(** X17.  Every card [generate_cards] returns has the shape of its kind:
    concept and basic cards are forward cards without list items; the front
    of a cloze card contains both brace pairs (also after the line was
    stripped) and its back is empty; a descriptor card is bidirectional and
    has a parent; a multi-line card is flagged as such and its back has
    more than 200 characters; a list card has at least two items; a choice
    card has three or four items and its first item is the correct one.
    No card of the kinds [multiline_basic] and [multiline_descriptor] is
    generated. *)
Theorem generate_cards_well_shaped (env : Env) (topic : Topic)
    (ctx : option string) (st : State) :
  Forall well_shaped (fst (generate_cards env topic ctx st)).
Proof.
  apply yields_generate_cards. intros t c.
  apply yields_own_cards.
  - apply well_shaped_concept.
  - apply well_shaped_basic.
  - apply well_shaped_cloze.
  - apply well_shaped_descriptor.
  - apply well_shaped_multiline.
  - apply well_shaped_list_answer.
  - apply well_shaped_multiple_choice.
Qed.

(** *** A generator whose external capability always raises *)

Section Offline.

Variable env : Env.
Hypothesis env_offline : offline env.

Lemma call_llm_offline prompt temp st :
  fst (call_llm env prompt temp st) = None
  /\ llm_calls (snd (call_llm env prompt temp st)) = llm_calls st.
Proof. unfold call_llm. rewrite env_offline. split; reflexivity. Qed.

Lemma offline_keeps_llm_calls prompt temp :
  steps (same llm_calls) (call_llm env prompt temp).
Proof. intros st. apply call_llm_offline. Qed.

Lemma offline_concept topic ctx st :
  fst (_generate_concept_card env topic ctx st) = None.
Proof.
  unfold _generate_concept_card.
  destruct (negb _); [reflexivity|].
  destruct (get_config _ _) as [pc|]; [|reflexivity].
  destruct (format_prompt _ _ _); [|reflexivity].
  rewrite bind_fst.
  now rewrite (proj1 (call_llm_offline _ _ _)).
Qed.

Lemma offline_basic topic ctx st :
  fst (_generate_basic_cards env topic ctx st) = [].
Proof.
  unfold _generate_basic_cards.
  destruct (negb _); [reflexivity|].
  destruct (get_config _ _) as [pc|]; [|reflexivity].
  destruct (format_prompt _ _ _); [|reflexivity].
  rewrite bind_fst.
  now rewrite (proj1 (call_llm_offline _ _ _)).
Qed.

Lemma offline_cloze topic ctx st :
  fst (_generate_cloze_cards env topic ctx st) = [].
Proof.
  unfold _generate_cloze_cards.
  destruct (negb _); [reflexivity|].
  destruct (get_config _ _) as [pc|]; [|reflexivity].
  destruct (format_prompt _ _ _); [|reflexivity].
  rewrite bind_fst.
  now rewrite (proj1 (call_llm_offline _ _ _)).
Qed.

Lemma derived_descriptor topic ctx :
  yields derived_kind (_generate_descriptor_cards env topic ctx).
Proof.
  unfold _generate_descriptor_cards.
  destruct (negb _); [apply yields_nil|].
  destruct (get_config _ _) as [pc|]; [|apply yields_nil].
  destruct (slice_to_value _ _) as [concepts|]; [|apply yields_nil].
  apply yields_for_each. intros x. apply yields_singleton.
  left. reflexivity.
Qed.

Lemma derived_multiline topic ctx :
  yields derived_kind (_generate_multiline_cards env topic ctx).
Proof.
  unfold _generate_multiline_cards.
  destruct (_ <? _)%nat; [|apply yields_nil].
  apply yields_singleton. right. left. reflexivity.
Qed.

Lemma derived_list_answer topic ctx :
  yields derived_kind (_generate_list_answer_cards env topic ctx).
Proof.
  unfold _generate_list_answer_cards.
  destruct (_ <? _)%nat; [|apply yields_nil].
  apply yields_singleton. right. right. left. reflexivity.
Qed.

Lemma derived_multiple_choice topic ctx :
  yields derived_kind (_generate_multiple_choice_cards env topic ctx).
Proof.
  unfold _generate_multiple_choice_cards.
  destruct (_ <=? _)%nat; [|apply yields_nil].
  apply yields_singleton. right. right. right. reflexivity.
Qed.

Lemma offline_own_cards topic ctx :
  yields derived_kind (own_cards env topic ctx).
Proof.
  apply yields_own_cards.
  - intros st. now rewrite offline_concept.
  - intros st. rewrite offline_basic. constructor.
  - intros st. rewrite offline_cloze. constructor.
  - apply derived_descriptor.
  - apply derived_multiline.
  - apply derived_list_answer.
  - apply derived_multiple_choice.
Qed.

Ltac offline_walk :=
  repeat first
    [ (apply steps_ret; apply same_refl)
    | apply offline_keeps_llm_calls
    | (apply same_bind; [|intros ?])
    | (apply steps_for_each;
       [apply same_refl|apply same_trans|intros ?])
    | (apply steps_basic_loop;
       [apply same_refl|apply same_trans|intros ? ?st; reflexivity])
    | match goal with
      | |- steps _ (if ?b then _ else _) => destruct b
      | |- steps _ (match ?x with _ => _ end) => destruct x
      end
    | (intros ?st; reflexivity) ].

Lemma offline_steps_concept topic ctx :
  steps (same llm_calls) (_generate_concept_card env topic ctx).
Proof. unfold _generate_concept_card. offline_walk. Qed.

Lemma offline_steps_basic topic ctx :
  steps (same llm_calls) (_generate_basic_cards env topic ctx).
Proof. unfold _generate_basic_cards. offline_walk. Qed.

Lemma offline_steps_cloze topic ctx :
  steps (same llm_calls) (_generate_cloze_cards env topic ctx).
Proof. unfold _generate_cloze_cards. offline_walk. Qed.

Lemma offline_llm_calls topic :
  forall ctx, steps (same llm_calls) (generate_cards env topic ctx).
Proof.
  pose proof (@same_refl _ llm_calls) as Hr.
  pose proof (@same_trans _ llm_calls) as Ht.
  assert (Hc : forall k, steps (same llm_calls) (count_type k))
    by (intros k st; reflexivity).
  assert (Hs : forall cs, steps (same llm_calls) (submit_all cs)).
  { intros cs. apply same_submit_all; intros c st; [|reflexivity].
    unfold _is_unique_card. destruct (decide _); reflexivity. }
  assert (Hw : forall flag m, steps (same llm_calls) m ->
                              steps (same llm_calls) (when flag m)).
  { intros [|] m Hm; cbn [when]; [|now apply steps_ret].
    apply same_bind; [exact Hm|exact Hs]. }
  induction topic as [n c subs ex kc d IH] using Topic_ind'. intros ctx.
  rewrite generate_cards_unfold. cbn [name subtopics].
  apply same_bind; [|intros cards].
  { unfold own_cards.
    apply same_bind; [apply offline_steps_concept|intros cc].
    apply same_bind; [apply Hs|intros c1].
    apply same_bind; [apply Hw, offline_steps_basic|intros c2].
    apply same_bind; [apply Hw, offline_steps_cloze|intros c3].
    apply same_bind; [apply Hw; now apply steps_descriptor|intros c4].
    apply same_bind; [apply Hw; now apply steps_multiline|intros c5].
    apply same_bind; [apply Hw; now apply steps_list_answer|intros c6].
    apply same_bind; [apply Hw; now apply steps_multiple_choice|intros c7].
    now apply steps_ret. }
  apply same_bind; [|intros subtopic_cards].
  { apply steps_for_each_Forall; [exact Hr|exact Ht|].
    eapply Forall_impl; [exact IH|]. intros sub Hsub. apply Hsub. }
  apply same_bind; [intros st; reflexivity|intros u].
  now apply steps_ret.
Qed.

End Offline.

(** X18.  When every call of the external capability raises,
    [generate_cards] still returns: the helpers swallow the exceptions, the
    cards returned are only those derived from the topic itself
    (descriptor, multi-line, list and choice cards), and [llm_calls] is not
    raised. *)
Theorem generate_cards_offline (env : Env) (topic : Topic)
    (ctx : option string) (st : State) :
  offline env ->
  Forall derived_kind (fst (generate_cards env topic ctx st))
  /\ llm_calls (snd (generate_cards env topic ctx st)) = llm_calls st.
Proof.
  intros Hoff. split.
  - apply yields_generate_cards. intros t c. now apply offline_own_cards.
  - now apply offline_llm_calls.
Qed.

Lemma generate_cards_offline_witness :
  offline offline_env
  /\ Forall derived_kind
       (fst (generate_cards offline_env sample_topic None initial_state))
  /\ llm_calls (snd (generate_cards offline_env sample_topic None
                       initial_state))
     = llm_calls initial_state.
Proof.
  assert (Hoff : offline offline_env) by (intros n p t; reflexivity).
  split; [exact Hoff|].
  exact (generate_cards_offline offline_env sample_topic None initial_state
           Hoff).
Defined.

End GeneratorCards.

(** ** The generation loop of [main] *)

Section Pipeline.

Lemma adds_generate_all env topics :
  CardGenerator.adds_from 0 (@List.length Flashcard) (generate_all env topics).
Proof.
  unfold generate_all. apply adds_for_each. intros topic.
  eapply adds_bind; [apply adds_generate_cards|]. intros topic_cards.
  eapply adds_bind;
    [apply adds_for_each; intros sub; apply adds_generate_cards|].
  intros subtopic_cards. apply adds_ret. rewrite length_app. lia.
Qed.

Lemma accepts_generate_all env topics :
  accepts_from [] (generate_all env topics).
Proof.
  unfold generate_all. apply accepts_for_each.
  apply List.Forall_forall. intros topic _.
  apply accepts_bind; [apply accepts_generate_cards|]. intros topic_cards.
  apply accepts_bind.
  { apply accepts_for_each. apply List.Forall_forall. intros sub _.
    apply accepts_generate_cards. }
  intros subtopic_cards. apply accepts_ret_eq. reflexivity.
Qed.

Lemma format_cards_total cards hierarchy st :
  total_cards (snd (format_cards cards hierarchy st)) = List.length cards.
Proof.
  unfold format_cards. destruct cards as [|c cards]; rewrite !bind_fst;
    reflexivity.
Qed.

(** X19.  In the run of [main], from a new generator and a new formatter,
    the cards handed to the formatter carry pairwise different
    fingerprints, and the generator's [total_cards], the formatter's
    [total_cards] and the number of cards are the same number. *)
Theorem pipeline_totals_agree (env : CardGenerator.Env)
    (topics : list CardGenerator.Topic) (hierarchy : bool) :
  List.NoDup
    (map source_hash (fst (fst (generate_and_format env topics hierarchy))))
  /\ CardGenerator.total_cards
       (snd (fst (generate_and_format env topics hierarchy)))
     = List.length (fst (fst (generate_and_format env topics hierarchy)))
  /\ total_cards (snd (snd (generate_and_format env topics hierarchy)))
     = List.length (fst (fst (generate_and_format env topics hierarchy))).
Proof.
  unfold generate_and_format. cbn [fst snd].
  destruct (accepts_from_nil _ CardGenerator.initial_state
              (accepts_generate_all env topics)) as (_ & Hnd & _).
  destruct (adds_generate_all env topics CardGenerator.initial_state)
    as [Ht _].
  cbn [CardGenerator.total_cards CardGenerator.initial_state] in Ht.
  repeat split; [exact Hnd|lia|apply format_cards_total].
Qed.

Lemma list_sum_succ {A} (w : A -> nat) (l : list A) :
  list_sum (map (fun x => S (w x)) l) = List.length l + list_sum (map w l).
Proof.
  unfold list_sum.
  induction l as [|x l IH]; cbn [map fold_right List.length]; lia.
Qed.

Lemma generate_all_body_topics env topic st :
  CardGenerator.topics_processed
    (snd (for_each (fun subtopic =>
                      CardGenerator.generate_cards env subtopic
                        (Some (CardGenerator.name topic)))
            (CardGenerator.subtopics topic)
            (snd (CardGenerator.generate_cards env topic None st))))
  = CardGenerator.topics_processed st
    + (S (count_below topic) + count_below topic).
Proof.
  rewrite (for_each_sum CardGenerator.topics_processed
             (fun t => S (count_below t))).
  - rewrite generate_cards_topics_processed, list_sum_succ.
    destruct topic as [n c subs ex kc d].
    cbn [CardGenerator.subtopics count_below]. lia.
  - apply List.Forall_forall. intros sub _ st'.
    apply generate_cards_topics_processed.
Qed.

(** X20.  The loop of [main] processes every subtopic tree twice, once
    inside [generate_cards] of its topic and once more from the loop: the
    counter [topics_processed] grows by twice the number of topics of the
    content, less the number of top-level topics. *)
Theorem main_processes_subtopics_twice (env : CardGenerator.Env)
    (topics : list CardGenerator.Topic) (st : CardGenerator.State) :
  CardGenerator.topics_processed (snd (generate_all env topics st))
  + List.length topics
  = CardGenerator.topics_processed st + 2 * count_topics_recursive topics.
Proof.
  unfold generate_all.
  rewrite (for_each_sum CardGenerator.topics_processed
             (fun t => S (count_below t) + count_below t)).
  - unfold count_topics_recursive, list_sum.
    induction topics as [|t topics IH]; cbn [map fold_right List.length] in *;
      lia.
  - apply List.Forall_forall. intros topic _ st'.
    rewrite !bind_fst. cbn [ret snd]. apply generate_all_body_topics.
Qed.

(** *** Fingerprints known to the generator *)

Lemma known_app hs1 hs2 st :
  known (hs1 ++ hs2) st <-> known hs1 st /\ known hs2 st.
Proof.
  unfold known. split.
  - intros H. split; intros h Hh; apply H, in_or_app; auto.
  - intros [H1 H2] h Hh. apply in_app_or in Hh as [Hh|Hh]; auto.
Qed.

Lemma known_grows hs st st' : grows st st' -> known hs st -> known hs st'.
Proof. intros Hg H h Hh. apply Hg, H, Hh. Qed.

Lemma grows_refl st : grows st st.
Proof. unfold grows. set_solver. Qed.

Lemma grows_trans a b c : grows a b -> grows b c -> grows a c.
Proof. unfold grows. set_solver. Qed.

Lemma grows_same {A} (m : CardGenerator.Gen A) :
  steps (same CardGenerator.generated_cards) m -> steps grows m.
Proof. intros H st. unfold grows. now rewrite (H st). Qed.

Lemma grows_submit_all cs : steps grows (CardGenerator.submit_all cs).
Proof.
  intros st. unfold grows.
  destruct (submit_all_session cs st) as (-> & _). set_solver.
Qed.

Lemma grows_when flag m :
  steps (same CardGenerator.generated_cards) m ->
  steps grows (CardGenerator.when flag m).
Proof.
  intros Hm. destruct flag; cbn [CardGenerator.when].
  - apply steps_bind; [exact grows_trans|now apply grows_same|].
    intros cs. apply grows_submit_all.
  - apply steps_ret, grows_refl.
Qed.

(** *** Rules for specifications *)

Lemma triple_ret {A} (P : CardGenerator.State -> Prop) (a : A)
    (Q : A -> CardGenerator.State -> Prop) :
  (forall st, P st -> Q a st) -> triple P (ret a) Q.
Proof. intros H st Hst. now apply H. Qed.

Lemma triple_bind {A B} (P : CardGenerator.State -> Prop)
    (m : CardGenerator.Gen A) (Q : A -> CardGenerator.State -> Prop)
    (k : A -> CardGenerator.Gen B) (R : B -> CardGenerator.State -> Prop) :
  triple P m Q -> (forall a, triple (Q a) (k a) R) -> triple P (bind m k) R.
Proof. intros Hm Hk st Hst. rewrite bind_fst. apply Hk, Hm, Hst. Qed.

Lemma triple_pure {A} (fact : Prop) (P : CardGenerator.State -> Prop)
    (m : CardGenerator.Gen A) (Q : A -> CardGenerator.State -> Prop) :
  (fact -> triple P m Q) -> triple (fun st => fact /\ P st) m Q.
Proof. intros H st [Hf Hst]. now apply H. Qed.

Lemma triple_frame {A} hs (m : CardGenerator.Gen A) :
  steps grows m -> triple (known hs) m (fun _ => known hs).
Proof. intros Hm st Hst. eapply known_grows; [apply Hm|exact Hst]. Qed.

(** *** What a computation adds to the known fingerprints *)

Lemma learns_eq {A} hs hs' (m : CardGenerator.Gen A) :
  hs = hs' -> learns hs m -> learns hs' m.
Proof. now intros ->. Qed.

Lemma learns_nil {A} (m : CardGenerator.Gen A) : steps grows m -> learns [] m.
Proof.
  intros Hm hs0. rewrite app_nil_r. now apply triple_frame.
Qed.

Lemma learns_bind {A B} hs1 hs2 (m : CardGenerator.Gen A)
    (k : A -> CardGenerator.Gen B) :
  learns hs1 m -> (forall a, learns hs2 (k a)) ->
  learns (hs1 ++ hs2) (bind m k).
Proof.
  intros Hm Hk hs0. rewrite app_assoc.
  eapply triple_bind; [apply Hm|]. intros a. apply Hk.
Qed.

Lemma learns_for_each {A B} (hs : A -> list string)
    (body : A -> CardGenerator.Gen (list B)) (l : list A) :
  Forall (fun x => learns (hs x) (body x)) l ->
  learns (flat_map hs l) (for_each body l).
Proof.
  induction 1 as [|x l Hx Hl IH]; cbn [for_each flat_map].
  - apply learns_nil, steps_ret, grows_refl.
  - apply learns_bind; [exact Hx|]. intros ys.
    apply (learns_eq (flat_map hs l ++ [])); [apply app_nil_r|].
    apply learns_bind; [exact IH|]. intros zs.
    apply learns_nil, steps_ret, grows_refl.
Qed.

Lemma learns_submit_all cs :
  learns (map source_hash cs) (CardGenerator.submit_all cs).
Proof.
  intros hs0 st H0. apply known_app. split.
  - eapply known_grows; [apply grows_submit_all|exact H0].
  - intros h Hh. destruct (submit_all_session cs st) as (-> & _).
    apply elem_of_union_l, elem_of_list_to_set, list_elem_of_In. exact Hh.
Qed.

Lemma learns_when (flag : bool) m (cs : list Flashcard) :
  (forall st, fst (m st) = cs) ->
  steps (same CardGenerator.generated_cards) m ->
  learns (map source_hash (if flag then cs else []))
         (CardGenerator.when flag m).
Proof.
  intros Hp Hm. destruct flag; cbn [CardGenerator.when].
  - intros hs0 st H0. rewrite bind_fst, Hp.
    apply learns_submit_all.
    eapply known_grows; [apply grows_same, Hm|exact H0].
  - apply learns_nil, steps_ret, grows_refl.
Qed.

End Pipeline.

Section SecondPass.

Import CardGenerator.

Ltac keeps :=
  first [ apply same_refl
        | apply same_trans
        | (intros ? ?st; reflexivity)
        | (intros ? ? ? ?st; unfold call_llm;
           destruct (llm_generate _ _ _ _); reflexivity) ].

(** The generators that do not call the external capability return the
    same cards in every state. *)
Lemma for_each_pure {A B} (body : A -> Gen (list B)) (l : list A) :
  (forall x st st', fst (body x st) = fst (body x st')) ->
  forall st st', fst (for_each body l st) = fst (for_each body l st').
Proof.
  intros Hb. induction l as [|x l IH]; intros st st'; cbn [for_each].
  - reflexivity.
  - rewrite !bind_fst. cbn [ret fst]. f_equal; [apply Hb|apply IH].
Qed.

Lemma descriptor_pure env topic ctx st st' :
  fst (_generate_descriptor_cards env topic ctx st)
  = fst (_generate_descriptor_cards env topic ctx st').
Proof.
  unfold _generate_descriptor_cards.
  destruct (negb _); [reflexivity|].
  destruct (get_config _ _) as [pc|]; [|reflexivity].
  destruct (slice_to_value _ _) as [concepts|]; [|reflexivity].
  apply for_each_pure. intros x s s'. now rewrite !bind_fst.
Qed.

Lemma multiline_pure env topic ctx st st' :
  fst (_generate_multiline_cards env topic ctx st)
  = fst (_generate_multiline_cards env topic ctx st').
Proof.
  unfold _generate_multiline_cards.
  destruct (_ <? _)%nat; [now rewrite !bind_fst|reflexivity].
Qed.

Lemma list_answer_pure env topic ctx st st' :
  fst (_generate_list_answer_cards env topic ctx st)
  = fst (_generate_list_answer_cards env topic ctx st').
Proof.
  unfold _generate_list_answer_cards.
  destruct (_ <? _)%nat; [now rewrite !bind_fst|reflexivity].
Qed.

Lemma multiple_choice_pure env topic ctx st st' :
  fst (_generate_multiple_choice_cards env topic ctx st)
  = fst (_generate_multiple_choice_cards env topic ctx st').
Proof.
  unfold _generate_multiple_choice_cards.
  destruct (_ <=? _)%nat; [now rewrite !bind_fst|reflexivity].
Qed.

(** *** The first pass learns the fingerprints of the derived cards *)

Lemma learns_own_cards env topic ctx :
  learns (map source_hash (derived_candidates env topic ctx))
         (own_cards env topic ctx).
Proof.
  unfold own_cards, derived_candidates. rewrite !map_app.
  apply (learns_bind []);
    [apply learns_nil, grows_same, steps_concept; keeps|intros cc].
  apply (learns_bind []); [apply learns_nil, grows_submit_all|intros c1].
  apply (learns_bind []);
    [apply learns_nil, grows_when, steps_basic; keeps|intros c2].
  apply (learns_bind []);
    [apply learns_nil, grows_when, steps_cloze; keeps|intros c3].
  apply learns_bind; [|intros c4].
  { apply learns_when; [intros st; apply descriptor_pure|].
    apply steps_descriptor; keeps. }
  apply learns_bind; [|intros c5].
  { apply learns_when; [intros st; apply multiline_pure|].
    apply steps_multiline; keeps. }
  apply learns_bind; [|intros c6].
  { apply learns_when; [intros st; apply list_answer_pure|].
    apply steps_list_answer; keeps. }
  apply (learns_eq (map source_hash
                      (if multiple_choice (card_types env)
                       then fst (_generate_multiple_choice_cards env topic ctx
                                   initial_state)
                       else []) ++ [])); [apply app_nil_r|].
  apply learns_bind; [|intros c7].
  { apply learns_when; [intros st; apply multiple_choice_pure|].
    apply steps_multiple_choice; keeps. }
  apply learns_nil, steps_ret, grows_refl.
Qed.

Lemma derived_hashes_unfold env topic ctx :
  derived_hashes env topic ctx
  = map source_hash (derived_candidates env topic ctx)
    ++ flat_map (fun sub => derived_hashes env sub (Some (name topic)))
                (subtopics topic).
Proof. destruct topic. reflexivity. Qed.

Lemma learns_generate_cards env topic :
  forall ctx,
    learns (derived_hashes env topic ctx) (generate_cards env topic ctx).
Proof.
  induction topic as [n c subs ex kc d IH] using Topic_ind'. intros ctx.
  rewrite generate_cards_unfold, derived_hashes_unfold. cbn [name subtopics].
  apply learns_bind; [apply learns_own_cards|intros cards].
  apply (learns_eq (flat_map (fun sub => derived_hashes env sub (Some n)) subs
                    ++ [] ++ [])); [now rewrite !app_nil_r|].
  apply learns_bind; [|intros subtopic_cards].
  { apply learns_for_each. eapply Forall_impl; [exact IH|].
    intros sub Hsub. apply Hsub. }
  apply learns_bind; [|intros u].
  - apply learns_nil, grows_same. intros st. reflexivity.
  - apply learns_nil, steps_ret, grows_refl.
Qed.

(** *** A later pass accepts none of them *)

Lemma submit_all_known cs :
  forall st,
    (forall c, In c cs -> source_hash c ∈ generated_cards st) ->
    fst (submit_all cs st) = [].
Proof.
  induction cs as [|c cs IH]; intros st H; [reflexivity|].
  rewrite submit_all_cons. cbn [fst].
  destruct (submit_seen c st (H c (or_introl eq_refl))) as (-> & Hg & _).
  cbn [app]. apply IH. intros c' Hc'. rewrite Hg. apply H. now right.
Qed.

Lemma when_rejects hs (flag : bool) m (cs : list Flashcard) :
  (forall st, fst (m st) = cs) ->
  steps (same generated_cards) m ->
  incl (map source_hash (if flag then cs else [])) hs ->
  triple (known hs) (when flag m)
         (fun cards st => Forall llm_kind cards /\ known hs st).
Proof.
  intros Hp Hm Hi st Hst. split.
  - destruct flag; cbn [when]; [|constructor].
    rewrite bind_fst, Hp, submit_all_known; [constructor|].
    intros c Hc. rewrite (Hm st). apply Hst, Hi. now apply in_map.
  - eapply known_grows; [apply grows_when, Hm|exact Hst].
Qed.

Lemma when_accepts hs flag m :
  yields llm_kind m ->
  steps (same generated_cards) m ->
  triple (known hs) (when flag m)
         (fun cards st => Forall llm_kind cards /\ known hs st).
Proof.
  intros Hy Hm st Hst. split.
  - now apply yields_when.
  - eapply known_grows; [apply grows_when, Hm|exact Hst].
Qed.

Lemma llm_concept env topic ctx st :
  match fst (_generate_concept_card env topic ctx st) with
  | Some card => llm_kind card
  | None => True
  end.
Proof.
  unfold _generate_concept_card.
  destruct (negb _); [exact I|].
  destruct (get_config _ _) as [pc|]; [|exact I].
  destruct (format_prompt _ _ _); [|exact I].
  rewrite bind_fst. destruct (fst (call_llm _ _ _ _)) as [r|]; [|exact I].
  destruct (as_str _) as [sep|]; [|exact I].
  destruct (PyStr.contains _ r); [|exact I].
  destruct (PyStr.split_once _ r) as [[f b]|]; [|exact I].
  rewrite bind_fst. cbn [ret fst]. left. reflexivity.
Qed.

Lemma llm_basic env topic ctx :
  yields llm_kind (_generate_basic_cards env topic ctx).
Proof.
  unfold _generate_basic_cards.
  destruct (negb _); [apply yields_nil|].
  destruct (get_config _ _) as [pc|]; [|apply yields_nil].
  destruct (format_prompt _ _ _); [|apply yields_nil].
  intros st. rewrite bind_fst.
  destruct (fst (call_llm _ _ _ _)) as [r|]; [|constructor].
  destruct (as_str _) as [sep|]; [|constructor].
  destruct (slice_to_value _ _) as [first_lines|]; [|constructor].
  apply basic_loop_yields; [|constructor].
  intros f b. right. left. reflexivity.
Qed.

Lemma llm_cloze env topic ctx :
  yields llm_kind (_generate_cloze_cards env topic ctx).
Proof.
  unfold _generate_cloze_cards.
  destruct (negb _); [apply yields_nil|].
  destruct (get_config _ _) as [pc|]; [|apply yields_nil].
  destruct (format_prompt _ _ _); [|apply yields_nil].
  intros st. rewrite bind_fst.
  destruct (fst (call_llm _ _ _ _)) as [r|]; [|constructor].
  destruct (slice_to_value _ _) as [first_lines|]; [|constructor].
  apply yields_for_each. intros line. apply yields_singleton.
  right. right. reflexivity.
Qed.

Lemma own_cards_later env topic ctx hs :
  incl (map source_hash (derived_candidates env topic ctx)) hs ->
  triple (known hs) (own_cards env topic ctx)
         (fun cards st => Forall llm_kind cards /\ known hs st).
Proof.
  unfold derived_candidates. rewrite !map_app. intros Hi.
  apply incl_app_inv in Hi as [Hi4 Hi].
  apply incl_app_inv in Hi as [Hi5 Hi].
  apply incl_app_inv in Hi as [Hi6 Hi7].
  unfold own_cards.
  apply (triple_bind _ _ (fun cc st =>
           match cc with Some card => llm_kind card | None => True end
           /\ known hs st)).
  { intros st Hst. split; [apply llm_concept|].
    eapply known_grows; [|exact Hst].
    apply grows_same. apply steps_concept; keeps. }
  intros cc. apply triple_pure. intros Hcc.
  apply (triple_bind _ _ (fun cards st =>
           Forall llm_kind cards /\ known hs st)).
  { intros st Hst. split.
    - apply submit_all_Forall. destruct cc; [now constructor|constructor].
    - eapply known_grows; [apply grows_submit_all|exact Hst]. }
  intros c1. apply triple_pure. intros H1.
  apply (triple_bind _ _ (fun cards st =>
           Forall llm_kind cards /\ known hs st)).
  { apply when_accepts; [apply llm_basic|apply steps_basic; keeps]. }
  intros c2. apply triple_pure. intros H2.
  apply (triple_bind _ _ (fun cards st =>
           Forall llm_kind cards /\ known hs st)).
  { apply when_accepts; [apply llm_cloze|apply steps_cloze; keeps]. }
  intros c3. apply triple_pure. intros H3.
  apply (triple_bind _ _ (fun cards st =>
           Forall llm_kind cards /\ known hs st)).
  { eapply when_rejects; [intros st; apply descriptor_pure| |exact Hi4].
    apply steps_descriptor; keeps. }
  intros c4. apply triple_pure. intros H4.
  apply (triple_bind _ _ (fun cards st =>
           Forall llm_kind cards /\ known hs st)).
  { eapply when_rejects; [intros st; apply multiline_pure| |exact Hi5].
    apply steps_multiline; keeps. }
  intros c5. apply triple_pure. intros H5.
  apply (triple_bind _ _ (fun cards st =>
           Forall llm_kind cards /\ known hs st)).
  { eapply when_rejects; [intros st; apply list_answer_pure| |exact Hi6].
    apply steps_list_answer; keeps. }
  intros c6. apply triple_pure. intros H6.
  apply (triple_bind _ _ (fun cards st =>
           Forall llm_kind cards /\ known hs st)).
  { eapply when_rejects; [intros st; apply multiple_choice_pure| |exact Hi7].
    apply steps_multiple_choice; keeps. }
  intros c7. apply triple_pure. intros H7.
  apply triple_ret. intros st Hst. split; [|exact Hst].
  repeat (apply Forall_app; split); assumption.
Qed.

Lemma for_each_later {A} hs (body : A -> Gen (list Flashcard)) (l : list A) :
  Forall (fun x => triple (known hs) (body x)
                     (fun cards st => Forall llm_kind cards /\ known hs st)) l ->
  triple (known hs) (for_each body l)
         (fun cards st => Forall llm_kind cards /\ known hs st).
Proof.
  induction 1 as [|x l Hx Hl IH]; cbn [for_each].
  - apply triple_ret. intros st Hst. split; [constructor|exact Hst].
  - eapply triple_bind; [exact Hx|]. intros ys.
    apply triple_pure. intros Hys.
    eapply triple_bind; [exact IH|]. intros zs.
    apply triple_pure. intros Hzs.
    apply triple_ret. intros st Hst. split; [|exact Hst].
    apply Forall_app. now split.
Qed.

Lemma generate_cards_later env topic :
  forall ctx hs,
    incl (derived_hashes env topic ctx) hs ->
    triple (known hs) (generate_cards env topic ctx)
           (fun cards st => Forall llm_kind cards /\ known hs st).
Proof.
  induction topic as [n c subs ex kc d IH] using Topic_ind'.
  intros ctx hs Hi.
  rewrite derived_hashes_unfold in Hi. cbn [name subtopics] in Hi.
  apply incl_app_inv in Hi as [Hown Hsubs].
  rewrite generate_cards_unfold. cbn [name subtopics].
  eapply triple_bind; [now apply own_cards_later|]. intros cards.
  apply triple_pure. intros Hcards.
  eapply triple_bind.
  { apply for_each_later. apply List.Forall_forall. intros sub Hin.
    rewrite List.Forall_forall in IH. apply (IH sub Hin).
    intros h Hh. apply Hsubs, in_flat_map. eauto. }
  intros subtopic_cards. apply triple_pure. intros Hsc.
  eapply triple_bind;
    [apply (triple_frame hs topic_processed), grows_same;
     intros st; reflexivity|].
  intros u. apply triple_ret. intros st Hst. split; [|exact Hst].
  apply Forall_app. now split.
Qed.

(** X21.  The second pass of [main] over the subtopics of a topic, made
    right after [generate_cards] of the topic with the same context, adds
    no card derived from the topics themselves: every descriptor,
    multi-line, list and choice card is built again and rejected as a
    duplicate, so the pass returns only cards parsed from answers of the
    external capability. *)
Theorem second_pass_returns_llm_cards_only (env : Env) (topic : Topic)
    (st : State) :
  Forall llm_kind
    (fst (for_each (fun subtopic =>
                      generate_cards env subtopic (Some (name topic)))
            (subtopics topic)
            (snd (generate_cards env topic None st)))).
Proof.
  assert (Hk : known (derived_hashes env topic None)
                 (snd (generate_cards env topic None st))).
  { apply (learns_generate_cards env topic None [] st). intros h []. }
  refine (proj1 (for_each_later (derived_hashes env topic None) _ _ _ _ Hk)).
  apply List.Forall_forall. intros sub Hin.
  apply generate_cards_later.
  rewrite (derived_hashes_unfold env topic None).
  intros h Hh. apply in_or_app. right. apply in_flat_map. eauto.
Qed.

End SecondPass.

(** ** What the retry wrapper returns and raises *)

Section RetryOutcome.

Import LLMClient.

Variable A : Type.
Variable float : Type.
Variable fmul : float -> Z -> float + Exn.
Variable sleep : float -> option Exn.
Variable retry_attempts : Z.
Variable retry_delay : float.
Variable func : nat -> A + Exn.

Local Abbreviation loop :=
  (attempts A float fmul sleep retry_attempts retry_delay func).
Local Abbreviation head :=
  (at_loop_head float fmul retry_attempts retry_delay).
Local Abbreviation delay := (backoff float fmul retry_delay).
Local Abbreviation slept_ok := (delays_ok float fmul sleep retry_delay).
Local Abbreviation raises := (backoff_raises float fmul sleep retry_delay).
Local Abbreviation wrapper :=
  (_retry_with_backoff A float fmul sleep retry_attempts retry_delay func).

Lemma attempts_outcome remaining :
  forall attempt last tr,
    head attempt remaining tr ->
    (attempt = 0 -> last = None) ->
    all_fail func attempt ->
    match fst (loop attempt remaining last tr) with
    | inl v =>
        exists k,
          attempt <= k < attempt + remaining
          /\ invocations (snd (loop attempt remaining last tr)) = S k
          /\ func k = inl v /\ all_fail func k
    | inr e =>
        (invocations (snd (loop attempt remaining last tr))
         = attempt + remaining
         /\ all_fail func (attempt + remaining)
         /\ raised_after func (attempt + remaining) e)
        \/ exists k,
             attempt <= k /\ S k < attempt + remaining
             /\ invocations (snd (loop attempt remaining last tr)) = S k
             /\ all_fail func (S k) /\ raises k e
    end.
Proof.
  induction remaining as [|remaining IH];
    intros attempt last tr Hhead Hlast Hfail;
    pose proof Hhead as (Hsum & Hzero & Hinv & Hsl).
  - cbn [attempts fst snd]. rewrite (Hzero eq_refl) in *.
    rewrite (Hlast eq_refl). cbn [Nat.add raised_after]. auto.
  - rewrite attempts_S, Hinv.
    destruct (func attempt) as [v|e] eqn:Ef.
    + cbn [fst snd invoked invocations]. exists attempt.
      repeat split; [lia|lia|now rewrite Hinv|exact Ef|exact Hfail].
    + assert (Hfail' : all_fail func (S attempt)).
      { intros j Hj. destruct (Nat.eq_dec j attempt) as [->|Hne];
          [eauto|apply Hfail; lia]. }
      destruct (Z.ltb_spec (Z.of_nat attempt) (retry_attempts - 1))
        as [Hlt|Hge].
      * assert (Hleave : forall raised,
                   raises attempt raised ->
                   exists k,
                     attempt <= k /\ S k < attempt + S remaining
                     /\ invocations (invoked float tr) = S k
                     /\ all_fail func (S k) /\ raises k raised).
        { intros raised Hr. exists attempt.
          repeat split; [lia|lia|cbn; now rewrite Hinv|exact Hfail'|exact Hr]. }
        destruct (delay attempt) as [d|raised] eqn:Hb;
          [|right; apply Hleave; now left].
        destruct (sleep d) as [raised|] eqn:Hs;
          [right; apply Hleave; right; eauto|].
        specialize (IH (S attempt) (Some e) _
                      (head_step _ _ _ _ _ _ _ _ Hhead Hlt Hb)
                      ltac:(discriminate) Hfail').
        replace (attempt + S remaining) with (S attempt + remaining) by lia.
        destruct (fst (loop (S attempt) remaining (Some e) _)) as [v|e'].
        -- destruct IH as (k & Hk & Hi & Hv & Hf).
           exists k. repeat split; [lia|lia|exact Hi|exact Hv|exact Hf].
        -- destruct IH as [IH|(k & Hk1 & Hk2 & Hrest)]; [now left|].
           right. exists k. repeat split; [lia|exact Hk2|apply Hrest..].
      * assert (remaining = 0) by lia. subst remaining.
        replace (attempt + 1) with (S attempt) by lia.
        assert (Hr : raised_after func (S attempt)
                       (if is_RateLimitError e then e
                        else LLMError ("All retry attempts failed: "
                                       +:+ message e)))
          by (exists e; auto).
        destruct (is_RateLimitError e); cbn [fst snd invoked invocations];
          rewrite Hinv; auto.
Qed.

Lemma retry_outcome :
  match fst wrapper with
  | inl v =>
      exists k,
        k < Z.to_nat retry_attempts
        /\ invocations (snd wrapper) = S k
        /\ func k = inl v /\ all_fail func k
  | inr e =>
      (invocations (snd wrapper) = Z.to_nat retry_attempts
       /\ all_fail func (Z.to_nat retry_attempts)
       /\ raised_after func (Z.to_nat retry_attempts) e)
      \/ exists k,
           S k < Z.to_nat retry_attempts
           /\ invocations (snd wrapper) = S k
           /\ all_fail func (S k) /\ raises k e
  end.
Proof.
  unfold _retry_with_backoff.
  pose proof (attempts_outcome (Z.to_nat retry_attempts) 0 None
                (mkTrace float 0 [])) as H.
  cbn [Nat.add] in H.
  destruct (fst (loop 0 (Z.to_nat retry_attempts) None (mkTrace float 0 [])))
    as [v|e].
  - destruct H as (k & Hk & Hrest).
    + repeat split; lia.
    + reflexivity.
    + intros j Hj. lia.
    + exists k. split; [lia|exact Hrest].
  - destruct H as [H|(k & _ & Hrest)];
      [repeat split; lia|reflexivity|intros j Hj; lia|now left|].
    right. exists k. exact Hrest.
Qed.

(** X22.  The wrapper returns the value of the first invocation that
    returns, provided that invocation is among the first [retry_attempts]
    and the delays before it can be computed and slept: when the
    invocations before the [k]-th all raise and the [k]-th returns [v], the
    wrapper returns [v] after [k + 1] invocations and [k] sleeps of
    [retry_delay * 2 ** 0], ..., [retry_delay * 2 ** (k - 1)]. *)
Theorem retry_returns_first_success (k : nat) (v : A) :
  (Z.of_nat k < retry_attempts)%Z ->
  all_fail func k ->
  slept_ok k ->
  func k = inl v ->
  exists delays,
    wrapper = (inl v, mkTrace float (S k) delays)
    /\ map inl delays = map delay (seq 0 k).
Proof.
  intros Hk Hfail Hok Hv.
  pose proof retry_outcome as Ho.
  assert (Hhead : head 0 (Z.to_nat retry_attempts) (mkTrace float 0 []))
    by (repeat split; lia).
  destruct (attempts_trace A float fmul sleep retry_attempts retry_delay func
              _ 0 None _ Hhead) as (_ & Hs & Hl).
  fold wrapper in Hs, Hl.
  destruct wrapper as [[v'|e] [n sl]]; cbn [fst snd invocations sleeps] in *.
  - destruct Ho as (k' & Hk' & -> & Hv' & Hf').
    assert (k' = k).
    { destruct (Nat.lt_trichotomy k' k) as [Hlt|[Heq|Hgt]]; [|exact Heq|].
      - destruct (Hfail k' Hlt) as [e He]. congruence.
      - destruct (Hf' k Hgt) as [e He]. congruence. }
    subst k'. exists sl. split; [congruence|].
    rewrite Hs, Hl. now replace (S k - 1) with k by lia.
  - exfalso. destruct Ho as [(_ & Hall & _)|(j & Hj & _ & Hall & Hr)].
    + destruct (Hall k ltac:(lia)) as [e' He']. congruence.
    + destruct (Nat.lt_ge_cases j k) as [Hlt|Hge].
      * destruct (Hok j Hlt) as (d & Hd & Hsd).
        destruct Hr as [Hr|(d' & Hd' & Hsd')]; congruence.
      * destruct (Hall k ltac:(lia)) as [e' He']. congruence.
Qed.

(** X23.  An exception that leaves the wrapper comes from one of two
    places.  Either every one of [retry_attempts] invocations has failed
    (none, when that number is not positive): then it is an [LLMError],
    namely the [RateLimitError] of the last invocation, or
    [LLMError("All retry attempts failed: ...")] with the message of the
    last exception, or with [None] when the function was never invoked.
    Or computing or sleeping the delay after an earlier failed invocation
    has raised: then that exception leaves at once, whatever its class. *)
Theorem retry_raises_llm_error :
  match fst wrapper with
  | inl _ => True
  | inr e =>
      (is_LLMError e = true
       /\ invocations (snd wrapper) = Z.to_nat retry_attempts
       /\ all_fail func (Z.to_nat retry_attempts)
       /\ raised_after func (Z.to_nat retry_attempts) e)
      \/ exists k,
           S k < Z.to_nat retry_attempts
           /\ invocations (snd wrapper) = S k
           /\ all_fail func (S k) /\ raises k e
  end.
Proof.
  pose proof retry_outcome as Ho.
  destruct (fst wrapper) as [v|e]; [exact I|].
  destruct Ho as [(Hi & Hall & Hr)|Ho]; [left|now right].
  repeat split; try assumption.
  destruct (Z.to_nat retry_attempts) as [|m]; cbn [raised_after] in Hr.
  - now subst e.
  - destruct Hr as (e_last & _ & ->). now destruct e_last.
Qed.

End RetryOutcome.

Lemma retry_returns_first_success_witness :
  exists delays,
    LLMClient._retry_with_backoff string Q q_mul q_sleep 3%Z (2 # 1)
      (fun k => match k with
                | 0 => inr (LLMClient.OtherError "timeout")
                | _ => inl "answer"
                end)
    = (inl "answer", LLMClient.mkTrace Q 2 delays)
    /\ map inl delays
       = map (LLMClient.backoff Q q_mul (2 # 1)) (seq 0 1).
Proof.
  apply (retry_returns_first_success string Q q_mul q_sleep 3%Z (2 # 1) _ 1
           "answer").
  - lia.
  - intros j Hj. assert (j = 0) as -> by lia. eexists. reflexivity.
  - intros j Hj. assert (j = 0) as -> by lia. eexists.
    split; reflexivity.
  - reflexivity.
Defined.

(** ** The parser's validators and statistics *)

Section Parser.

Import PyStr YAMLParser.

Lemma rstrip_idempotent s : rstrip (rstrip s) = rstrip s.
Proof.
  induction s as [|c s IH]; [reflexivity|]. cbn [rstrip].
  destruct (rstrip s) as [|a r] eqn:E.
  - destruct (isspace c) eqn:Ec; [reflexivity|]. cbn [rstrip]. now rewrite Ec.
  - cbn [rstrip]. cbn [rstrip] in IH. now rewrite IH.
Qed.

Lemma lstrip_head s :
  lstrip s = "" \/ exists c t, lstrip s = String c t /\ isspace c = false.
Proof.
  induction s as [|c s IH]; [now left|]. cbn [lstrip].
  destruct (isspace c) eqn:Ec; [exact IH|]. right. eauto.
Qed.

Lemma rstrip_head c t :
  isspace c = false -> exists r, rstrip (String c t) = String c r.
Proof.
  intros Ec. cbn [rstrip]. destruct (rstrip t); [rewrite Ec|]; eauto.
Qed.

Lemma strip_idempotent s : strip (strip s) = strip s.
Proof.
  unfold strip.
  assert (H : lstrip (rstrip (lstrip s)) = rstrip (lstrip s)).
  { destruct (lstrip_head s) as [->|(c & t & -> & Ec)]; [reflexivity|].
    destruct (rstrip_head c t Ec) as [r ->]. cbn [lstrip]. now rewrite Ec. }
  rewrite H. apply rstrip_idempotent.
Qed.

(** White space beyond ASCII is stripped too: a name of no-break spaces
    is rejected, and a content is measured after the next-line control and
    the no-break space around it are gone. *)
Example validators_strip_latin1 :
  validate_name (String (ascii_of_nat 160) (String (ascii_of_nat 133) ""))
  = None
  /\ validate_name (String (ascii_of_nat 160) "Kafka ") = Some "Kafka"
  /\ validate_content (String (ascii_of_nat 133)
                         ("123456789" +:+ String (ascii_of_nat 160) ""))
     = None.
Proof. repeat split; reflexivity. Qed.

(** X24.  The two validators of [Topic] that strip their value are
    idempotent, for a value of code points below 256 and the white space
    of [str.strip] among them (9-13, 28-32, U+0085, U+00A0): a name or a
    content that was accepted is returned unchanged when it is validated
    again; an accepted name is not empty and an accepted content has at
    least ten characters; a rejected name is empty once stripped, a
    rejected content shorter than ten characters once stripped. *)
Theorem topic_validators_idempotent (v : string) :
  match validate_name v with
  | Some name => validate_name name = Some name /\ name <> ""
  | None => strip v = ""
  end
  /\ match validate_content v with
     | Some content =>
         validate_content content = Some content
         /\ 10 <= String.length content
     | None => String.length (strip v) < 10
     end.
Proof.
  split.
  - unfold validate_name. destruct (strip v) as [|c s] eqn:E; [reflexivity|].
    rewrite <- E, strip_idempotent, E. split; [reflexivity|discriminate].
  - unfold validate_content.
    destruct (String.length (strip v) <? 10)%nat eqn:E.
    + now apply Nat.ltb_lt in E.
    + rewrite strip_idempotent, E. apply Nat.ltb_ge in E. auto.
Qed.

Lemma valid_difficulty_level d :
  validate_difficulty d = Some d ->
  In (match d with EmptyString => "intermediate" | String _ _ => d end)
     difficulty_levels.
Proof.
  unfold validate_difficulty, difficulty_levels. cbn [existsb In].
  destruct d as [|a d]; [auto|].
  change (String.eqb (String a d) "") with false.
  remember (String a d) as level eqn:El. clear El.
  destruct (String.eqb_spec level "beginner") as [->|_]; [auto|].
  destruct (String.eqb_spec level "intermediate") as [->|_]; [auto|].
  destruct (String.eqb_spec level "advanced") as [->|_]; [auto|].
  discriminate.
Qed.

Lemma count_level dist level :
  In level difficulty_levels -> has_levels dist ->
  exists n,
    dist !! level = Some n
    /\ has_levels (<[level := S n]> dist)
    /\ distribution_total (<[level := S n]> dist)
       = S (distribution_total dist).
Proof.
  unfold difficulty_levels, has_levels, distribution_total.
  intros Hl ([b Hb] & [i Hi] & [a Ha]). cbn [In] in Hl.
  destruct Hl as [<-|[<-|[<-|[]]]]; eexists; (split; [eassumption|]);
    simplify_map_eq; repeat split; eauto; lia.
Qed.

Lemma count_difficulty_subtopics (subs : list CardGenerator.Topic) :
  Forall (fun t => difficulties_valid t = true ->
                   forall dist, has_levels dist ->
                     exists dist',
                       count_difficulty t (Some dist) = Some dist'
                       /\ has_levels dist'
                       /\ distribution_total dist'
                          = distribution_total dist + S (count_below t)) subs ->
  forallb difficulties_valid subs = true ->
  forall dist, has_levels dist ->
    exists dist',
      fold_left (fun acc sub => count_difficulty sub acc) subs (Some dist)
      = Some dist'
      /\ has_levels dist'
      /\ distribution_total dist'
         = distribution_total dist + count_topics_recursive subs.
Proof.
  unfold count_topics_recursive, list_sum.
  induction 1 as [|t subs Ht Hsubs IH]; intros Hv dist Hd.
  - exists dist. cbn. auto.
  - cbn [forallb] in Hv. apply andb_true_iff in Hv as [Hvt Hvs].
    destruct (Ht Hvt dist Hd) as (d1 & E1 & Hd1 & T1).
    destruct (IH Hvs d1 Hd1) as (d2 & E2 & Hd2 & T2).
    exists d2. cbn [fold_left]. rewrite E1.
    repeat split; [exact E2|apply Hd2..|].
    cbn [map fold_right List.length]. lia.
Qed.

Lemma count_difficulty_total (topic : CardGenerator.Topic) :
  difficulties_valid topic = true ->
  forall dist, has_levels dist ->
    exists dist',
      count_difficulty topic (Some dist) = Some dist'
      /\ has_levels dist'
      /\ distribution_total dist'
         = distribution_total dist + S (count_below topic).
Proof.
  induction topic as [n c subs ex kc d IH] using Topic_ind'.
  intros Hv dist Hd. cbn [difficulties_valid] in Hv.
  destruct (validate_difficulty d) as [d'|] eqn:Ed; [|discriminate].
  assert (d' = d) as ->.
  { unfold validate_difficulty in Ed. destruct (_ && _); congruence. }
  destruct (count_level dist _ (valid_difficulty_level d Ed) Hd)
    as (k & Hk & Hd1 & T1).
  destruct (count_difficulty_subtopics subs IH Hv _ Hd1) as (d2 & E2 & Hd2 & T2).
  exists d2. cbn [count_difficulty]. rewrite Hk.
  repeat split; [exact E2|apply Hd2..|].
  rewrite T2, T1. unfold count_topics_recursive. cbn [count_below]. lia.
Qed.

(** X25.  When the difficulty of every topic has passed
    [validate_difficulty] (one of the three levels, or the empty string,
    which is counted as intermediate), [_get_difficulty_distribution]
    raises no [KeyError] and its three counts add up to [total_topics],
    the result of [count_topics_recursive] in the same statistics. *)
Theorem difficulty_distribution_total (topics : list CardGenerator.Topic) :
  forallb difficulties_valid topics = true ->
  exists dist,
    _get_difficulty_distribution topics = Some dist
    /\ distribution_total dist = count_topics_recursive topics.
Proof.
  intros Hv. unfold _get_difficulty_distribution.
  destruct (count_difficulty_subtopics topics) with
    (dist := list_to_map [("beginner", 0); ("intermediate", 0);
                          ("advanced", 0)] : gmap string nat)
    as (dist & E & _ & T).
  - apply List.Forall_forall. intros t _. apply count_difficulty_total.
  - exact Hv.
  - repeat split; eexists; reflexivity.
  - exists dist. split; [exact E|]. rewrite T. reflexivity.
Qed.

Lemma difficulty_distribution_total_witness :
  exists dist,
    _get_difficulty_distribution [sample_topic] = Some dist
    /\ distribution_total dist = count_topics_recursive [sample_topic].
Proof.
  apply (difficulty_distribution_total [sample_topic]). reflexivity.
Defined.

End Parser.

(** ** The validator on documents with concept cards *)

Section ValidatorVerdict.

Import PyStr.

Lemma contains_app_r p a b :
  contains p b = true -> contains p (a +:+ b) = true.
Proof.
  intros H. induction a as [|c a IH]; [exact H|].
  rewrite app_cons. now apply contains_cons.
Qed.

Lemma contains_app_l p a b :
  contains p a = true -> contains p (a +:+ b) = true.
Proof.
  induction a as [|c a IH]; intros H.
  - destruct p; [destruct b; reflexivity|discriminate].
  - rewrite app_cons. cbn [contains] in H. apply orb_prop in H as [H|H].
    + apply startswith_contains. rewrite <- app_cons.
      now apply startswith_app_l.
    + apply contains_cons. now apply IH.
Qed.

Lemma contains_join p sep line lines :
  In line lines -> contains p line = true ->
  contains p (join sep lines) = true.
Proof.
  intros Hin Hp. induction lines as [|l lines IH]; [destruct Hin|].
  destruct lines as [|l2 lines].
  - destruct Hin as [->|[]]. exact Hp.
  - cbn [join]. destruct Hin as [->|Hin].
    + now apply contains_app_l.
    + apply contains_app_r, contains_app_r. now apply IH.
Qed.

Lemma contains_tail a p s :
  contains (String a p) s = true -> contains p s = true.
Proof.
  induction s as [|c s IH]; intros H; [discriminate|].
  cbn [contains] in H. apply orb_prop in H as [H|H].
  - cbn [startswith] in H. apply andb_prop in H as [_ H].
    apply contains_cons. now apply startswith_contains.
  - apply contains_cons. now apply IH.
Qed.

Lemma blank_colons_unescaped s :
  contains " ::" s = true ->
  forall after_backslash, unescaped_colons_from after_backslash s = true.
Proof.
  induction s as [|c s IH]; intros H b; [discriminate|].
  cbn [contains] in H. apply orb_prop in H as [H|H].
  - cbn [startswith] in H. apply andb_prop in H as [Hc H].
    apply Ascii.eqb_eq in Hc. subst c.
    cbn [unescaped_colons_from]. apply orb_true_iff. right.
    destruct s as [|d s]; [discriminate|].
    cbn [unescaped_colons_from]. apply orb_true_iff. left.
    change (Ascii.eqb " " "\") with false. cbn [negb andb]. exact H.
  - cbn [unescaped_colons_from]. apply orb_true_iff. right. now apply IH.
Qed.

Lemma concept_delimiter_written c :
  concept_delimited c ->
  contains " ::" (fstr (run (_format_card c))) = true.
Proof.
  intros (Hd & Hk). unfold run, _format_card, _format_multiline_concept.
  rewrite !bind_fst.
  destruct Hk as [[Ht Hb]|Ht]; rewrite Ht.
  - rewrite Hb. cbn [ret fst fstr]. now apply contains_app_r.
  - destruct (direction c); [| | |congruence];
      (destruct (use_triple_delimiter c);
       rewrite !bind_fst; cbn [ret fst fstr]; now apply contains_app_r).
Qed.

Lemma document_contains_card p cards hierarchy st c :
  In c cards -> contains p (fstr (run (_format_card c))) = true ->
  contains p (fst (format_cards cards hierarchy st)) = true.
Proof.
  intros Hin Hp. destruct cards as [|c0 cards]; [destruct Hin|].
  unfold format_cards. rewrite !bind_fst. cbn [ret fst snd].
  destruct hierarchy.
  - unfold _format_hierarchical. rewrite bind_fst. cbn [ret fst].
    eapply contains_join; [apply hierarchical_lines_every_card, Hin|].
    unfold child_line_of. destruct (truthy (parent c));
      now apply contains_app_r.
  - unfold _format_flat. rewrite bind_fst. cbn [ret fst]. rewrite flat_lines.
    eapply contains_join; [apply in_map, Hin|].
    unfold flat_entry. destruct (tags c).
    + now apply contains_app_r.
    + now apply contains_app_r, contains_app_l.
Qed.

(** X26.  A document that [format_cards] writes for cards among which is
    a bidirectional or multi-line concept card contains the delimiter
    [::] after a blank: [validate_remnote_format] reports
    [proper_concept_syntax] for it and, the delimiter not being preceded
    by a backslash, never [no_unescaped_syntax]. *)
Theorem concept_document_verdict (cards : list Flashcard) (hierarchy : bool)
    (st : FormattingStats) (c : Flashcard) :
  In c cards -> concept_delimited c ->
  proper_concept_syntax
    (validate_remnote_format (fst (format_cards cards hierarchy st))) = true
  /\ no_unescaped_syntax
       (validate_remnote_format (fst (format_cards cards hierarchy st)))
     = false.
Proof.
  intros Hin Hc.
  pose proof (document_contains_card " ::" cards hierarchy st c Hin
                (concept_delimiter_written c Hc)) as H.
  cbn [validate_remnote_format proper_concept_syntax no_unescaped_syntax].
  split.
  - now apply (contains_tail " "%char).
  - now rewrite blank_colons_unescaped.
Qed.

Lemma concept_document_verdict_witness :
  proper_concept_syntax
    (validate_remnote_format (fst (format_cards [twin_a] false fresh_stats)))
  = true
  /\ no_unescaped_syntax
       (validate_remnote_format (fst (format_cards [twin_a] false fresh_stats)))
     = false.
Proof.
  apply (concept_document_verdict [twin_a] false fresh_stats twin_a).
  - left. reflexivity.
  - split; [discriminate|]. left. split; reflexivity.
Defined.

End ValidatorVerdict.

(** ** From the generator to the formatter *)

Section GeneratedLines.

Import CardGenerator.

Lemma as_generated_concept env topic ctx :
  forall st,
    match fst (_generate_concept_card env topic ctx st) with
    | Some card => as_generated card
    | None => True
    end.
Proof.
  intros st. unfold _generate_concept_card.
  destruct (negb _); [exact I|].
  destruct (get_config _ _) as [pc|]; [|exact I].
  destruct (format_prompt _ _ _); [|exact I].
  rewrite bind_fst. destruct (fst (call_llm _ _ _ _)) as [r|]; [|exact I].
  destruct (as_str _) as [sep|]; [|exact I].
  destruct (PyStr.contains _ r); [|exact I].
  destruct (PyStr.split_once _ r) as [[f b]|]; [|exact I].
  rewrite bind_fst. cbn [ret fst]. repeat split.
Qed.

Lemma as_generated_basic env topic ctx :
  yields as_generated (_generate_basic_cards env topic ctx).
Proof.
  unfold _generate_basic_cards.
  destruct (negb _); [apply yields_nil|].
  destruct (get_config _ _) as [pc|]; [|apply yields_nil].
  destruct (format_prompt _ _ _); [|apply yields_nil].
  intros st. rewrite bind_fst.
  destruct (fst (call_llm _ _ _ _)) as [r|]; [|constructor].
  destruct (as_str _) as [sep|]; [|constructor].
  destruct (slice_to_value _ _) as [first_lines|]; [|constructor].
  apply basic_loop_yields; [|constructor].
  intros f b. repeat split.
Qed.

Lemma as_generated_cloze env topic ctx :
  yields as_generated (_generate_cloze_cards env topic ctx).
Proof.
  unfold _generate_cloze_cards.
  destruct (negb _); [apply yields_nil|].
  destruct (get_config _ _) as [pc|]; [|apply yields_nil].
  destruct (format_prompt _ _ _); [|apply yields_nil].
  intros st. rewrite bind_fst.
  destruct (fst (call_llm _ _ _ _)) as [r|]; [|constructor].
  destruct (slice_to_value _ _) as [first_lines|]; [|constructor].
  apply yields_for_each. intros line. apply yields_singleton.
  repeat split.
Qed.

Lemma as_generated_descriptor env topic ctx :
  yields as_generated (_generate_descriptor_cards env topic ctx).
Proof.
  unfold _generate_descriptor_cards.
  destruct (negb _); [apply yields_nil|].
  destruct (get_config _ _) as [pc|]; [|apply yields_nil].
  destruct (slice_to_value _ _) as [concepts|]; [|apply yields_nil].
  apply yields_for_each. intros x. apply yields_singleton. repeat split.
Qed.

Lemma as_generated_multiline env topic ctx :
  yields as_generated (_generate_multiline_cards env topic ctx).
Proof.
  unfold _generate_multiline_cards.
  destruct (_ <? _)%nat; [|apply yields_nil].
  apply yields_singleton. repeat split.
Qed.

Lemma as_generated_list_answer env topic ctx :
  yields as_generated (_generate_list_answer_cards env topic ctx).
Proof.
  unfold _generate_list_answer_cards.
  destruct (_ <? _)%nat eqn:E; [|apply yields_nil].
  apply yields_singleton. apply Nat.ltb_lt in E. repeat split. exact E.
Qed.

Lemma as_generated_multiple_choice env topic ctx :
  yields as_generated (_generate_multiple_choice_cards env topic ctx).
Proof.
  unfold _generate_multiple_choice_cards.
  destruct (_ <=? _)%nat eqn:E; [|apply yields_nil].
  apply yields_singleton. apply Nat.leb_le in E.
  unfold as_generated, new_flashcard, __post_init__.
  cbn [source_hash with_source_hash card_type list_items direction
         use_triple_delimiter].
  rewrite length_firstn. repeat split; lia.
Qed.

Lemma format_card_as_generated c st :
  as_generated c -> fst (_format_card c st) = Some (generated_line c).
Proof.
  intros (Hu & Hd & Hk).
  unfold _format_card, generated_line, _format_multiline_concept,
    _format_list_answer, _format_multiple_choice, _format_cloze.
  rewrite !bind_fst, Hd.
  destruct (card_type c); try contradiction;
    rewrite ?Hu, ?bind_fst; cbn [ret fst];
    rewrite ?bind_fst, ?escape_special_chars_text; cbn [ret fst];
    try reflexivity.
  - now destruct (negb _).
  - destruct (list_items c) as [|i1 l]; [cbn in Hk; lia|].
    cbn [ret fst]. now rewrite ?escape_special_chars_text.
  - destruct (list_items c) as [|i1 [|i2 l]]; [cbn in Hk; lia..|].
    cbn [ret fst]. now rewrite ?escape_special_chars_text.
Qed.

(** X27.  What [_format_card] writes for a card that [generate_cards]
    returned depends on its kind only: a concept card is written with the
    forward delimiter [:>] (the generator never sets a direction), a basic
    card with [>>], a cloze card as its front, a descriptor card with
    [;;], a multi-line card as [front ::] and its back on the next line
    (never with the triple delimiter), a list card as [front >>1.] and a
    choice card as [front >>A)], both without their items. *)
Theorem generated_cards_lines (env : Env) (topic : Topic)
    (ctx : option string) (st : State) :
  Forall (fun c => as_generated c
                   /\ forall fs, fst (_format_card c fs)
                                 = Some (generated_line c))
         (fst (generate_cards env topic ctx st)).
Proof.
  eapply Forall_impl.
  - apply (yields_generate_cards as_generated). intros t c.
    apply yields_own_cards.
    + apply as_generated_concept.
    + apply as_generated_basic.
    + apply as_generated_cloze.
    + apply as_generated_descriptor.
    + apply as_generated_multiline.
    + apply as_generated_list_answer.
    + apply as_generated_multiple_choice.
  - intros c Hc. split; [exact Hc|]. intros fs.
    now apply format_card_as_generated.
Qed.

End GeneratedLines.
